(** * Logs distributor: a shallow embedding and its verified properties

    The development follows the layout of the Python package:
    - [models]          the pydantic records of distributor/models.py,
    - [config]          get_analyzers of distributor/config.py,
    - [distributor]     the LogDistributor class of distributor/distributor.py,
    - [health_monitor]  the probe of distributor/health_monitor.py,
    - [main]            the ingress queue and the /ingest handler of
                        distributor/main.py,
    - [monitor_loop]    the monitoring loop of distributor/health_monitor.py,
    - [service]         the startup, the worker tasks and /health of
                        distributor/main.py, and the event loop that
                        interleaves them,
    - [backoff_delay]   the delay of a backoff wait of distribute,
    - [config_text]     get_analyzers on an environment given as text.

    Python's [float] is IEEE 754 binary64, embedded as Rocq's primitive
    [float]; Python's [int] is [Z]; [str] is [string]; a [dict] keyed by
    strings is a [gmap string _]; a function that can raise returns a
    sum whose left side is the exception.  Everything the code obtains
    from the outside world (the random draw, the answer of a downstream
    HTTP call, the process environment) is an explicit argument, and what
    a call does to the outside world (its POSTs and backoff waits) is
    recorded on a wire.  Logging is left out: it changes nothing the
    properties speak of. *)

From Stdlib Require Import Floats ZArith List Bool Ascii.
From stdpp Require Import gmap strings list fin_maps pretty.

Set Warnings "-inexact-float".
Local Open Scope Z_scope.

(** Python's [len] returns an [int]. *)
Definition len {A} (l : list A) : Z := Z.of_nat (length l).

(** [range(n)]: the integers [0, 1, ..., n-1], empty when [n <= 0]. *)
Definition range (n : Z) : list Z := map Z.of_nat (seq 0 (Z.to_nat n)).

(* ================================================================== *)
(** ** distributor/models.py *)
(* ================================================================== *)

Module models.

Inductive LogLevel := DEBUG | INFO | WARNING | ERROR | CRITICAL.

Record LogMessage := {
  timestamp : string;
  level : LogLevel;
  source : string;
  message : string;
  metadata : list (string * string)
}.

Record LogPacket := {
  packet_id : string;
  messages : list LogMessage;
  agent_id : string
}.

Record Analyzer := {
  name : string;
  url : string;
  weight : float;
  is_healthy : bool
}.

Record DistributorStats := {
  total_packets_received : Z;
  total_messages_received : Z;
  packets_per_analyzer : gmap string Z;
  messages_per_analyzer : gmap string Z;
  failed_sends : Z
}.

(** [DistributorStats()]: every field takes its declared default. *)
Definition DistributorStats_default : DistributorStats :=
  {| total_packets_received := 0;
     total_messages_received := 0;
     packets_per_analyzer := ∅;
     messages_per_analyzer := ∅;
     failed_sends := 0 |}.

(** What pydantic reports when a [Field] constraint is violated. *)
Inductive ValidationError :=
| greater_than_equal (field : string)   (* the [ge=] bound failed *)
| less_than_equal (field : string).     (* the [le=] bound failed *)

(** [Analyzer(name=.., url=.., weight=.., is_healthy=..)].  The [weight]
    field is declared [Field(..., ge=0.0, le=1.0)]: construction raises
    a ValidationError unless [0.0 <= weight <= 1.0].  The validator of a
    float tests the [le=] bound before the [ge=] bound and reports the
    first bound that fails, so a NaN, which fails both comparisons, is
    reported as [less_than_equal]. *)
Definition Analyzer_init (name url : string) (weight : float)
    (is_healthy : bool) : ValidationError + Analyzer :=
  if negb (PrimFloat.leb weight 1) then inl (less_than_equal "weight")
  else if negb (PrimFloat.leb 0 weight) then inl (greater_than_equal "weight")
  else inr {| name := name; url := url; weight := weight;
              is_healthy := is_healthy |}.

End models.
Import models.

(* ================================================================== *)
(** ** Python built-ins whose result depends on the interpreter *)
(* ================================================================== *)

(** [sum(xs)] over floats starts from the integer [0] and adds the items
    from left to right; this is the result of CPython up to 3.11.  Later
    versions compensate the rounding error of the additions, which can
    change the last bits of the total.  The functions below therefore take
    the built-in as a parameter [py_sum], and [sum_left_to_right] is the
    instance used when a concrete run is evaluated. *)
Definition sum_left_to_right (xs : list float) : float :=
  fold_left PrimFloat.add xs 0%float.

(** A failing step aborts the rest of the computation, as a raised
    exception does. *)
Notation "'let?' x ':=' e 'in' k" :=
  (match e with inl err => inl err | inr x => k end)
  (at level 10, x name, e at level 100, k at level 200, only parsing).

(* ================================================================== *)
(** ** distributor/config.py *)
(* ================================================================== *)

Module config.

(** The process environment.  [getenv k] is [os.getenv(k)];
    [getenv_float k] is [float(os.getenv(k))] for a variable that is
    set: parsing the decimal text is Python's work and stays outside the
    model, so the environment carries the parsed number. *)
Record Environ := {
  getenv : string → option string;
  getenv_float : string → option float
}.

(** What [logger.warning] receives in [get_analyzers]. *)
Inductive LogRecord :=
| weights_sum_warning (total_weight : float).

Section get_analyzers.
Variable py_sum : list float → float.

Definition get_analyzers (environ : Environ)
    : ValidationError + (list Analyzer * list LogRecord) :=
  let? a1 := Analyzer_init "analyzer-1"
      (default "http://analyzer-1:8001/analyze" (getenv environ "ANALYZER_1_URL"))
      (default 0.4%float (getenv_float environ "ANALYZER_1_WEIGHT")) true in
  let? a2 := Analyzer_init "analyzer-2"
      (default "http://analyzer-2:8002/analyze" (getenv environ "ANALYZER_2_URL"))
      (default 0.3%float (getenv_float environ "ANALYZER_2_WEIGHT")) true in
  let? a3 := Analyzer_init "analyzer-3"
      (default "http://analyzer-3:8003/analyze" (getenv environ "ANALYZER_3_URL"))
      (default 0.2%float (getenv_float environ "ANALYZER_3_WEIGHT")) true in
  let? a4 := Analyzer_init "analyzer-4"
      (default "http://analyzer-4:8004/analyze" (getenv environ "ANALYZER_4_URL"))
      (default 0.1%float (getenv_float environ "ANALYZER_4_WEIGHT")) true in
  let analyzers := [a1; a2; a3; a4] in
  (* Validate weights sum to approximately 1.0 *)
  let total_weight := py_sum (map weight analyzers) in
  if negb (PrimFloat.leb 0.99 total_weight && PrimFloat.leb total_weight 1.01)
  then inr (analyzers, [weights_sum_warning total_weight])
  else inr (analyzers, []).
End get_analyzers.

End config.

(* ================================================================== *)
(** ** distributor/distributor.py *)
(* ================================================================== *)

Module distributor.

Record LogDistributor := {
  analyzers : list Analyzer;
  timeout : float;
  stats : DistributorStats
}.

Definition with_stats (st : DistributorStats) (d : LogDistributor)
    : LogDistributor :=
  {| analyzers := analyzers d; timeout := timeout d; stats := st |}.

(** One turn of the loop of [__init__]:
    [packets_per_analyzer[analyzer.name] = 0] and
    [messages_per_analyzer[analyzer.name] = 0]. *)
Definition init_analyzer_stats (st : DistributorStats) (analyzer : Analyzer)
    : DistributorStats :=
  {| total_packets_received := total_packets_received st;
     total_messages_received := total_messages_received st;
     packets_per_analyzer := <[name analyzer := 0]> (packets_per_analyzer st);
     messages_per_analyzer := <[name analyzer := 0]> (messages_per_analyzer st);
     failed_sends := failed_sends st |}.

Definition __init__ (analyzers : list Analyzer) (timeout : float)
    : LogDistributor :=
  {| analyzers := analyzers;
     timeout := timeout;
     stats := fold_left init_analyzer_stats analyzers DistributorStats_default |}.

(** The walk of [_select_analyzer]: accumulate the weights and return
    the first analyzer whose cumulative weight exceeds [rand]; [None]
    when the loop runs off the end of the list. *)
Fixpoint walk (rand cumulative_weight : float) (healthy_analyzers : list Analyzer)
    : option Analyzer :=
  match healthy_analyzers with
  | [] => None
  | analyzer :: rest =>
      let cumulative_weight := PrimFloat.add cumulative_weight (weight analyzer) in
      if PrimFloat.ltb rand cumulative_weight then Some analyzer
      else walk rand cumulative_weight rest
  end.

Section select.
Variable py_sum : list float → float.

(** [_select_analyzer]; [rand] is the value that
    [random.uniform(0, total_weight)] returns on this call. *)
Definition _select_analyzer (self : LogDistributor) (rand : float)
    : option Analyzer :=
  let healthy_analyzers := List.filter is_healthy (analyzers self) in
  match healthy_analyzers with
  | [] => None
  | _ :: _ =>
      let total_weight := py_sum (map weight healthy_analyzers) in
      if PrimFloat.eqb total_weight 0 then None
      else
        match walk rand 0 healthy_analyzers with
        | Some analyzer => Some analyzer
        | None => last healthy_analyzers     (* healthy_analyzers[-1] *)
        end
  end.
End select.

(** *** The three critical sections that write shared state *)

(** [self.stats.failed_sends += 1]. *)
Definition record_failure (self : LogDistributor) : LogDistributor :=
  let st := stats self in
  with_stats
    {| total_packets_received := total_packets_received st;
       total_messages_received := total_messages_received st;
       packets_per_analyzer := packets_per_analyzer st;
       messages_per_analyzer := messages_per_analyzer st;
       failed_sends := failed_sends st + 1 |} self.

Inductive Exn :=
| TimeoutException
| ConnectError
| HTTPStatusError (status_code : Z)
| KeyError
| OverflowError
| OtherException.

(** The success path of [distribute].  The four updates run in the
    order of the source; [d[k] += v] on a dict raises KeyError when [k]
    is missing, and the updates made before it stay. *)
Definition record_success (analyzer : Analyzer) (packet : LogPacket)
    (self : LogDistributor) : option Exn * LogDistributor :=
  let st := stats self in
  let total_packets := total_packets_received st + 1 in
  let total_messages := total_messages_received st + len (messages packet) in
  match packets_per_analyzer st !! name analyzer with
  | None =>
      (Some KeyError,
       with_stats
         {| total_packets_received := total_packets;
            total_messages_received := total_messages;
            packets_per_analyzer := packets_per_analyzer st;
            messages_per_analyzer := messages_per_analyzer st;
            failed_sends := failed_sends st |} self)
  | Some packets =>
      let packets_map := <[name analyzer := packets + 1]> (packets_per_analyzer st) in
      match messages_per_analyzer st !! name analyzer with
      | None =>
          (Some KeyError,
           with_stats
             {| total_packets_received := total_packets;
                total_messages_received := total_messages;
                packets_per_analyzer := packets_map;
                messages_per_analyzer := messages_per_analyzer st;
                failed_sends := failed_sends st |} self)
      | Some msgs =>
          (None,
           with_stats
             {| total_packets_received := total_packets;
                total_messages_received := total_messages;
                packets_per_analyzer := packets_map;
                messages_per_analyzer :=
                  <[name analyzer := msgs + len (messages packet)]>
                    (messages_per_analyzer st);
                failed_sends := failed_sends st |} self)
      end
  end.

(** The loop of [update_analyzer_health]: the first analyzer with the
    given name gets the flag and the function returns; a name that is
    not found changes nothing. *)
Fixpoint set_health (analyzer_name : string) (is_healthy : bool)
    (l : list Analyzer) : list Analyzer :=
  match l with
  | [] => []
  | analyzer :: rest =>
      if decide (name analyzer = analyzer_name)
      then {| name := name analyzer; url := url analyzer;
              weight := weight analyzer; is_healthy := is_healthy |} :: rest
      else analyzer :: set_health analyzer_name is_healthy rest
  end.

Definition update_analyzer_health (analyzer_name : string) (is_healthy : bool)
    (self : LogDistributor) : LogDistributor :=
  {| analyzers := set_health analyzer_name is_healthy (analyzers self);
     timeout := timeout self;
     stats := stats self |}.

(** [get_stats] returns a deep copy, [get_healthy_analyzers] copies of
    the healthy entries; neither writes. *)
Definition get_stats (self : LogDistributor) : DistributorStats := stats self.

Definition get_healthy_analyzers (self : LogDistributor) : list Analyzer :=
  List.filter is_healthy (analyzers self).

(** *** The outside world seen by one call of [distribute] *)

(** What the call does to the world: the POSTs it issues, in order, and
    the backoff waits between them.  A wait is recorded with the two
    operands of its delay, [retry_delay * (2 ** attempt)]; how long it
    lasts is real time and stays outside the model, where every wait
    that starts ends. *)
Inductive Event :=
| EvPost (url : string) (packet_id : string)
| EvSleep (retry_delay : float) (attempt : Z).

Record World := {
  dist : LogDistributor;
  wire : list Event
}.

Definition emit (e : Event) (w : World) : World :=
  {| dist := dist w; wire := wire w ++ [e] |}.

Definition with_dist (d : LogDistributor) (w : World) : World :=
  {| dist := d; wire := wire w |}.

(** What the world answers during the call, attempt by attempt:
    [uniform attempt] is the draw of [random.uniform] in the selection
    of that attempt; [post attempt analyzer packet] is the exception
    that [client.post] or [response.raise_for_status()] raises for the
    request of that attempt, [None] when neither raises. *)
Record Env := {
  uniform : Z → float;
  post : Z → Analyzer → LogPacket → option Exn
}.

(** [_send_to_analyzer]: one POST; it returns [True] or lets the
    exception through. *)
Definition _send_to_analyzer (env : Env) (attempt : Z) (packet : LogPacket)
    (analyzer : Analyzer) (w : World) : (Exn + bool) * World :=
  let w := emit (EvPost (url analyzer) (packet_id packet)) w in
  match post env attempt analyzer packet with
  | Some e => (inl e, w)
  | None => (inr true, w)
  end.

(** The tail shared by the four retrying handlers:
    [if attempt < max_retries: delay = retry_delay * (2 ** attempt);
     await asyncio.sleep(delay); continue].
    The product is computed before the wait: [2 ** attempt] is an [int],
    and converting it to [float] raises OverflowError once it leaves the
    range of binary64, that is from [attempt = 1024] on.  The exception
    is raised inside an [except] clause, so no handler of [distribute]
    catches it.  Without a retry left nothing is computed and the [for]
    loop moves on to its next item. *)
Definition backoff (attempt max_retries : Z) (retry_delay : float) (w : World)
    : Exn + World :=
  if attempt <? max_retries then
    if 1024 <=? attempt then inl OverflowError
    else inr (emit (EvSleep retry_delay attempt) w)
  else inr w.

Section distribute.
Variable py_sum : list float → float.
Variable env : Env.
Variable packet : LogPacket.
Variable max_retries : Z.
Variable retry_delay : float.

(** The body of [for attempt in range(max_retries + 1)], by recursion
    on the attempts still to run; the empty list is the code after
    the loop.  The result is the value returned, or the exception that
    leaves the call. *)
Fixpoint distribute_loop (attempts : list Z) (w : World)
    : (Exn + bool) * World :=
  match attempts with
  | [] =>
      (* All retry attempts exhausted *)
      (inr false, with_dist (record_failure (dist w)) w)
  | attempt :: rest =>
      (* the tail of a retrying handler, then the next turn of the loop *)
      let retry (w : World) :=
        match backoff attempt max_retries retry_delay w with
        | inl e => (inl e, w)
        | inr w => distribute_loop rest w
        end in
      match _select_analyzer py_sum (dist w) (uniform env attempt) with
      | None =>
          (inr false, with_dist (record_failure (dist w)) w)
      | Some analyzer =>
          match _send_to_analyzer env attempt packet analyzer w with
          | (inr success, w) =>
              if success then
                match record_success analyzer packet (dist w) with
                | (None, d) => (inr true, with_dist d w)
                | (Some _, d) => retry (with_dist d w)  (* except Exception *)
                end
              else distribute_loop rest w
          | (inl TimeoutException, w) => retry w
          | (inl ConnectError, w) => retry w
          | (inl (HTTPStatusError status_code), w) =>
              (* Don't retry on 4xx errors (client errors) *)
              if (400 <=? status_code) && (status_code <? 500)
              then (inr false, with_dist (record_failure (dist w)) w)
              else retry w
          | (inl _, w) => retry w                       (* except Exception *)
          end
      end
  end.

Definition distribute (w : World) : (Exn + bool) * World :=
  distribute_loop (range (max_retries + 1)) w.
End distribute.

(** *** The calls that reach a distributor *)

Inductive Call :=
| call_distribute (env : Env) (packet : LogPacket) (max_retries : Z)
    (retry_delay : float)
| call_update_analyzer_health (analyzer_name : string) (is_healthy : bool)
| call_get_stats
| call_get_healthy_analyzers.

Definition is_health_update (c : Call) : bool :=
  match c with call_update_analyzer_health _ _ => true | _ => false end.

Section run.
Variable py_sum : list float → float.

(** The distributor after one call. *)
Definition run (c : Call) (self : LogDistributor) : LogDistributor :=
  match c with
  | call_distribute env packet max_retries retry_delay =>
      dist (snd (distribute py_sum env packet max_retries retry_delay
                   {| dist := self; wire := [] |}))
  | call_update_analyzer_health analyzer_name is_healthy =>
      update_analyzer_health analyzer_name is_healthy self
  | call_get_stats => self
  | call_get_healthy_analyzers => self
  end.

Definition run_all (cs : list Call) (self : LogDistributor) : LogDistributor :=
  fold_left (λ d c, run c d) cs self.
End run.

(** The states of a distributor under any interleaving of workers and
    prober.  Between two suspension points a task runs alone, so the
    shared state moves by whole critical sections: the success and the
    failure section of [distribute], and [update_analyzer_health].  The
    analyzer of the success section is the one the selector returned
    earlier in the same call, an entry of [self.analyzers] whose health
    flag may have been rewritten since; the section reads its name. *)
Inductive reachable : LogDistributor → Prop :=
| reachable_init analyzers timeout :
    reachable (__init__ analyzers timeout)
| reachable_success self analyzer packet :
    reachable self → name analyzer ∈ name <$> analyzers self →
    reachable (snd (record_success analyzer packet self))
| reachable_failure self :
    reachable self → reachable (record_failure self)
| reachable_health self analyzer_name is_healthy :
    reachable self →
    reachable (update_analyzer_health analyzer_name is_healthy self).

End distributor.

(* ================================================================== *)
(** ** distributor/health_monitor.py *)
(* ================================================================== *)

Module health_monitor.
Import distributor.

(** [s.rsplit('/', 1)] splits at the last ['/'] of [s]:
    [Some (before, after)], or [None] when [s] has no ['/']. *)
Fixpoint split_last_slash (s : string) : option (string * string) :=
  match s with
  | EmptyString => None
  | String c s' =>
      match split_last_slash s' with
      | Some (before, after) => Some (String c before, after)
      | None => if Ascii.eqb c "/"%char then Some (EmptyString, s') else None
      end
  end.

Definition rsplit1 (s : string) : list string :=
  match split_last_slash s with
  | Some (before, after) => [before; after]
  | None => [s]
  end.

(** What [client.get] does: a response with its status code, or one of
    the exceptions the probe distinguishes. *)
Inductive GetResult :=
| Response (status_code : Z)
| GetTimeoutException
| GetConnectError
| GetOtherException.

(** The URL the probe requests:
    [analyzer.url.rsplit('/', 1)[0]] followed by ["/health"];
    [None] stands for the IndexError of [[0]] on an empty list. *)
Definition health_url (url : string) : option string :=
  match rsplit1 url with
  | base_url :: _ => Some (base_url +:+ "/health")
  | [] => None
  end.

(** [_check_analyzer_health]; every exception ends in [return False]. *)
Definition _check_analyzer_health (client : string → GetResult)
    (analyzer : Analyzer) : bool :=
  match health_url (url analyzer) with
  | None => false                     (* except Exception *)
  | Some health_url =>
      match client health_url with
      | Response status_code => status_code =? 200
      | GetTimeoutException => false
      | GetConnectError => false
      | GetOtherException => false
      end
  end.

(** [_check_all_analyzers]: all probes are gathered first, then the
    results are applied in the order of the list, by name.  A probe
    returns a bool on every path, so the [isinstance(result, Exception)]
    branch is never taken. *)
Definition _check_all_analyzers (client : string → GetResult)
    (d : LogDistributor) : LogDistributor :=
  let analyzers := analyzers d in
  let results := map (_check_analyzer_health client) analyzers in
  fold_left
    (λ d '(analyzer, is_healthy),
       update_analyzer_health (name analyzer) is_healthy d)
    (zip analyzers results) d.

End health_monitor.

(* ================================================================== *)
(** ** distributor/main.py *)
(* ================================================================== *)

Module main.

(** [asyncio.Queue(maxsize=MAX_QUEUE_SIZE)]: the buffered packets,
    oldest first.  A [maxsize] of zero or less means no bound. *)
Record Queue := {
  maxsize : Z;
  _queue : list LogPacket
}.

Definition qsize (q : Queue) : Z := len (_queue q).

Definition full (q : Queue) : bool :=
  if maxsize q <=? 0 then false else maxsize q <=? qsize q.

Inductive QueueFull := queue_full.

(** [put_nowait]: raise QueueFull when the queue is full, otherwise
    append; there is no suspension point in it. *)
Definition put_nowait (item : LogPacket) (q : Queue) : QueueFull + Queue :=
  if full q then inl queue_full
  else inr {| maxsize := maxsize q; _queue := _queue q ++ [item] |}.

(** What the route hands back to FastAPI: a JSON object served with the
    status code of the decorator, or a raised HTTPException. *)
Inductive HandlerResult :=
| Returned (status_code : Z) (body : list (string * string))
| HTTPException (status_code : Z) (detail : string).

(** [@app.post("/ingest", status_code=202)]. *)
Definition ingest_log_packet (packet : LogPacket) (packet_queue : Queue)
    : HandlerResult * Queue :=
  match put_nowait packet packet_queue with
  | inr packet_queue =>
      (Returned 202
         [("status", "accepted");
          ("packet_id", packet_id packet);
          ("message",
           "Packet queued for distribution ("
             +:+ pretty (len (messages packet)) +:+ " messages)")],
       packet_queue)
  | inl queue_full =>
      (HTTPException 503 "Queue is full, please retry later", packet_queue)
  end.

(** *** The handler as a coroutine *)

(** What a coroutine does with the queue on its way to its result.
    [Try_put_nowait item c1 c2] is
    [try: packet_queue.put_nowait(item); c1  except asyncio.QueueFull: c2].
    [Await_put item c] is [await packet_queue.put(item); c], the call of
    the queue that waits for a free slot; it is here to say what waiting
    is. *)
Inductive Coroutine :=
| Done (answer : HandlerResult)
| Try_put_nowait (item : LogPacket) (on_success on_QueueFull : Coroutine)
| Await_put (item : LogPacket) (next : Coroutine).

(** The calls made on the queue. *)
Inductive QueueCall :=
| called_put_nowait (item : LogPacket)
| called_put (item : LogPacket).

(** A run of a coroutine, up to its result or to the point where it has
    to wait: the result, [None] when the coroutine is left waiting; the
    queue; and the calls made on the queue, in order. *)
Record Run := {
  run_result : option HandlerResult;
  run_queue : Queue;
  run_calls : list QueueCall
}.

Fixpoint run_coroutine (c : Coroutine) (q : Queue) : Run :=
  match c with
  | Done answer =>
      {| run_result := Some answer; run_queue := q; run_calls := [] |}
  | Try_put_nowait item on_success on_QueueFull =>
      let rest :=
        match put_nowait item q with
        | inr q => run_coroutine on_success q
        | inl queue_full => run_coroutine on_QueueFull q
        end in
      {| run_result := run_result rest;
         run_queue := run_queue rest;
         run_calls := called_put_nowait item :: run_calls rest |}
  | Await_put item next =>
      if full q then
        {| run_result := None; run_queue := q; run_calls := [called_put item] |}
      else
        let rest :=
          run_coroutine next
            {| maxsize := maxsize q; _queue := _queue q ++ [item] |} in
        {| run_result := run_result rest;
           run_queue := run_queue rest;
           run_calls := called_put item :: run_calls rest |}
  end.

(** The body of [ingest_log_packet], statement by statement: the
    [try], the [return] of the acknowledgement, and the [raise] of the
    [except] clause. *)
Definition ingest_log_packet_coroutine (packet : LogPacket) : Coroutine :=
  Try_put_nowait packet
    (Done
       (Returned 202
          [("status", "accepted");
           ("packet_id", packet_id packet);
           ("message",
            "Packet queued for distribution ("
              +:+ pretty (len (messages packet)) +:+ " messages)")]))
    (Done (HTTPException 503 "Queue is full, please retry later")).

End main.


(* ================================================================== *)
(** ** distributor/health_monitor.py: the monitoring loop *)
(* ================================================================== *)

Module monitor_loop.
Import distributor health_monitor.

(** [_monitor_loop]: each turn of [while self._running] runs one round of
    probes and then waits [check_interval].  [rounds] holds what the
    analyzers answer in the successive rounds; the loop is left (stop,
    cancellation) after the last of them.  A round raises nothing, so
    the [except Exception] branch is never taken. *)
Definition _monitor_loop (rounds : list (string → GetResult))
    (d : LogDistributor) : LogDistributor :=
  fold_left (λ d client, _check_all_analyzers client d) rounds d.

End monitor_loop.

(* ================================================================== *)
(** ** distributor/main.py: lifespan, queue_worker, GET /stats, GET /health *)
(* ================================================================== *)

Module service.
Import distributor health_monitor main.

(** The module constants of config.py that main.py reads, after the
    environment has been parsed. *)
Record Settings := {
  NUM_WORKERS : Z;
  MAX_QUEUE_SIZE : Z;
  ANALYZER_TIMEOUT : float;
  MAX_RETRIES : Z;
  RETRY_DELAY : float
}.

(** The global state of main.py.  [unfinished_tasks] is the counter of
    the asyncio queue that [put_nowait] raises and [task_done] lowers,
    kept beside the queue; [outbox] collects what the workers did to the
    outside world. *)
Record App := {
  packet_queue : Queue;
  unfinished_tasks : Z;
  the_distributor : LogDistributor;
  outbox : list Event
}.

(** The startup half of [lifespan]: an empty queue of the configured
    bound and a fresh distributor over [ANALYZERS]. *)
Definition lifespan_startup (settings : Settings) (ANALYZERS : list Analyzer)
    : App :=
  {| packet_queue := {| maxsize := MAX_QUEUE_SIZE settings; _queue := [] |};
     unfinished_tasks := 0;
     the_distributor := __init__ ANALYZERS (ANALYZER_TIMEOUT settings);
     outbox := [] |}.

(** A request to POST /ingest: the handler, and the count of unfinished
    tasks that [put_nowait] raises when it accepts the item. *)
Definition ingest (packet : LogPacket) (app : App) : HandlerResult * App :=
  let '(answer, q) := ingest_log_packet packet (packet_queue app) in
  (answer,
   {| packet_queue := q;
      unfinished_tasks :=
        match answer with
        | Returned _ _ => unfinished_tasks app + 1
        | HTTPException _ _ => unfinished_tasks app
        end;
      the_distributor := the_distributor app;
      outbox := outbox app |}).

(** [packet_queue.task_done()]: ValueError when called more often than
    items were put, otherwise one unfinished task less. *)
Definition task_done (unfinished : Z) : option Z :=
  if unfinished <=? 0 then None else Some (unfinished - 1).

(** The application once [distribute] has ended with [r] in a worker
    that took its packet from the queue, leaving [q]: [task_done] is
    reached when [distribute] returns (its ValueError, like every other
    exception, is logged by [except Exception]); an exception of
    [distribute] skips it. *)
Definition after_distribute (q : Queue) (unfinished : Z)
    (r : (Exn + bool) * World) : App :=
  match r with
  | (inr success, w) =>
      {| packet_queue := q;
         unfinished_tasks :=
           match task_done unfinished with
           | Some n => n
           | None => unfinished
           end;
         the_distributor := dist w;
         outbox := wire w |}
  | (inl e, w) =>
      {| packet_queue := q;
         unfinished_tasks := unfinished;
         the_distributor := dist w;
         outbox := wire w |}
  end.

(** Where a worker task is suspended: in [wait_for(packet_queue.get())];
    holding a packet at the head of the [for] loop, before the first
    attempt or after a backoff wait, with the attempts still to run; or
    in the POST of an attempt to the analyzer it selected. *)
Inductive Worker :=
| waiting_for_packet
| at_loop_head (packet : LogPacket) (attempts : list Z)
| awaiting_post (packet : LogPacket) (attempt : Z) (rest : list Z)
    (analyzer : Analyzer).

(** The service: the shared state and its worker tasks. *)
Record System := {
  app_state : App;
  workers : list Worker
}.

(** What the event loop runs next, up to the next suspension point, with
    what the outside world supplies: a request to /ingest; worker [i]
    getting the oldest packet; worker [i] resuming at the head of its
    loop, [rand] being the draw of the selection; the POST of worker [i]
    ending with [outcome]; one [update_analyzer_health] of the monitor. *)
Inductive Action :=
| request_ingest (packet : LogPacket)
| worker_takes (i : nat)
| worker_resumes (i : nat) (rand : float)
| post_returns (i : nat) (outcome : option Exn)
| monitor_updates (analyzer_name : string) (is_healthy : bool).

(** What a step shows. *)
Inductive Observation :=
| silent
| answered (packet : LogPacket) (answer : HandlerResult)
| took (i : nat) (packet : LogPacket)
| distributed (i : nat) (packet : LogPacket) (success : bool)
| task_done_failed (i : nat) (packet : LogPacket)
| raised (i : nat) (packet : LogPacket) (e : Exn).

Section workers.
Variable py_sum : list float → float.
Variable settings : Settings.

(** One turn of the loop of [queue_worker] when nothing else runs in
    between.  On an empty queue [wait_for] times out after a second and
    the loop continues.  Otherwise the oldest packet is taken and
    distributed. *)
Definition queue_worker_turn (env : Env) (app : App) : App :=
  match _queue (packet_queue app) with
  | [] => app
  | packet :: rest =>
      after_distribute
        {| maxsize := maxsize (packet_queue app); _queue := rest |}
        (unfinished_tasks app)
        (distribute py_sum env packet (MAX_RETRIES settings)
           (RETRY_DELAY settings)
           {| dist := the_distributor app; wire := outbox app |})
  end.

(** [distribute] returns [success] to worker [i], leaving the
    distributor [d]; the worker calls [task_done] and goes back to
    [wait_for]. *)
Definition returns (i : nat) (packet : LogPacket) (success : bool)
    (d : LogDistributor) (s : System) : Observation * System :=
  let app := app_state s in
  (match task_done (unfinished_tasks app) with
   | Some _ => distributed i packet success
   | None => task_done_failed i packet
   end,
   {| app_state :=
        after_distribute (packet_queue app) (unfinished_tasks app)
          (inr success, {| dist := d; wire := outbox app |});
      workers := <[i := waiting_for_packet]> (workers s) |}).

(** The tail of a retrying handler in worker [i], the distributor being
    [d]: the backoff wait and the next turn of the loop, or the
    exception of the backoff, which leaves [distribute] and is logged by
    the worker. *)
Definition retries (i : nat) (packet : LogPacket) (attempt : Z)
    (rest : list Z) (d : LogDistributor) (s : System)
    : Observation * System :=
  let app := app_state s in
  match backoff attempt (MAX_RETRIES settings) (RETRY_DELAY settings)
          {| dist := d; wire := outbox app |} with
  | inl e =>
      (raised i packet e,
       {| app_state :=
            after_distribute (packet_queue app) (unfinished_tasks app)
              (inl e, {| dist := d; wire := outbox app |});
          workers := <[i := waiting_for_packet]> (workers s) |})
  | inr w =>
      (silent,
       {| app_state :=
            {| packet_queue := packet_queue app;
               unfinished_tasks := unfinished_tasks app;
               the_distributor := dist w;
               outbox := wire w |};
          workers := <[i := at_loop_head packet rest]> (workers s) |})
  end.

(** One step of the event loop.  An action that does not fit the state
    of its worker changes nothing. *)
Definition step (act : Action) (s : System) : Observation * System :=
  let app := app_state s in
  let d := the_distributor app in
  match act with
  | request_ingest packet =>
      let '(answer, app) := ingest packet app in
      (answered packet answer, {| app_state := app; workers := workers s |})
  | worker_takes i =>
      match workers s !! i, _queue (packet_queue app) with
      | Some waiting_for_packet, packet :: rest =>
          (took i packet,
           {| app_state :=
                {| packet_queue :=
                     {| maxsize := maxsize (packet_queue app); _queue := rest |};
                   unfinished_tasks := unfinished_tasks app;
                   the_distributor := d;
                   outbox := outbox app |};
              workers :=
                <[i := at_loop_head packet (range (MAX_RETRIES settings + 1))]>
                  (workers s) |})
      | _, _ => (silent, s)
      end
  | worker_resumes i rand =>
      match workers s !! i with
      | Some (at_loop_head packet []) =>
          returns i packet false (record_failure d) s
      | Some (at_loop_head packet (attempt :: rest)) =>
          match _select_analyzer py_sum d rand with
          | None => returns i packet false (record_failure d) s
          | Some analyzer =>
              (silent,
               {| app_state :=
                    {| packet_queue := packet_queue app;
                       unfinished_tasks := unfinished_tasks app;
                       the_distributor := d;
                       outbox :=
                         outbox app ++ [EvPost (url analyzer) (packet_id packet)] |};
                  workers :=
                    <[i := awaiting_post packet attempt rest analyzer]>
                      (workers s) |})
          end
      | _ => (silent, s)
      end
  | post_returns i outcome =>
      match workers s !! i with
      | Some (awaiting_post packet attempt rest analyzer) =>
          match outcome with
          | None =>
              match record_success analyzer packet d with
              | (None, d) => returns i packet true d s
              | (Some _, d) => retries i packet attempt rest d s
              end
          | Some (HTTPStatusError status_code) =>
              if (400 <=? status_code) && (status_code <? 500)
              then returns i packet false (record_failure d) s
              else retries i packet attempt rest d s
          | Some _ => retries i packet attempt rest d s
          end
      | _ => (silent, s)
      end
  | monitor_updates analyzer_name is_healthy =>
      (silent,
       {| app_state :=
            {| packet_queue := packet_queue app;
               unfinished_tasks := unfinished_tasks app;
               the_distributor := update_analyzer_health analyzer_name is_healthy d;
               outbox := outbox app |};
          workers := workers s |})
  end.

(** A schedule: the observations, in order, and the state reached. *)
Fixpoint steps (acts : list Action) (s : System)
    : list Observation * System :=
  match acts with
  | [] => ([], s)
  | act :: acts =>
      let '(o, s) := step act s in
      let '(os, s) := steps acts s in
      (o :: os, s)
  end.

(** The service when [lifespan] yields: the state of
    [lifespan_startup] and [NUM_WORKERS] workers, all waiting. *)
Definition boot (ANALYZERS : list Analyzer) : System :=
  {| app_state := lifespan_startup settings ANALYZERS;
     workers := replicate (Z.to_nat (NUM_WORKERS settings)) waiting_for_packet |}.

(** The step that worker [i] takes next when it holds a packet and the
    world of its call is [env]. *)
Definition next_action (env : Env) (i : nat) (s : System) : option Action :=
  match workers s !! i with
  | Some (at_loop_head _ []) => Some (worker_resumes i 0)
  | Some (at_loop_head _ (attempt :: _)) =>
      Some (worker_resumes i (uniform env attempt))
  | Some (awaiting_post packet attempt _ analyzer) =>
      Some (post_returns i (post env attempt analyzer packet))
  | _ => None
  end.

(** Worker [i] running alone until it waits for a packet again, for at
    most [fuel] steps. *)
Fixpoint run_alone (fuel : nat) (env : Env) (i : nat) (s : System) : System :=
  match fuel with
  | O => s
  | S fuel =>
      match next_action env i s with
      | Some act => run_alone fuel env i (snd (step act s))
      | None => s
      end
  end.
End workers.

(** *** GET /health *)

Inductive ZeroDivisionError := division_by_zero.

(** One entry of ["analyzer_details"]. *)
Record AnalyzerDetail := {
  detail_name : string;
  detail_weight : float;
  detail_is_healthy : bool;
  detail_packets_received : Z;
  detail_messages_received : Z
}.

(** The JSON object of /health; ["analyzers"] is flattened into its three
    counts. *)
Record HealthReport := {
  report_status : string;
  report_queue_size : Z;
  report_queue_utilization : string;
  report_total_packets_received : Z;
  report_total_messages_received : Z;
  report_failed_sends : Z;
  report_analyzers_total : Z;
  report_analyzers_healthy : Z;
  report_analyzers_unhealthy : Z;
  report_analyzer_details : list AnalyzerDetail
}.

Section health_check.
(** [format_percent a b] is [f"{a / b:.1%}"] for [b ≠ 0]: Python's true
    division and its percent format are taken as given. *)
Variable format_percent : Z → Z → string.
Variable settings : Settings.

(** [health_check].  [ANALYZERS] is the list object the distributor was
    built from, so it shows the flags the distributor holds; the division
    by [MAX_QUEUE_SIZE] raises ZeroDivisionError when the bound is 0. *)
Definition health_check (app : App) : ZeroDivisionError + HealthReport :=
  let stats := get_stats (the_distributor app) in
  let healthy_analyzers := get_healthy_analyzers (the_distributor app) in
  let ANALYZERS := analyzers (the_distributor app) in
  let queue_size := qsize (packet_queue app) in
  if MAX_QUEUE_SIZE settings =? 0 then inl division_by_zero
  else
    inr {| report_status := "healthy";
           report_queue_size := queue_size;
           report_queue_utilization :=
             format_percent queue_size (MAX_QUEUE_SIZE settings);
           report_total_packets_received := total_packets_received stats;
           report_total_messages_received := total_messages_received stats;
           report_failed_sends := failed_sends stats;
           report_analyzers_total := len ANALYZERS;
           report_analyzers_healthy := len healthy_analyzers;
           report_analyzers_unhealthy := len ANALYZERS - len healthy_analyzers;
           report_analyzer_details :=
             map (λ a,
                    {| detail_name := name a;
                       detail_weight := weight a;
                       detail_is_healthy := is_healthy a;
                       detail_packets_received :=
                         default 0 (packets_per_analyzer stats !! name a);
                       detail_messages_received :=
                         default 0 (messages_per_analyzer stats !! name a) |})
                 ANALYZERS |}.
End health_check.

End service.

(* ================================================================== *)
(** ** distributor/distributor.py: the delay of a backoff wait *)
(* ================================================================== *)

Module backoff_delay.
Import distributor.

(** [delay = retry_delay * (2 ** attempt)].  [2 ** attempt] is an [int];
    multiplying a [float] by it converts it to the [float] of the same
    value, which for [0 <= attempt < 1024] is the power of two itself,
    and the product is one binary64 multiplication.  From
    [attempt = 1024] on the conversion raises (see
    [distributor.backoff]) and there is no delay. *)
Definition delay (retry_delay : float) (attempt : Z) : float :=
  PrimFloat.mul retry_delay (Z.ldexp 1 attempt).


End backoff_delay.

(* ================================================================== *)
(** ** distributor/config.py: the environment as text *)
(* ================================================================== *)

Module config_text.
Import config.

(** What leaves [get_analyzers] when it does not return: the ValueError
    of [float()] on a text that is no number, or the ValidationError of
    [Analyzer(...)]. *)
Inductive Error :=
| ValueError (text : string)
| Validation (e : ValidationError).

Section get_analyzers.
Variable py_sum : list float → float.

(** Python's [float()] on a [str]: the number it denotes ([nan] and
    [inf] included), [None] for the ValueError.  Reading decimal text is
    the interpreter's work and is taken as given. *)
Variable py_float : string → option float.

(** The environment: [getenv k] is [os.getenv(k)], [None] for a variable
    that is not set. *)
Variable getenv : string → option string.

(** One entry of the list literal: [os.getenv(url_key, url_default)],
    then [float(os.getenv(weight_key, weight_default))], then
    [Analyzer(name=.., url=.., weight=..)]. *)
Definition entry (name url_key url_default weight_key weight_default : string)
    : Error + Analyzer :=
  let url := default url_default (getenv url_key) in
  let text := default weight_default (getenv weight_key) in
  match py_float text with
  | None => inl (ValueError text)
  | Some weight =>
      match Analyzer_init name url weight true with
      | inl e => inl (Validation e)
      | inr analyzer => inr analyzer
      end
  end.

(** [get_analyzers], the entries built in the order of the list. *)
Definition get_analyzers : Error + (list Analyzer * list LogRecord) :=
  let? a1 := entry "analyzer-1" "ANALYZER_1_URL" "http://analyzer-1:8001/analyze"
               "ANALYZER_1_WEIGHT" "0.4" in
  let? a2 := entry "analyzer-2" "ANALYZER_2_URL" "http://analyzer-2:8002/analyze"
               "ANALYZER_2_WEIGHT" "0.3" in
  let? a3 := entry "analyzer-3" "ANALYZER_3_URL" "http://analyzer-3:8003/analyze"
               "ANALYZER_3_WEIGHT" "0.2" in
  let? a4 := entry "analyzer-4" "ANALYZER_4_URL" "http://analyzer-4:8004/analyze"
               "ANALYZER_4_WEIGHT" "0.1" in
  let analyzers := [a1; a2; a3; a4] in
  (* Validate weights sum to approximately 1.0 *)
  let total_weight := py_sum (map weight analyzers) in
  if negb (PrimFloat.leb 0.99 total_weight && PrimFloat.leb total_weight 1.01)
  then inr (analyzers, [weights_sum_warning total_weight])
  else inr (analyzers, []).

(** The environment with its numbers read, as [config.get_analyzers]
    takes it. *)
Definition parsed : Environ :=
  {| config.getenv := getenv;
     config.getenv_float := λ key, getenv key ≫= py_float |}.
End get_analyzers.

End config_text.
(* ================================================================== *)
(** ** Vocabulary of the statements *)
(* ================================================================== *)

Import distributor.

(** The healthy analyzers, in configured order. *)
Definition healthy (d : LogDistributor) : list Analyzer :=
  List.filter is_healthy (analyzers d).

(** The cumulative weight of the first [k] entries of [H], added from
    zero in list order: for [k = S i] this is the cumulative weight up to
    and including the entry at index [i]. *)
Definition cumulative (H : list Analyzer) (k : nat) : float :=
  fold_left PrimFloat.add (map weight (take k H)) 0%float.

(** Every configured analyzer has its two per-analyzer counters. *)
Definition keys_ok (d : LogDistributor) : Prop :=
  ∀ a, a ∈ analyzers d →
    is_Some (packets_per_analyzer (stats d) !! name a)
    ∧ is_Some (messages_per_analyzer (stats d) !! name a).

(** The sum of the values of a per-analyzer dict. *)
Definition dict_sum (m : gmap string Z) : Z :=
  map_fold (λ _ v acc, v + acc) 0 m.

(** The invariant of the statistics ledger: the total is the sum of the
    per-analyzer counts, and both dicts have the configured names as keys. *)
Definition ledger_inv (d : LogDistributor) : Prop :=
  total_packets_received (stats d) = dict_sum (packets_per_analyzer (stats d))
  ∧ dom (packets_per_analyzer (stats d)) = list_to_set (name <$> analyzers d)
  ∧ dom (messages_per_analyzer (stats d)) = list_to_set (name <$> analyzers d).

(** The per-analyzer counts read analyzer by analyzer, the way the
    /health endpoint does it: [m.get(a.name, 0)] for each configured [a]. *)
Definition per_analyzer_total (m : gmap string Z) (l : list Analyzer) : Z :=
  foldr (λ a acc, default 0 (m !! name a) + acc) 0 l.

(** A call that marks the analyzer named [n] healthy. *)
Definition marks_healthy (n : string) (c : Call) : bool :=
  match c with
  | call_update_analyzer_health analyzer_name is_healthy =>
      bool_decide (analyzer_name = n) && is_healthy
  | _ => false
  end.

(** The POSTs among the events of a call. *)
Definition is_post (e : Event) : bool :=
  match e with EvPost _ _ => true | EvSleep _ _ => false end.

Definition posts (es : list Event) : list Event := List.filter is_post es.

(** The ledger after the failure section: one more failed send. *)
Definition stats_after_failure (st : DistributorStats) : DistributorStats :=
  {| total_packets_received := total_packets_received st;
     total_messages_received := total_messages_received st;
     packets_per_analyzer := packets_per_analyzer st;
     messages_per_analyzer := messages_per_analyzer st;
     failed_sends := failed_sends st + 1 |}.

(** The ledger after a packet of [n] messages was delivered to the
    analyzer named [k], whose counters stood at [c] packets and [m]
    messages. *)
Definition stats_after_success (k : string) (c m n : Z) (st : DistributorStats)
    : DistributorStats :=
  {| total_packets_received := total_packets_received st + 1;
     total_messages_received := total_messages_received st + n;
     packets_per_analyzer := <[k := c + 1]> (packets_per_analyzer st);
     messages_per_analyzer := <[k := m + n]> (messages_per_analyzer st);
     failed_sends := failed_sends st |}.

(** The outcome classes of one attempt, as the worker loop of the
    specification lists them: no analyzer available, a 2xx response, a
    4xx response, and the retry-eligible rest (5xx, timeout, connect
    error, any other exception). *)
Inductive Verdict :=
| no_analyzer
| accepted (analyzer : Analyzer)
| rejected (analyzer : Analyzer) (status_code : Z)
| retry_eligible (analyzer : Analyzer) (e : Exn).

Definition is_4xx (status_code : Z) : bool :=
  (400 <=? status_code) && (status_code <? 500).

Definition is_5xx (status_code : Z) : bool :=
  (500 <=? status_code) && (status_code <? 600).

(** The backoff after attempt [attempt] is due and its delay cannot be
    computed: [2 ** attempt] is beyond the range of [float]. *)
Definition overflows (max_retries attempt : Z) : bool :=
  (attempt <? max_retries) && (1024 <=? attempt).

Definition is_retry (v : Verdict) : bool :=
  match v with retry_eligible _ _ => true | _ => false end.

Section verdict.
Variable py_sum : list float → float.
Variable env : Env.
Variable packet : LogPacket.

(** The class of attempt [attempt] when the registry is [d]. *)
Definition verdict (d : LogDistributor) (attempt : Z) : Verdict :=
  match _select_analyzer py_sum d (uniform env attempt) with
  | None => no_analyzer
  | Some analyzer =>
      match post env attempt analyzer packet with
      | None => accepted analyzer
      | Some (HTTPStatusError status_code) =>
          if is_4xx status_code then rejected analyzer status_code
          else retry_eligible analyzer (HTTPStatusError status_code)
      | Some e => retry_eligible analyzer e
      end
  end.

(** What a retry-eligible attempt leaves on the wire when its backoff
    can be computed: its POST, and the wait when a retry remains. *)
Definition retry_events (max_retries : Z) (retry_delay : float)
    (d : LogDistributor) (attempt : Z) : list Event :=
  match verdict d attempt with
  | retry_eligible analyzer _ =>
      EvPost (url analyzer) (packet_id packet)
        :: (if attempt <? max_retries then [EvSleep retry_delay attempt] else [])
  | _ => []
  end.

(** How a call ends at its first attempt [k] that is not retry-eligible:
    without an analyzer, rejected with a 4xx status, or delivered. *)
Definition decided_at (max_retries : Z) (retry_delay : float) (w : World)
    (k : Z) : Prop :=
  let d := dist w in
  let call := distribute py_sum env packet max_retries retry_delay in
  let before := wire w ++ flat_map (retry_events max_retries retry_delay d) (range k) in
  (verdict d k = no_analyzer
   ∧ call w =
       (inr false,
        {| dist := with_stats (stats_after_failure (stats d)) d;
           wire := before |}))
  ∨ (∃ a c, verdict d k = rejected a c
      ∧ call w =
          (inr false,
           {| dist := with_stats (stats_after_failure (stats d)) d;
              wire := before ++ [EvPost (url a) (packet_id packet)] |}))
  ∨ (∃ a c m, verdict d k = accepted a
      ∧ a ∈ analyzers d
      ∧ packets_per_analyzer (stats d) !! name a = Some c
      ∧ messages_per_analyzer (stats d) !! name a = Some m
      ∧ call w =
          (inr true,
           {| dist :=
                with_stats
                  (stats_after_success (name a) c m (len (messages packet))
                     (stats d)) d;
              wire := before ++ [EvPost (url a) (packet_id packet)] |})).
End verdict.

(** The exceptions the retry policy names as retry-eligible: a 5xx
    status, a timeout, a connect error, or any other exception. *)
Definition retry_eligible_exn (e : Exn) : bool :=
  match e with
  | HTTPStatusError status_code => is_5xx status_code
  | _ => true
  end.

(** One POST per attempt, each to the analyzer that the selection of
    that attempt returned. *)
Definition selected_posts (py_sum : list float → float) (env : Env)
    (packet : LogPacket) (d : LogDistributor) (attempts : list Z) : list Event :=
  flat_map
    (λ attempt,
       match _select_analyzer py_sum d (uniform env attempt) with
       | Some analyzer => [EvPost (url analyzer) (packet_id packet)]
       | None => []
       end)
    attempts.

(** A path segment: a string without ['/']. *)
Fixpoint has_slash (s : string) : bool :=
  match s with
  | EmptyString => false
  | String c s' => Ascii.eqb c "/"%char || has_slash s'
  end.

(** The bounds pydantic enforces on [Analyzer.weight]. *)
Definition weight_in_bounds (w : float) : bool :=
  PrimFloat.leb 0 w && PrimFloat.leb w 1.

(** The weight [get_analyzers] reads for the given variable. *)
Definition configured_weight (environ : config.Environ) (key : string)
    (fallback : float) : float :=
  default fallback (config.getenv_float environ key).

(** *** A sample deployment, for the concrete runs below *)

Definition analyzer_1 : Analyzer :=
  {| name := "analyzer-1"; url := "http://analyzer-1:8001/analyze";
     weight := 0.4; is_healthy := true |}.
Definition analyzer_2 : Analyzer :=
  {| name := "analyzer-2"; url := "http://analyzer-2:8002/analyze";
     weight := 0.3; is_healthy := true |}.
Definition analyzer_3 : Analyzer :=
  {| name := "analyzer-3"; url := "http://analyzer-3:8003/analyze";
     weight := 0.2; is_healthy := true |}.
Definition analyzer_4 : Analyzer :=
  {| name := "analyzer-4"; url := "http://analyzer-4:8004/analyze";
     weight := 0.1; is_healthy := true |}.

Definition sample_distributor : LogDistributor :=
  __init__ [analyzer_1; analyzer_2; analyzer_3; analyzer_4] 5.

Definition sample_message : LogMessage :=
  {| timestamp := "2025-11-24T10:30:00Z"; level := ERROR;
     source := "payment-service"; message := "Payment timeout";
     metadata := [("order_id", "12345")] |}.

Definition sample_packet : LogPacket :=
  {| packet_id := "packet-001"; messages := [sample_message; sample_message];
     agent_id := "agent-us-west-1" |}.

(** A downstream that answers every POST the same way, and a random
    source that always returns the same draw. *)
Definition constant_env (rand : float) (answer : option Exn) : Env :=
  {| uniform := λ _, rand; post := λ _ _ _, answer |}.


(** An environment that sets nothing, and one that sets a single weight. *)
Definition empty_environ : config.Environ :=
  {| config.getenv := λ _, None; config.getenv_float := λ _, None |}.

Definition environ_with_weight (key : string) (w : float) : config.Environ :=
  {| config.getenv := λ _, None;
     config.getenv_float := λ k, if decide (k = key) then Some w else None |}.

Definition sample_queue (bound : Z) (items : list LogPacket) : main.Queue :=
  {| main.maxsize := bound; main._queue := items |}.

(** *** Further vocabulary *)

(** An analyzer entry with its health flag replaced. *)
Definition with_health (b : bool) (a : Analyzer) : Analyzer :=
  {| name := name a; url := url a; weight := weight a; is_healthy := b |}.

(** The backoff waits among the events of a call. *)
Definition sleeps (es : list Event) : list Event :=
  List.filter (λ e, negb (is_post e)) es.

(** The packets a distributor has accounted for: delivered or failed. *)
Definition accounted (d : LogDistributor) : Z :=
  total_packets_received (stats d) + failed_sends (stats d).

(** The calls of [distribute] among a list of calls, and their retry
    counts. *)
Definition is_distribute (c : Call) : bool :=
  match c with call_distribute _ _ _ _ => true | _ => false end.

Definition retries_of (c : Call) : Z :=
  match c with call_distribute _ _ max_retries _ => max_retries | _ => 0 end.

(** The status codes of a list of answers. *)
Definition status_code_of (r : main.HandlerResult) : Z :=
  match r with
  | main.Returned status_code _ => status_code
  | main.HTTPException status_code _ => status_code
  end.

(** Offering packets one after the other to a queue that nobody reads:
    the status codes answered and the queue left. *)
Fixpoint offer_all (ps : list LogPacket) (q : main.Queue)
    : list Z * main.Queue :=
  match ps with
  | [] => ([], q)
  | p :: ps =>
      let '(answer, q) := main.ingest_log_packet p q in
      let '(codes, q) := offer_all ps q in
      (status_code_of answer :: codes, q)
  end.

(** The free slots of a queue; [None] for a queue without bound. *)
Definition free_slots (q : main.Queue) : option nat :=
  if main.maxsize q <=? 0 then None
  else Some (Z.to_nat (main.maxsize q - main.qsize q)).

(** The four weights [get_analyzers] reads, in order. *)
Definition configured_weights (environ : config.Environ) : list float :=
  [configured_weight environ "ANALYZER_1_WEIGHT" 0.4;
   configured_weight environ "ANALYZER_2_WEIGHT" 0.3;
   configured_weight environ "ANALYZER_3_WEIGHT" 0.2;
   configured_weight environ "ANALYZER_4_WEIGHT" 0.1].

(** A registry with one analyzer up, for the concrete runs. *)
Definition lone_survivor : LogDistributor :=
  update_analyzer_health "analyzer-1" false
    (update_analyzer_health "analyzer-2" false
       (update_analyzer_health "analyzer-4" false sample_distributor)).

Definition sample_settings : service.Settings :=
  {| service.NUM_WORKERS := 10; service.MAX_QUEUE_SIZE := 2;
     service.ANALYZER_TIMEOUT := 5; service.MAX_RETRIES := 2;
     service.RETRY_DELAY := 0.5 |}.

(** A monitor client that finds every analyzer down, and one that finds
    every analyzer up. *)
Definition all_down : string → health_monitor.GetResult :=
  λ _, health_monitor.GetConnectError.

Definition all_up : string → health_monitor.GetResult :=
  λ _, health_monitor.Response 200.

(** An event that [distribute] may put on the wire for [packet] when
    the registry is [d]: a wait, or a POST of this packet to the URL of
    an analyzer that is configured and healthy. *)
Definition sent_to_healthy (d : LogDistributor) (packet : LogPacket)
    (e : Event) : Prop :=
  match e with
  | EvPost u p =>
      p = packet_id packet
      ∧ ∃ a, a ∈ analyzers d ∧ is_healthy a = true ∧ u = url a
  | EvSleep _ _ => True
  end.


(** No counter of the ledger is negative. *)
Definition counters_nonneg (st : DistributorStats) : Prop :=
  0 ≤ total_packets_received st
  ∧ 0 ≤ total_messages_received st
  ∧ 0 ≤ failed_sends st
  ∧ map_Forall (λ _ v, 0 ≤ v) (packets_per_analyzer st)
  ∧ map_Forall (λ _ v, 0 ≤ v) (messages_per_analyzer st).

(** An entry after a round of probes: its flag is what its own probe
    returned. *)
Definition probed (client : string → health_monitor.GetResult) (a : Analyzer)
    : Analyzer :=
  with_health (health_monitor._check_analyzer_health client a) a.

(** Python's ["/".join(parts)]. *)
Fixpoint join_slash (parts : list string) : string :=
  match parts with
  | [] => EmptyString
  | [s] => s
  | s :: rest => s +:+ String "/" (join_slash rest)
  end.

(** Python's [sum] of a list of [int]. *)
Definition sum_Z (l : list Z) : Z := foldr Z.add 0 l.

(** *** Vocabulary of the schedules of the service *)

(** A worker that holds a packet. *)
Definition busy (w : service.Worker) : bool :=
  match w with service.waiting_for_packet => false | _ => true end.

(** The number of packets in the hands of the workers. *)
Definition in_flight (s : service.System) : Z :=
  len (List.filter busy (service.workers s)).

Definition queued (s : service.System) : list LogPacket :=
  main._queue (service.packet_queue (service.app_state s)).

Definition ledger (s : service.System) : DistributorStats :=
  stats (service.the_distributor (service.app_state s)).

(** The packets that /ingest accepted, the packets the workers took and
    the packets whose call of [distribute] ended in an exception, each
    in the order of the observations. *)
Definition accepted_packets (os : list service.Observation) : list LogPacket :=
  flat_map (λ o, match o with
                 | service.answered packet (main.Returned _ _) => [packet]
                 | _ => []
                 end) os.

Definition taken_packets (os : list service.Observation) : list LogPacket :=
  flat_map (λ o, match o with service.took _ packet => [packet] | _ => [] end) os.

Definition raised_packets (os : list service.Observation) : list LogPacket :=
  flat_map (λ o, match o with service.raised _ packet _ => [packet] | _ => [] end) os.

Definition is_task_done_failed (o : service.Observation) : bool :=
  match o with service.task_done_failed _ _ => true | _ => false end.

Definition is_503 (o : service.Observation) : bool :=
  match o with
  | service.answered _ (main.HTTPException _ _) => true
  | _ => false
  end.

(** The analyzer of a POST in flight is a configured one, by name. *)
Definition holds_configured (d : LogDistributor) (w : service.Worker) : Prop :=
  match w with
  | service.awaiting_post _ _ _ analyzer => name analyzer ∈ name <$> analyzers d
  | _ => True
  end.

(** The states of the service the proofs move in: a reachable
    distributor, POSTs in flight to configured analyzers, and a count of
    unfinished tasks that covers the queue and the packets in flight. *)
Definition consistent (s : service.System) : Prop :=
  reachable (service.the_distributor (service.app_state s))
  ∧ Forall (holds_configured (service.the_distributor (service.app_state s)))
      (service.workers s)
  ∧ main.qsize (service.packet_queue (service.app_state s)) + in_flight s
    ≤ service.unfinished_tasks (service.app_state s).

(** [messages: List[LogMessage] = Field(..., min_items=1)]: the packet
    of a call has passed the validation of its messages. *)
Definition min_items_ok (c : Call) : bool :=
  match c with
  | call_distribute _ packet _ _ => 1 <=? len (messages packet)
  | _ => true
  end.

(** Settings with the bound of the queue switched off. *)
Definition unbounded_settings : service.Settings :=
  {| service.NUM_WORKERS := 2; service.MAX_QUEUE_SIZE := 0;
     service.ANALYZER_TIMEOUT := 5; service.MAX_RETRIES := 2;
     service.RETRY_DELAY := 0.5 |}.

(** A stand-in for the percent format of /health in the concrete runs. *)
Definition ratio_text (a b : Z) : string := pretty a +:+ "/" +:+ pretty b.

(** The sample service after one accepted request. *)
Definition sample_system : service.System :=
  snd (service.step sum_left_to_right sample_settings
         (service.request_ingest sample_packet)
         (service.boot sample_settings (analyzers sample_distributor))).

(** What a schedule that shows [os] does to a state [s] of the service,
    in terms of the quantities the properties of the schedules speak
    of. *)
Definition schedule_effect (settings : service.Settings) (s : service.System)
    (os : list service.Observation) (s' : service.System) : Prop :=
  let the_queue := λ s, service.packet_queue (service.app_state s) in
  let the_dist := λ s, service.the_distributor (service.app_state s) in
  consistent s'
  ∧ Forall (λ o, is_task_done_failed o = false) os
  ∧ accounted (the_dist s') + main.qsize (the_queue s') + in_flight s'
      + len (raised_packets os)
    = accounted (the_dist s) + main.qsize (the_queue s) + in_flight s
      + len (accepted_packets os)
  ∧ service.unfinished_tasks (service.app_state s')
      - (main.qsize (the_queue s') + in_flight s')
    = service.unfinished_tasks (service.app_state s)
      - (main.qsize (the_queue s) + in_flight s)
      + len (raised_packets os)
  ∧ (raised_packets os ≠ [] → 1024 < service.MAX_RETRIES settings)
  ∧ queued s ++ accepted_packets os = taken_packets os ++ queued s'
  ∧ main.maxsize (the_queue s') = main.maxsize (the_queue s)
  ∧ (0 < main.maxsize (the_queue s) →
     main.qsize (the_queue s) ≤ main.maxsize (the_queue s) →
     main.qsize (the_queue s') ≤ main.maxsize (the_queue s))
  ∧ (main.maxsize (the_queue s) ≤ 0 → Forall (λ o, is_503 o = false) os)
  ∧ name <$> analyzers (the_dist s') = name <$> analyzers (the_dist s)
  ∧ length (service.workers s') = length (service.workers s).

(** The attempts a worker may still start for the packet it holds. *)
Definition attempts_left (w : service.Worker) : Z :=
  match w with
  | service.waiting_for_packet => 0
  | service.at_loop_head _ attempts => len attempts
  | service.awaiting_post _ _ rest _ => len rest
  end.

Definition attempts_left_total (s : service.System) : Z :=
  sum_Z (attempts_left <$> service.workers s).

(** A wait, or a POST to the URL of a configured analyzer. *)
Definition to_configured (d : LogDistributor) (e : Event) : Prop :=
  match e with
  | EvPost u _ => u ∈ url <$> analyzers d
  | EvSleep _ _ => True
  end.

(** What one step may add to the traffic of the service: a POST is
    paid for by an attempt of the worker that issues it, and a worker
    gets [budget] attempts with the packet it takes. *)
Definition traffic_effect (budget : Z) (s : service.System)
    (os : list service.Observation) (s' : service.System) : Prop :=
  let the_dist := λ s, service.the_distributor (service.app_state s) in
  let the_outbox := λ s, service.outbox (service.app_state s) in
  len (posts (the_outbox s')) + attempts_left_total s'
  ≤ len (posts (the_outbox s)) + attempts_left_total s
    + budget * len (taken_packets os)
  ∧ url <$> analyzers (the_dist s') = url <$> analyzers (the_dist s)
  ∧ (Forall (to_configured (the_dist s)) (the_outbox s) →
     Forall (to_configured (the_dist s')) (the_outbox s')).


(** The four weight texts [get_analyzers] hands to [float()], in order. *)
Definition weight_texts (getenv : string → option string) : list string :=
  [default "0.4" (getenv "ANALYZER_1_WEIGHT");
   default "0.3" (getenv "ANALYZER_2_WEIGHT");
   default "0.2" (getenv "ANALYZER_3_WEIGHT");
   default "0.1" (getenv "ANALYZER_4_WEIGHT")].

(** A weight text that gives an entry: it reads as a number within the
    bounds. *)
Definition weight_text_ok (py_float : string → option float) (text : string)
    : Prop :=
  ∃ w, py_float text = Some w ∧ weight_in_bounds w = true.

(** The error a weight text raises: no number; a number that is not at
    most 1 (a NaN among them); a number that is at most 1 and not at
    least 0. *)
Definition weight_text_raises (py_float : string → option float)
    (text : string) (e : config_text.Error) : Prop :=
  (py_float text = None ∧ e = config_text.ValueError text)
  ∨ (∃ w, py_float text = Some w ∧ PrimFloat.leb w 1 = false
          ∧ e = config_text.Validation (less_than_equal "weight"))
  ∨ (∃ w, py_float text = Some w ∧ PrimFloat.leb w 1 = true
          ∧ PrimFloat.leb 0 w = false
          ∧ e = config_text.Validation (greater_than_equal "weight")).

(** A reading of decimal text for the concrete runs: the four default
    texts and three others. *)
Definition sample_float (text : string) : option float :=
  if decide (text = "0.4") then Some 0.4%float
  else if decide (text = "0.3") then Some 0.3%float
  else if decide (text = "0.2") then Some 0.2%float
  else if decide (text = "0.1") then Some 0.1%float
  else if decide (text = "1.5") then Some 1.5%float
  else if decide (text = "-0.5") then Some (-0.5)%float
  else if decide (text = "nan") then Some nan
  else None.

Definition environ_with_text (key text : string) : string → option string :=
  λ k, if decide (k = key) then Some text else None.

(** The sample distributor after three deliveries (two to analyzer-2,
    one to analyzer-1), the loss of analyzer-3 and one rejected packet;
    and the application around it, one packet waiting. *)
Definition busy_distributor : LogDistributor :=
  run_all sum_left_to_right
    [call_distribute (constant_env 0.55 None) sample_packet 2 0.5;
     call_distribute (constant_env 0.1 None) sample_packet 2 0.5;
     call_distribute (constant_env 0.55 None) sample_packet 2 0.5;
     call_update_analyzer_health "analyzer-3" false;
     call_distribute (constant_env 0.55 (Some (HTTPStatusError 404)))
       sample_packet 2 0.5]
    sample_distributor.

Definition busy_app : service.App :=
  {| service.packet_queue := sample_queue 2 [sample_packet];
     service.unfinished_tasks := 1;
     service.the_distributor := busy_distributor;
     service.outbox := [] |}.
(* ================================================================== *)
(** ** The weighted selector *)
(* ================================================================== *)

Section selector.
Variable py_sum : list float → float.

(** The accumulator of the walk, started at [c], after [k] entries. *)
Let running (c : float) (hs : list Analyzer) (k : nat) : float :=
  fold_left PrimFloat.add (map weight (take k hs)) c.

Lemma walk_Some r c hs h :
  walk r c hs = Some h →
  ∃ i, hs !! i = Some h
       ∧ PrimFloat.ltb r (running c hs (S i)) = true
       ∧ ∀ j, (j < i)%nat → PrimFloat.ltb r (running c hs (S j)) = false.
Proof.
  revert c. induction hs as [|a rest IH]; intros c Hw; [discriminate|].
  cbn [walk] in Hw.
  destruct (PrimFloat.ltb r (PrimFloat.add c (weight a))) eqn:Hlt.
  - injection Hw as <-. exists 0%nat. repeat split; [exact Hlt|]. lia.
  - destruct (IH _ Hw) as (i & Hi & Hhit & Hmiss).
    exists (S i). repeat split; [exact Hi|exact Hhit|].
    intros [|j] Hj; [exact Hlt|]. apply Hmiss. lia.
Qed.

Lemma walk_None r c hs :
  walk r c hs = None →
  ∀ j, (j < length hs)%nat → PrimFloat.ltb r (running c hs (S j)) = false.
Proof.
  revert c. induction hs as [|a rest IH]; intros c Hw j Hj; [cbn in Hj; lia|].
  cbn [walk] in Hw.
  destruct (PrimFloat.ltb r (PrimFloat.add c (weight a))) eqn:Hlt; [discriminate|].
  destruct j as [|j]; [exact Hlt|].
  apply (IH _ Hw). cbn in Hj. lia.
Qed.

(** C1.  The selector is the weighted-random algorithm of the
    specification.  With [H] the healthy analyzers in configured order
    and [W] their total weight: the result is [None] exactly when [H]
    is empty or [W == 0]; otherwise it is the first entry of [H] whose
    cumulative weight (up to and including it) is strictly above the
    draw [r], and the last entry of [H] when no cumulative weight is
    above [r]. *)
Theorem select_analyzer_weighted_random (d : LogDistributor) (r : float) :
  let H := healthy d in
  let W := py_sum (map weight H) in
  match _select_analyzer py_sum d r with
  | None => H = [] ∨ PrimFloat.eqb W 0 = true
  | Some h =>
      H ≠ [] ∧ PrimFloat.eqb W 0 = false
      ∧ ((∃ i, H !! i = Some h
               ∧ PrimFloat.ltb r (cumulative H (S i)) = true
               ∧ ∀ j, (j < i)%nat → PrimFloat.ltb r (cumulative H (S j)) = false)
         ∨ ((∀ j, (j < length H)%nat → PrimFloat.ltb r (cumulative H (S j)) = false)
            ∧ last H = Some h))
  end.
Proof.
  cbv zeta. unfold _select_analyzer, healthy.
  destruct (List.filter is_healthy (analyzers d)) as [|a0 H'] eqn:EH; [by left|].
  destruct (PrimFloat.eqb _ 0) eqn:EW; [by right|].
  destruct (walk r 0 (a0 :: H')) as [h|] eqn:Ewalk.
  - split; [done|]. split; [done|]. left. by apply walk_Some.
  - pose proof (walk_None _ _ _ Ewalk) as Hnone.
    destruct (last (a0 :: H')) as [h|] eqn:Elast.
    + split; [done|]. split; [done|]. right. by split.
    + apply last_None in Elast. discriminate.
Qed.
End selector.

(* ================================================================== *)
(** ** Attempt numbers *)
(* ================================================================== *)

Lemma range_lookup (n : Z) (i : nat) :
  (i < Z.to_nat n)%nat → range n !! i = Some (Z.of_nat i).
Proof.
  intros Hi. unfold range. rewrite list_lookup_fmap.
  rewrite lookup_seq_lt by done. reflexivity.
Qed.

Lemma elem_of_range (n j : Z) : j ∈ range n ↔ 0 ≤ j < n.
Proof.
  unfold range. rewrite list_elem_of_fmap. split.
  - intros (i & -> & Hi). apply elem_of_seq in Hi. lia.
  - intros Hj. exists (Z.to_nat j). split; [lia|]. apply elem_of_seq. lia.
Qed.

Lemma length_range (n : Z) : length (range n) = Z.to_nat n.
Proof. unfold range. by rewrite length_map, length_seq. Qed.

(** The attempts before [k], then [k], then the retries that remain. *)
Lemma range_split (n k : Z) :
  0 ≤ k < n → ∃ rest, range n = range k ++ k :: rest.
Proof.
  intros Hk. unfold range.
  replace (Z.to_nat n) with (Z.to_nat k + S (Z.to_nat (n - k - 1)))%nat by lia.
  rewrite seq_app, map_app. cbn [seq map].
  rewrite Nat.add_0_l, Z2Nat.id by lia. eauto.
Qed.

(** A bounded search: every attempt below [n] passes the test, or there
    is a first one that fails it. *)
Lemma first_failing (f : Z → bool) (n : nat) :
  (∀ j, 0 ≤ j < Z.of_nat n → f j = true)
  ∨ ∃ k, 0 ≤ k < Z.of_nat n ∧ f k = false ∧ ∀ j, 0 ≤ j < k → f j = true.
Proof.
  induction n as [|n [IH | (k & Hk & Hfk & Hbelow)]].
  - left. lia.
  - destruct (f (Z.of_nat n)) eqn:Hn.
    + left. intros j Hj. destruct (decide (j = Z.of_nat n)) as [->|]; [done|].
      apply IH. lia.
    + right. exists (Z.of_nat n). split; [lia|]. split; [done|].
      intros j Hj. apply IH. lia.
  - right. exists k. split; [lia|]. done.
Qed.

(* ================================================================== *)
(** ** The critical sections *)
(* ================================================================== *)

Lemma analyzers_record_failure d : analyzers (record_failure d) = analyzers d.
Proof. reflexivity. Qed.

Lemma analyzers_record_success a p d :
  analyzers (snd (record_success a p d)) = analyzers d.
Proof.
  unfold record_success.
  destruct (packets_per_analyzer (stats d) !! name a);
    [destruct (messages_per_analyzer (stats d) !! name a)|]; reflexivity.
Qed.

Lemma set_health_names n b l : name <$> set_health n b l = name <$> l.
Proof.
  induction l as [|a l IH]; [done|]. cbn [set_health].
  destruct (decide (name a = n)); cbn; [done|]. by rewrite IH.
Qed.

(** With its counters in place the success section runs to its end. *)
Lemma record_success_keys_ok a p d :
  keys_ok d → a ∈ analyzers d →
  ∃ c m,
    packets_per_analyzer (stats d) !! name a = Some c
    ∧ messages_per_analyzer (stats d) !! name a = Some m
    ∧ record_success a p d =
        (None,
         with_stats
           {| total_packets_received := total_packets_received (stats d) + 1;
              total_messages_received :=
                total_messages_received (stats d) + len (messages p);
              packets_per_analyzer :=
                <[name a := c + 1]> (packets_per_analyzer (stats d));
              messages_per_analyzer :=
                <[name a := m + len (messages p)]> (messages_per_analyzer (stats d));
              failed_sends := failed_sends (stats d) |} d).
Proof.
  intros Hk Ha. destruct (Hk a Ha) as [[c Hc] [m Hm]].
  exists c, m. unfold record_success. by rewrite Hc, Hm.
Qed.

(* ================================================================== *)
(** ** What the selector can return *)
(* ================================================================== *)

Lemma walk_elem_of r c hs h : walk r c hs = Some h → h ∈ hs.
Proof.
  revert c. induction hs as [|a rest IH]; intros c Hw; [discriminate|].
  cbn [walk] in Hw.
  destruct (PrimFloat.ltb r (PrimFloat.add c (weight a))).
  - injection Hw as <-. left.
  - right. by eapply IH.
Qed.

Lemma elem_of_healthy d a :
  a ∈ healthy d ↔ a ∈ analyzers d ∧ is_healthy a = true.
Proof. unfold healthy. rewrite !list_elem_of_In. apply filter_In. Qed.

Lemma select_analyzer_healthy py_sum d r a :
  _select_analyzer py_sum d r = Some a →
  a ∈ analyzers d ∧ is_healthy a = true.
Proof.
  intros Hsel. apply elem_of_healthy. unfold healthy.
  unfold _select_analyzer in Hsel.
  destruct (List.filter is_healthy (analyzers d)) as [|a0 H'] eqn:EH; [discriminate|].
  destruct (PrimFloat.eqb _ 0); [discriminate|].
  destruct (walk r 0 (a0 :: H')) as [h|] eqn:Ewalk.
  - injection Hsel as <-. by eapply walk_elem_of.
  - apply last_Some in Hsel as [l' ->]. set_solver.
Qed.

(** Whether the selector has an analyzer to offer does not depend on the
    draw. *)
Lemma select_analyzer_None_draw py_sum d r r' :
  _select_analyzer py_sum d r = None → _select_analyzer py_sum d r' = None.
Proof.
  unfold _select_analyzer.
  destruct (List.filter is_healthy (analyzers d)) as [|a0 H'] eqn:EH; [done|].
  destruct (PrimFloat.eqb _ 0); [done|].
  destruct (walk r 0 (a0 :: H')); [done|].
  intros Hlast. apply last_None in Hlast. discriminate.
Qed.

(* ================================================================== *)
(** ** One turn of the retry loop *)
(* ================================================================== *)

Section worker.
Variable py_sum : list float → float.
Variable env : Env.
Variable packet : LogPacket.
Variable max_retries : Z.
Variable retry_delay : float.

Local Abbreviation loop := (distribute_loop py_sum env packet max_retries retry_delay).
Local Abbreviation verdict_at := (verdict py_sum env packet).
Local Abbreviation events_at := (retry_events py_sum env packet max_retries retry_delay).

Lemma verdict_analyzer d k :
  match verdict_at d k with
  | no_analyzer => True
  | accepted a | rejected a _ | retry_eligible a _ =>
      a ∈ analyzers d ∧ is_healthy a = true
  end.
Proof.
  unfold verdict.
  destruct (_select_analyzer py_sum d (uniform env k)) as [a|] eqn:Hsel; [|done].
  apply select_analyzer_healthy in Hsel.
  destruct (post env k a packet) as [[]|]; try done.
  by destruct (is_4xx _).
Qed.

Lemma loop_no_analyzer k rest w :
  verdict_at (dist w) k = no_analyzer →
  loop (k :: rest) w = (inr false, with_dist (record_failure (dist w)) w).
Proof.
  unfold verdict. cbn [distribute_loop]. cbv zeta.
  destruct (_select_analyzer py_sum (dist w) (uniform env k)) as [a|]; [|done].
  destruct (post env k a packet) as [[]|]; try done. by destruct (is_4xx _).
Qed.

Lemma loop_rejected k rest w a c :
  verdict_at (dist w) k = rejected a c →
  loop (k :: rest) w =
    (inr false, {| dist := record_failure (dist w);
                   wire := wire w ++ [EvPost (url a) (packet_id packet)] |}).
Proof.
  unfold verdict. cbn [distribute_loop]. cbv zeta. unfold _send_to_analyzer.
  destruct (_select_analyzer py_sum (dist w) (uniform env k)) as [a'|]; [|done].
  destruct (post env k a' packet) as [[]|]; try done.
  unfold is_4xx. destruct (_ && _); [|done]. by intros [= -> ->].
Qed.

(** A retry-eligible attempt whose backoff can be computed hands over to
    the next attempt. *)
Lemma loop_retry k rest w a e :
  verdict_at (dist w) k = retry_eligible a e →
  overflows max_retries k = false →
  loop (k :: rest) w =
    loop rest {| dist := dist w; wire := wire w ++ events_at (dist w) k |}.
Proof.
  intros Hv Hov. unfold retry_events. rewrite Hv. revert Hv.
  assert (backoff k max_retries retry_delay
            (emit (EvPost (url a) (packet_id packet)) w)
          = inr {| dist := dist w;
                   wire := wire w
                           ++ EvPost (url a) (packet_id packet)
                              :: (if k <? max_retries
                                  then [EvSleep retry_delay k] else []) |})
    as Hback.
  { unfold backoff, overflows, emit in *. destruct (k <? max_retries); cbn in *.
    - rewrite Hov. cbn. by rewrite <- app_assoc.
    - done. }
  unfold verdict. cbn [distribute_loop]. cbv zeta. unfold _send_to_analyzer.
  destruct (_select_analyzer py_sum (dist w) (uniform env k)) as [a'|]; [|done].
  destruct (post env k a' packet) as [[]|]; try done;
    try (intros [= -> _]; by rewrite Hback).
  unfold is_4xx. destruct (_ && _); [done|].
  intros [= -> _]. by rewrite Hback.
Qed.

(** A retry-eligible attempt whose backoff cannot be computed ends the
    call with the OverflowError, after its POST and before any wait. *)
Lemma loop_overflow k rest w a e :
  verdict_at (dist w) k = retry_eligible a e →
  overflows max_retries k = true →
  loop (k :: rest) w =
    (inl OverflowError,
     {| dist := dist w;
        wire := wire w ++ [EvPost (url a) (packet_id packet)] |}).
Proof.
  intros Hv Hov. revert Hv.
  assert (backoff k max_retries retry_delay
            (emit (EvPost (url a) (packet_id packet)) w)
          = inl OverflowError) as Hback.
  { unfold backoff, overflows in *.
    apply andb_true_iff in Hov as [-> ->]. done. }
  unfold verdict. cbn [distribute_loop]. cbv zeta. unfold _send_to_analyzer.
  destruct (_select_analyzer py_sum (dist w) (uniform env k)) as [a'|]; [|done].
  destruct (post env k a' packet) as [[]|]; try done;
    try (intros [= -> _]; by rewrite Hback).
  unfold is_4xx. destruct (_ && _); [done|].
  intros [= -> _]. by rewrite Hback.
Qed.

Lemma loop_accepted k rest w a d' :
  verdict_at (dist w) k = accepted a →
  record_success a packet (dist w) = (None, d') →
  loop (k :: rest) w =
    (inr true, {| dist := d';
                  wire := wire w ++ [EvPost (url a) (packet_id packet)] |}).
Proof.
  unfold verdict. cbn [distribute_loop]. cbv zeta. unfold _send_to_analyzer.
  destruct (_select_analyzer py_sum (dist w) (uniform env k)) as [a'|]; [|done].
  destruct (post env k a' packet) as [[]|]; try done.
  - by destruct (is_4xx _).
  - intros [= ->]. cbn [emit dist wire]. by intros ->.
Qed.

(** A run of retry-eligible attempts leaves the distributor as it was
    and adds the events of those attempts to the wire. *)
Lemma loop_retries pre rest w :
  Forall (λ j, is_retry (verdict_at (dist w) j) = true) pre →
  Forall (λ j, overflows max_retries j = false) pre →
  loop (pre ++ rest) w =
    loop rest {| dist := dist w;
                 wire := wire w ++ flat_map (events_at (dist w)) pre |}.
Proof.
  revert w. induction pre as [|k pre IH]; intros w Hall Hov.
  - cbn. rewrite app_nil_r. by destruct w.
  - apply Forall_cons in Hall as [Hk Hall]. apply Forall_cons in Hov as [Hok Hov].
    destruct (verdict_at (dist w) k) as [| | |a e] eqn:Hv; try discriminate.
    cbn [app]. rewrite (loop_retry _ _ _ _ _ Hv Hok), IH by done.
    cbn [dist wire flat_map]. by rewrite app_assoc.
Qed.

(** Each retry-eligible attempt issued exactly one POST. *)
Lemma posts_retries d pre :
  Forall (λ j, is_retry (verdict_at d j) = true) pre →
  length (posts (flat_map (events_at d) pre)) = length pre.
Proof.
  induction 1 as [|k pre Hk _ IH]; [done|].
  cbn [flat_map]. unfold posts in *. rewrite List.filter_app, length_app, IH.
  unfold retry_events.
  destruct (verdict_at d k); try discriminate.
  by destruct (k <? max_retries).
Qed.

Lemma Forall_range_retry d (k : Z) :
  (∀ j, 0 ≤ j < k → is_retry (verdict_at d j) = true) →
  Forall (λ j, is_retry (verdict_at d j) = true) (range k).
Proof. intros H. apply Forall_forall. intros j Hj%elem_of_range. auto. Qed.

(** Below attempt 1024 every backoff can be computed. *)
Lemma Forall_range_no_overflow (k : Z) :
  k ≤ 1024 → Forall (λ j, overflows max_retries j = false) (range k).
Proof.
  intros Hk. apply Forall_forall. intros j Hj%elem_of_range.
  unfold overflows. lia.
Qed.

(** The call is decided by its first attempt that is not retry-eligible;
    the attempts before it only wrote to the wire. *)
Lemma distribute_decided (w : World) (k : Z) :
  0 ≤ k ≤ max_retries → k ≤ 1024 →
  (∀ j, 0 ≤ j < k → is_retry (verdict_at (dist w) j) = true) →
  ∃ rest,
    distribute py_sum env packet max_retries retry_delay w =
      loop (k :: rest)
        {| dist := dist w;
           wire := wire w ++ flat_map (events_at (dist w)) (range k) |}.
Proof.
  intros Hk Hk' Hpre.
  destruct (range_split (max_retries + 1) k) as [rest Hsplit]; [lia|].
  exists rest. unfold distribute. rewrite Hsplit.
  apply loop_retries;
    [by apply Forall_range_retry|by apply Forall_range_no_overflow].
Qed.

Lemma distribute_exhausted (w : World) :
  max_retries ≤ 1024 →
  (∀ j, 0 ≤ j ≤ max_retries → is_retry (verdict_at (dist w) j) = true) →
  distribute py_sum env packet max_retries retry_delay w =
    (inr false,
     {| dist := record_failure (dist w);
        wire := wire w
                ++ flat_map (events_at (dist w)) (range (max_retries + 1)) |}).
Proof.
  intros Hbound Hall. unfold distribute.
  rewrite <- (app_nil_r (range (max_retries + 1))) at 1.
  rewrite loop_retries; [done| |].
  - apply Forall_range_retry. intros j Hj. apply Hall. lia.
  - apply Forall_forall. intros j Hj%elem_of_range. unfold overflows. lia.
Qed.

(** [distribute] never touches the registry. *)
Lemma distribute_loop_analyzers attempts w :
  analyzers (dist (snd (loop attempts w))) = analyzers (dist w).
Proof.
  revert w. induction attempts as [|k rest IH]; intros w; [done|].
  assert (∀ w', analyzers (dist w') = analyzers (dist w) →
            analyzers (dist (snd
              match backoff k max_retries retry_delay w' with
              | inl e => (inl e, w')
              | inr w'' => loop rest w''
              end)) = analyzers (dist w)) as Hretry.
  { intros w' Hw'. unfold backoff.
    destruct (k <? max_retries); [destruct (1024 <=? k)|];
      cbn [snd]; rewrite ?IH; done. }
  cbn [distribute_loop]. cbv zeta. unfold _send_to_analyzer.
  destruct (_select_analyzer py_sum (dist w) (uniform env k)) as [a|]; [|done].
  destruct (post env k a packet) as [[]|]; try by apply Hretry.
  - destruct (_ && _); [done|]. by apply Hretry.
  - cbn [emit dist].
    pose proof (analyzers_record_success a packet (dist w)) as Hrs.
    destruct (record_success a packet (dist w)) as [[e|] d'] eqn:E; cbn in Hrs.
    + by apply Hretry.
    + done.
Qed.

End worker.

(* ================================================================== *)
(** ** Sums over a per-analyzer dict *)
(* ================================================================== *)

Lemma dict_sum_empty : dict_sum ∅ = 0.
Proof. unfold dict_sum. by rewrite map_fold_empty. Qed.

Lemma dict_sum_delete (m : gmap string Z) k c :
  m !! k = Some c → dict_sum m = c + dict_sum (delete k m).
Proof.
  intros Hk. unfold dict_sum.
  apply (map_fold_delete_L (λ _ v acc, v + acc) 0 k c m); [|done].
  intros. lia.
Qed.

Lemma dict_sum_insert_fresh (m : gmap string Z) k v :
  m !! k = None → dict_sum (<[k := v]> m) = v + dict_sum m.
Proof.
  intros Hk. unfold dict_sum.
  apply (map_fold_insert_L (λ _ v acc, v + acc) 0 k v m); [|done].
  intros. lia.
Qed.

(** Overwriting the counter of [k] moves the sum by the difference. *)
Lemma dict_sum_insert (m : gmap string Z) k c v :
  m !! k = Some c → dict_sum (<[k := v]> m) = dict_sum m - c + v.
Proof.
  intros Hk. rewrite (dict_sum_delete m k c Hk).
  rewrite <- (insert_delete_eq m k v).
  rewrite dict_sum_insert_fresh by apply lookup_delete_eq. lia.
Qed.

(** With distinct keys that cover the dict, reading it key by key gives
    the sum of its values. *)
Lemma dict_sum_per_key (l : list Analyzer) (m : gmap string Z) :
  NoDup (name <$> l) → dom m = list_to_set (name <$> l) →
  dict_sum m = per_analyzer_total m l.
Proof.
  revert m. induction l as [|a l IH]; intros m Hnd Hdom.
  - cbn in Hdom. apply dom_empty_inv_L in Hdom as ->. apply dict_sum_empty.
  - cbn in Hnd, Hdom. apply NoDup_cons in Hnd as [Hfresh Hnd].
    assert (is_Some (m !! name a)) as [c Hc].
    { apply elem_of_dom. rewrite Hdom. set_solver. }
    cbn [per_analyzer_total foldr]. rewrite Hc. cbn [default].
    rewrite (dict_sum_delete m _ c Hc). f_equal.
    rewrite (IH (delete (name a) m) Hnd).
    + clear -Hfresh. induction l as [|b l IHl]; [done|].
      cbn in Hfresh. apply not_elem_of_cons in Hfresh as [Hne Hfresh].
      cbn [per_analyzer_total foldr].
      rewrite lookup_delete_ne by done. f_equal. by apply IHl.
    + rewrite dom_delete_L, Hdom. set_solver.
Qed.

(* ================================================================== *)
(** ** The invariant of the statistics ledger *)
(* ================================================================== *)

(** The loop of [__init__] leaves a zero under every configured name and
    adds no other key. *)
Lemma init_stats_packets l st :
  dict_sum (packets_per_analyzer st) = 0 →
  (∀ k v, packets_per_analyzer st !! k = Some v → v = 0) →
  let st' := fold_left init_analyzer_stats l st in
  dict_sum (packets_per_analyzer st') = 0
  ∧ (∀ k v, packets_per_analyzer st' !! k = Some v → v = 0)
  ∧ dom (packets_per_analyzer st')
    = dom (packets_per_analyzer st) ∪ list_to_set (name <$> l)
  ∧ dom (messages_per_analyzer st')
    = dom (messages_per_analyzer st) ∪ list_to_set (name <$> l)
  ∧ total_packets_received st' = total_packets_received st
  ∧ failed_sends st' = failed_sends st.
Proof.
  revert st. induction l as [|a l IH]; intros st Hsum Hzero; cbn zeta.
  - cbn. repeat split; try done; set_solver.
  - cbn [fold_left].
    destruct (IH (init_analyzer_stats st a)) as (H1 & H2 & H3 & H4 & H5 & H6).
    + cbn. destruct (packets_per_analyzer st !! name a) as [c|] eqn:Hc.
      * rewrite (dict_sum_insert _ _ c) by done. rewrite (Hzero _ _ Hc). lia.
      * rewrite dict_sum_insert_fresh by done. lia.
    + cbn. intros k v. rewrite lookup_insert. case_decide; [congruence|].
      apply Hzero.
    + repeat split; try done.
      * rewrite H3. cbn. rewrite dom_insert_L. set_solver.
      * rewrite H4. cbn. rewrite dom_insert_L. set_solver.
Qed.

Lemma init_packets_zero l timeout a :
  a ∈ l →
  packets_per_analyzer (stats (__init__ l timeout)) !! name a = Some 0.
Proof.
  intros Ha. cbn [__init__ stats].
  destruct (init_stats_packets l DistributorStats_default)
    as (_ & Hzero & Hdom & _); [apply dict_sum_empty|by intros ??|].
  assert (is_Some (packets_per_analyzer
            (fold_left init_analyzer_stats l DistributorStats_default) !! name a))
    as [v Hv].
  { apply elem_of_dom. rewrite Hdom. apply elem_of_union_r.
    apply elem_of_list_to_set, list_elem_of_fmap. eauto. }
  by rewrite Hv, (Hzero _ _ Hv).
Qed.

Lemma ledger_inv_keys_ok d : ledger_inv d → keys_ok d.
Proof.
  intros (_ & Hp & Hm) a Ha.
  assert (name a ∈ (list_to_set (name <$> analyzers d) : gset string)).
  { apply elem_of_list_to_set, list_elem_of_fmap. eauto. }
  split; apply elem_of_dom; by rewrite ?Hp, ?Hm.
Qed.

Lemma ledger_inv_init l timeout : ledger_inv (__init__ l timeout).
Proof.
  destruct (init_stats_packets l DistributorStats_default)
    as (Hsum & _ & Hp & Hm & Htot & _); [apply dict_sum_empty|by intros ??|].
  unfold ledger_inv. cbn [__init__ stats analyzers].
  rewrite Htot, Hsum, Hp, Hm. cbn. repeat split; set_solver.
Qed.

Lemma ledger_inv_success a p d :
  ledger_inv d → name a ∈ name <$> analyzers d →
  ledger_inv (snd (record_success a p d)).
Proof.
  intros (Htot & Hp & Hm) Ha.
  assert (name a ∈ (list_to_set (name <$> analyzers d) : gset string)) as Hin
    by by apply elem_of_list_to_set.
  assert (is_Some (packets_per_analyzer (stats d) !! name a)) as [c Hc]
    by (apply elem_of_dom; by rewrite Hp).
  assert (is_Some (messages_per_analyzer (stats d) !! name a)) as [m Hmsg]
    by (apply elem_of_dom; by rewrite Hm).
  unfold record_success. rewrite Hc, Hmsg. unfold ledger_inv. cbn.
  rewrite (dict_sum_insert _ _ c) by done. rewrite !dom_insert_L, Hp, Hm.
  repeat split; [lia|set_solver|set_solver].
Qed.

Lemma ledger_inv_health n b d :
  ledger_inv d → ledger_inv (update_analyzer_health n b d).
Proof.
  unfold ledger_inv. cbn. by rewrite set_health_names.
Qed.

Lemma reachable_ledger_inv d : reachable d → ledger_inv d.
Proof.
  induction 1 as [l t|d a p _ IH Ha|d _ IH|d n b _ IH].
  - apply ledger_inv_init.
  - by apply ledger_inv_success.
  - exact IH.
  - by apply ledger_inv_health.
Qed.

Lemma reachable_keys_ok d : reachable d → keys_ok d.
Proof. intros. by apply ledger_inv_keys_ok, reachable_ledger_inv. Qed.


(* ================================================================== *)
(** ** Health flags *)
(* ================================================================== *)

Lemma elem_of_set_health n b l a :
  a ∈ set_health n b l → a ∈ l ∨ (name a = n ∧ is_healthy a = b).
Proof.
  induction l as [|a0 l IH]; cbn [set_health]; [by left|].
  destruct (decide (name a0 = n)) as [Heq|Hne].
  - intros [->|Ha]%elem_of_cons; [by right|]. left. by right.
  - intros [->|Ha]%elem_of_cons; [left; by left|].
    destruct (IH Ha) as [?|?]; [left; by right|by right].
Qed.

(** With distinct names, marking [n] unhealthy leaves no healthy entry
    named [n]. *)
Lemma set_health_false_all n l a :
  NoDup (name <$> l) →
  a ∈ set_health n false l → name a = n → is_healthy a = false.
Proof.
  induction l as [|a0 l IH]; cbn [set_health]; [by intros _ ?%elem_of_nil|].
  cbn. intros [Hfresh Hnd]%NoDup_cons.
  destruct (decide (name a0 = n)) as [Heq|Hne].
  - intros [->|Ha]%elem_of_cons; [done|]. intros Hn. exfalso. apply Hfresh.
    rewrite Heq, <- Hn. apply list_elem_of_fmap. eauto.
  - intros [->|Ha]%elem_of_cons; [done|]. by apply IH.
Qed.

Section registry.
Variable py_sum : list float → float.

(** Only [update_analyzer_health] writes to the registry. *)
Lemma run_analyzers c d :
  is_health_update c = false → analyzers (run py_sum c d) = analyzers d.
Proof.
  destruct c; cbn; try done. intros _. unfold distribute.
  apply (distribute_loop_analyzers py_sum env packet max_retries retry_delay
           _ {| dist := d; wire := [] |}).
Qed.

(** No entry named [n] is healthy. *)
Let down (n : string) (d : LogDistributor) : Prop :=
  ∀ a, a ∈ analyzers d → name a = n → is_healthy a = false.

Lemma down_run n c d :
  marks_healthy n c = false → down n d → down n (run py_sum c d).
Proof.
  intros Hc Hd. destruct (is_health_update c) eqn:Hupd.
  - destruct c as [| n' b | |]; try discriminate. cbn in Hc |- *.
    intros a Ha Hn. cbn in Ha.
    destruct (elem_of_set_health _ _ _ _ Ha) as [Hin|[Hn' Hb]]; [by apply Hd|].
    rewrite Hb. destruct b; [|done].
    rewrite andb_true_r in Hc. apply bool_decide_eq_false in Hc. congruence.
  - unfold down. by rewrite run_analyzers.
Qed.

Lemma down_run_all n cs d :
  Forall (λ c, marks_healthy n c = false) cs →
  down n d → down n (run_all py_sum cs d).
Proof.
  intros Hcs. revert d. unfold run_all.
  induction Hcs as [|c cs Hc _ IH]; intros d Hd; [done|].
  cbn [fold_left]. apply IH. by apply down_run.
Qed.

(** C2.  An analyzer whose [is_healthy] flag is false when the selector
    runs is never returned; no call other than [update_analyzer_health]
    changes a flag; and once the analyzer named [n] has been marked
    unhealthy, no selection returns it for as long as no call marks [n]
    healthy again (names being distinct, as configured). *)
Theorem unhealthy_analyzer_never_selected (d : LogDistributor) :
  (∀ r a, a ∈ analyzers d → is_healthy a = false →
          _select_analyzer py_sum d r ≠ Some a)
  ∧ (∀ c, is_health_update c = false → analyzers (run py_sum c d) = analyzers d)
  ∧ (∀ n cs r a,
       NoDup (name <$> analyzers d) →
       Forall (λ c, marks_healthy n c = false) cs →
       _select_analyzer py_sum
         (run_all py_sum cs (update_analyzer_health n false d)) r = Some a →
       name a ≠ n).
Proof.
  split; [|split].
  - intros r a _ Hdown Hsel. apply select_analyzer_healthy in Hsel as [_ Hup].
    congruence.
  - intros c. apply run_analyzers.
  - intros n cs r a Hnd Hcs Hsel Hn.
    apply select_analyzer_healthy in Hsel as [Hin Hup].
    assert (down n (update_analyzer_health n false d)) as Hdown.
    { intros a' Ha'. cbn in Ha'. by apply (set_health_false_all n (analyzers d)). }
    pose proof (down_run_all n cs _ Hcs Hdown a Hin Hn). congruence.
Qed.

(** A whole call of [distribute] is a sequence of critical sections: it
    takes reachable states to reachable states. *)
Lemma distribute_loop_reachable env packet max_retries retry_delay attempts w :
  reachable (dist w) →
  reachable (dist (snd (distribute_loop py_sum env packet max_retries
                          retry_delay attempts w))).
Proof.
  revert w. induction attempts as [|k rest IH]; intros w Hw.
  - cbn. by apply reachable_failure.
  - assert (∀ w', reachable (dist w') →
              reachable (dist (snd
                match backoff k max_retries retry_delay w' with
                | inl e => (inl e, w')
                | inr w'' =>
                    distribute_loop py_sum env packet max_retries retry_delay
                      rest w''
                end))) as Hretry.
    { intros w' Hw'. unfold backoff.
      destruct (k <? max_retries); [destruct (1024 <=? k)|];
        cbn [snd]; try done; by apply IH. }
    cbn [distribute_loop]. cbv zeta. unfold _send_to_analyzer.
    destruct (_select_analyzer py_sum (dist w) (uniform env k)) as [a|] eqn:Hsel;
      [|by apply reachable_failure].
    apply select_analyzer_healthy in Hsel as [Hin _].
    destruct (post env k a packet) as [[]|]; try by apply Hretry.
    + destruct (_ && _); [by apply reachable_failure|]. by apply Hretry.
    + cbn [emit dist].
      assert (reachable (snd (record_success a packet (dist w)))) as Hrs.
      { apply reachable_success; [done|]. apply list_elem_of_fmap. eauto. }
      destruct (record_success a packet (dist w)) as [[e|] d']; cbn in Hrs.
      * by apply Hretry.
      * done.
Qed.

Lemma run_reachable c d : reachable d → reachable (run py_sum c d).
Proof.
  intros Hd. destruct c; cbn; try done.
  - unfold distribute. by apply distribute_loop_reachable.
  - by apply reachable_health.
Qed.

End registry.

(* ================================================================== *)
(** ** The outcome of a call of [distribute] *)
(* ================================================================== *)

Section outcome.
Variable py_sum : list float → float.
Variable env : Env.
Variable packet : LogPacket.
Variable max_retries : Z.
Variable retry_delay : float.

Local Abbreviation verdict_at := (verdict py_sum env packet).
Local Abbreviation events_at := (retry_events py_sum env packet max_retries retry_delay).
Local Abbreviation call := (distribute py_sum env packet max_retries retry_delay).

Lemma posts_app es1 es2 : posts (es1 ++ es2) = posts es1 ++ posts es2.
Proof. apply List.filter_app. Qed.

Lemma posts_retry_events d pre :
  Forall (λ j, is_retry (verdict_at d j) = true) pre →
  posts (flat_map (events_at d) pre) = selected_posts py_sum env packet d pre.
Proof.
  induction 1 as [|k pre Hk _ IH]; [done|].
  unfold selected_posts in *. cbn [flat_map]. rewrite posts_app, IH. f_equal.
  unfold retry_events. revert Hk. unfold verdict.
  destruct (_select_analyzer py_sum d (uniform env k)) as [a|]; [|done].
  destruct (post env k a packet) as [[]|]; try done;
    try (intros _; by destruct (k <? max_retries)).
  destruct (is_4xx _); [done|]. intros _. by destruct (k <? max_retries).
Qed.

Lemma length_selected_posts d pre :
  Forall (λ j, is_retry (verdict_at d j) = true) pre →
  length (selected_posts py_sum env packet d pre) = length pre.
Proof.
  intros Hall. rewrite <- posts_retry_events by done. by apply posts_retries.
Qed.

Lemma distribute_decided_at (w : World) (k : Z) :
  keys_ok (dist w) →
  0 ≤ k ≤ max_retries → k ≤ 1024 →
  (∀ j, 0 ≤ j < k → is_retry (verdict_at (dist w) j) = true) →
  is_retry (verdict_at (dist w) k) = false →
  decided_at py_sum env packet max_retries retry_delay w k.
Proof.
  intros Hkeys Hk Hk' Hbelow Hfk. unfold decided_at. cbv zeta.
  destruct (distribute_decided py_sum env packet max_retries retry_delay w k)
    as [rest ->]; [done..|].
  set (w1 := {| dist := dist w; wire := _ |}).
  pose proof (verdict_analyzer py_sum env packet (dist w) k) as Hin.
  destruct (verdict_at (dist w) k) as [|a|a c|a e] eqn:Hv; [| | |discriminate].
  - left. split; [done|]. by rewrite (loop_no_analyzer _ _ _ _ _ _ rest w1).
  - right; right. destruct Hin as [Hin _].
    destruct (record_success_keys_ok a packet (dist w) Hkeys Hin)
      as (c & m & Hc & Hm & Hrs).
    exists a, c, m. repeat (split; [done|]).
    by rewrite (loop_accepted _ _ _ _ _ _ rest w1 a _ Hv Hrs).
  - right; left. exists a, c. split; [done|].
    by rewrite (loop_rejected _ _ _ _ _ _ rest w1 a c Hv).
Qed.

(** The ways a call can end.  The first attempt that is not
    retry-eligible decides.  When there is none, the retries are
    exhausted if [max_retries] is at most 1024; beyond that the backoff
    of attempt 1024 raises before the retries run out. *)
Lemma distribute_cases (w : World) :
  keys_ok (dist w) →
  let d := dist w in
  (max_retries ≤ 1024
   ∧ (∀ j, 0 ≤ j ≤ max_retries → is_retry (verdict_at d j) = true)
   ∧ call w =
       (inr false,
        {| dist := with_stats (stats_after_failure (stats d)) d;
           wire := wire w ++ flat_map (events_at d) (range (max_retries + 1)) |}))
  ∨ (1024 < max_retries
     ∧ (∀ j, 0 ≤ j ≤ 1024 → is_retry (verdict_at d j) = true)
     ∧ ∃ es, call w = (inl OverflowError, {| dist := d; wire := es |}))
  ∨ ∃ k, 0 ≤ k ≤ max_retries
      ∧ (∀ j, 0 ≤ j < k → is_retry (verdict_at d j) = true)
      ∧ decided_at py_sum env packet max_retries retry_delay w k.
Proof.
  intros Hkeys d. destruct (decide (max_retries ≤ 1024)) as [Hsmall|Hbig].
  - destruct (first_failing (λ j, is_retry (verdict_at d j))
                (Z.to_nat (max_retries + 1))) as [Hall|(k & Hk & Hfk & Hbelow)].
    + left. assert (∀ j, 0 ≤ j ≤ max_retries → is_retry (verdict_at d j) = true)
        as Hall' by (intros j Hj; apply Hall; lia).
      split; [done|]. split; [done|]. by apply distribute_exhausted.
    + right; right. exists k. split; [lia|]. split; [done|].
      apply distribute_decided_at; [done|lia|lia|done|done].
  - destruct (first_failing (λ j, is_retry (verdict_at d j)) 1025)
      as [Hall|(k & Hk & Hfk & Hbelow)].
    + right; left. split; [lia|].
      assert (∀ j, 0 ≤ j ≤ 1024 → is_retry (verdict_at d j) = true)
        as Hall' by (intros j Hj; apply Hall; lia).
      split; [done|].
      destruct (distribute_decided py_sum env packet max_retries retry_delay
                  w 1024) as [rest ->]; [lia|lia|intros j Hj; apply Hall'; lia|].
      specialize (Hall' 1024 ltac:(lia)).
      destruct (verdict_at d 1024) as [| | |a e] eqn:Hv; try discriminate.
      set (w1 := {| dist := dist w; wire := _ |}).
      rewrite (loop_overflow _ _ _ _ _ 1024 rest w1 a e Hv);
        [by eexists|unfold overflows; lia].
    + right; right. exists k. split; [lia|]. split; [done|].
      apply distribute_decided_at; [done|lia|lia|done|done].
Qed.

End outcome.

(* ================================================================== *)
(** ** Retry policy and statistics of [distribute] *)
(* ================================================================== *)

Lemma range_succ (k : Z) : 0 ≤ k → range (k + 1) = range k ++ [k].
Proof.
  intros Hk. unfold range.
  replace (Z.to_nat (k + 1)) with (S (Z.to_nat k)) by lia.
  rewrite seq_S, map_app. cbn. by rewrite Z2Nat.id.
Qed.

Lemma is_5xx_not_4xx c : is_5xx c = true → is_4xx c = false.
Proof. unfold is_5xx, is_4xx. lia. Qed.

Section retry_policy.
Variable py_sum : list float → float.

(** The verdicts in terms of what the selector and the POST did. *)
Lemma verdict_no_analyzer env packet d k :
  verdict py_sum env packet d k = no_analyzer
  ↔ _select_analyzer py_sum d (uniform env k) = None.
Proof.
  unfold verdict.
  destruct (_select_analyzer py_sum d (uniform env k)) as [a|]; [|done].
  destruct (post env k a packet) as [[]|]; try done. by destruct (is_4xx _).
Qed.

Lemma verdict_rejected env packet d k a c :
  verdict py_sum env packet d k = rejected a c
  ↔ _select_analyzer py_sum d (uniform env k) = Some a
    ∧ post env k a packet = Some (HTTPStatusError c)
    ∧ 400 ≤ c < 500.
Proof.
  unfold verdict.
  destruct (_select_analyzer py_sum d (uniform env k)) as [a'|];
    [|split; [done|by intros [? _]]].
  destruct (post env k a' packet) as [[| |c'| | |]|] eqn:Hpost;
    try (split; [done|intros ([= ->] & Hp & _); congruence]).
  unfold is_4xx. destruct (_ && _) eqn:H4.
  - split.
    + intros [= -> ->]. repeat split; [done|lia..].
    + intros ([= ->] & Hp & _). congruence.
  - split; [done|]. intros ([= ->] & Hp & Hc).
    assert (c' = c) as -> by congruence. lia.
Qed.

Lemma verdict_retry env packet d k a e :
  _select_analyzer py_sum d (uniform env k) = Some a →
  post env k a packet = Some e →
  retry_eligible_exn e = true →
  is_retry (verdict py_sum env packet d k) = true.
Proof.
  unfold verdict. intros -> -> He. destruct e; try done.
  cbn in He. by rewrite (is_5xx_not_4xx _ He).
Qed.

(** C3, as amended.  A call changes [failed_sends] only by adding
    exactly 1 and returning False, and only in one of three situations:
    every attempt up to [max_retries] was retry-eligible (the retries are
    exhausted); or, after retry-eligible attempts only, the selector
    returned no analyzer; or, after retry-eligible attempts only, a POST
    was answered with a 4xx status. *)
Theorem failed_sends_incremented_only_on_failure env packet max_retries
    retry_delay (d : LogDistributor) :
  reachable d →
  let '(ok, w') :=
    distribute py_sum env packet max_retries retry_delay
      {| dist := d; wire := [] |} in
  failed_sends (stats (dist w')) ≠ failed_sends (stats d) →
  ok = inr false
  ∧ failed_sends (stats (dist w')) = failed_sends (stats d) + 1
  ∧ ((∀ j, 0 ≤ j ≤ max_retries →
           is_retry (verdict py_sum env packet d j) = true)
     ∨ ∃ k, 0 ≤ k ≤ max_retries
         ∧ (∀ j, 0 ≤ j < k → is_retry (verdict py_sum env packet d j) = true)
         ∧ (_select_analyzer py_sum d (uniform env k) = None
            ∨ ∃ a c, _select_analyzer py_sum d (uniform env k) = Some a
                     ∧ post env k a packet = Some (HTTPStatusError c)
                     ∧ 400 ≤ c < 500)).
Proof.
  intros Hd%reachable_keys_ok.
  destruct (distribute_cases py_sum env packet max_retries retry_delay
              {| dist := d; wire := [] |} Hd)
    as [(_ & Hall & ->)|[(_ & _ & es & ->)|(k & Hk & Hpre &
          [[Hv ->]|[(a & c & Hv & ->)|(a & c & m & Hv & _ & _ & _ & ->)]])]];
    cbn [dist] in *; cbn.
  - intros _. repeat split; [done..|]. by left.
  - done.
  - intros _. repeat split; [done..|]. right. exists k.
    repeat split; [lia..|done|]. left. by apply verdict_no_analyzer in Hv.
  - intros _. repeat split; [done..|]. right. exists k.
    repeat split; [lia..|done|]. right. exists a, c.
    by apply verdict_rejected in Hv.
  - done.
Qed.

(** C4.  When the POST of attempt [k] raises an HTTP status error with
    a 4xx code, the call ends there whatever [max_retries] leaves: it
    returns False, the POST to that analyzer is the last event of the
    call, the call issued [k + 1] POSTs in all (exactly one when the
    first attempt is the one rejected), and the ledger differs by
    exactly one more failed send.  (An attempt beyond 1024 is never
    reached, see [backoff].) *)
Theorem client_error_is_not_retried env packet max_retries retry_delay
    (d : LogDistributor) (k : Z) (a : Analyzer) (c : Z) :
  0 ≤ k ≤ max_retries → k ≤ 1024 →
  (∀ j, 0 ≤ j < k → is_retry (verdict py_sum env packet d j) = true) →
  _select_analyzer py_sum d (uniform env k) = Some a →
  post env k a packet = Some (HTTPStatusError c) →
  400 ≤ c < 500 →
  let '(ok, w') :=
    distribute py_sum env packet max_retries retry_delay
      {| dist := d; wire := [] |} in
  ok = inr false
  ∧ last (wire w') = Some (EvPost (url a) (packet_id packet))
  ∧ posts (wire w') = selected_posts py_sum env packet d (range (k + 1))
  ∧ len (posts (wire w')) = k + 1
  ∧ stats (dist w') = stats_after_failure (stats d)
  ∧ analyzers (dist w') = analyzers d.
Proof.
  intros Hk Hk' Hpre Hsel Hpost Hc.
  assert (verdict py_sum env packet d k = rejected a c) as Hv
    by by apply verdict_rejected.
  destruct (distribute_decided py_sum env packet max_retries retry_delay
              {| dist := d; wire := [] |} k Hk Hk' Hpre) as [rest ->].
  cbn [dist wire app].
  rewrite (loop_rejected _ _ _ _ _ k rest _ a c) by done. cbn [dist wire].
  pose proof (Forall_range_retry py_sum env packet d k Hpre) as Hall.
  assert (posts (flat_map (retry_events py_sum env packet max_retries
                             retry_delay d) (range k)
                 ++ [EvPost (url a) (packet_id packet)])
          = selected_posts py_sum env packet d (range (k + 1))) as Hposts.
  { rewrite posts_app, (posts_retry_events _ _ _ _ _ _ _ Hall).
    rewrite range_succ by lia. unfold selected_posts.
    rewrite flat_map_app. cbn. by rewrite Hsel. }
  split; [done|]. split; [apply last_snoc|]. split; [done|].
  split; [|done].
  rewrite posts_app, (posts_retry_events _ _ _ _ _ _ _ Hall).
  unfold len. rewrite length_app, (length_selected_posts _ _ _ max_retries retry_delay) by done.
  rewrite length_range. cbn. lia.
Qed.

(** Retries up to 1024.  When an analyzer is selected at every attempt
    and every POST fails with a retry-eligible outcome (5xx status,
    timeout, connect error or any other exception), a call with
    [max_retries = R] issues exactly [R + 1] POSTs, each to the analyzer
    of a fresh selection, then adds exactly 1 to [failed_sends] and
    returns False.  [R] is at most 1024, the last retry count whose
    backoff delays Python can compute. *)
Theorem retries_exhausted_after_all_attempts env packet (R : Z) retry_delay
    (d : LogDistributor) :
  0 ≤ R + 1 → R ≤ 1024 →
  (∀ j, 0 ≤ j ≤ R → _select_analyzer py_sum d (uniform env j) ≠ None) →
  (∀ j a, 0 ≤ j ≤ R →
     _select_analyzer py_sum d (uniform env j) = Some a →
     ∃ e, post env j a packet = Some e ∧ retry_eligible_exn e = true) →
  let '(ok, w') :=
    distribute py_sum env packet R retry_delay {| dist := d; wire := [] |} in
  ok = inr false
  ∧ len (posts (wire w')) = R + 1
  ∧ posts (wire w') = selected_posts py_sum env packet d (range (R + 1))
  ∧ stats (dist w') = stats_after_failure (stats d)
  ∧ analyzers (dist w') = analyzers d.
Proof.
  intros HR Hbound Hsel Hfail.
  assert (∀ j, 0 ≤ j ≤ R → is_retry (verdict py_sum env packet d j) = true)
    as Hall.
  { intros j Hj.
    destruct (_select_analyzer py_sum d (uniform env j)) as [a|] eqn:Ha;
      [|by destruct (Hsel j Hj)].
    destruct (Hfail j a Hj Ha) as (e & He & Hre). by eapply verdict_retry. }
  rewrite (distribute_exhausted py_sum env packet R retry_delay
             {| dist := d; wire := [] |}) by done.
  cbn [dist wire app].
  assert (Forall (λ j, is_retry (verdict py_sum env packet d j) = true)
            (range (R + 1))) as Hrange.
  { apply Forall_range_retry. intros j Hj. apply Hall. lia. }
  rewrite (posts_retry_events _ _ _ _ _ _ _ Hrange).
  split; [done|]. split; [|done].
  unfold len. rewrite (length_selected_posts _ _ _ R retry_delay) by done.
  rewrite length_range. lia.
Qed.

(** The effect of a call on the ledger, for every [max_retries]: the
    two ways in which a call that returns changes it, and the escape of
    the OverflowError, which leaves the ledger as it was and needs more
    than 1024 retries. *)
Lemma distribute_ledger_effect env packet max_retries retry_delay
    (d : LogDistributor) :
  reachable d →
  let '(ok, w') :=
    distribute py_sum env packet max_retries retry_delay
      {| dist := d; wire := [] |} in
  analyzers (dist w') = analyzers d
  ∧ match ok with
    | inr true =>
        ∃ a c m,
          a ∈ analyzers d
          ∧ packets_per_analyzer (stats d) !! name a = Some c
          ∧ messages_per_analyzer (stats d) !! name a = Some m
          ∧ stats (dist w')
            = stats_after_success (name a) c m (len (messages packet)) (stats d)
    | inr false => stats (dist w') = stats_after_failure (stats d)
    | inl e => e = OverflowError ∧ 1024 < max_retries ∧ stats (dist w') = stats d
    end.
Proof.
  intros Hd%reachable_keys_ok.
  destruct (distribute_cases py_sum env packet max_retries retry_delay
              {| dist := d; wire := [] |} Hd)
    as [(_ & Hall & ->)|[(Hbig & _ & es & ->)|(k & Hk & Hpre &
          [[Hv ->]|[(a & c & Hv & ->)|(a & c & m & Hv & Hin & Hc & Hm & ->)]])]];
    cbn; try done.
  split; [done|]. by exists a, c, m.
Qed.

(** Up to 1024 retries a call of [distribute] changes the ledger in
    exactly one of two ways.  Returning True: one configured analyzer has its packet
    count raised by 1 and its message count by the number of messages of
    the packet, the two totals are raised by the same amounts, and
    [failed_sends] is unchanged.  Returning False: [failed_sends] is
    raised by exactly 1 and nothing else changes.  In both cases the
    registry, health flags included, is what it was.  [max_retries] is
    at most 1024, the last retry count whose backoff delays Python can
    compute. *)
Theorem distribute_changes_ledger_one_of_two_ways env packet max_retries
    retry_delay (d : LogDistributor) :
  reachable d → max_retries ≤ 1024 →
  let '(ok, w') :=
    distribute py_sum env packet max_retries retry_delay
      {| dist := d; wire := [] |} in
  analyzers (dist w') = analyzers d
  ∧ ((ok = inr true
      ∧ ∃ a c m,
          a ∈ analyzers d
          ∧ packets_per_analyzer (stats d) !! name a = Some c
          ∧ messages_per_analyzer (stats d) !! name a = Some m
          ∧ stats (dist w')
            = stats_after_success (name a) c m (len (messages packet)) (stats d))
     ∨ (ok = inr false
        ∧ stats (dist w') = stats_after_failure (stats d))).
Proof.
  intros Hd Hbound.
  pose proof (distribute_ledger_effect env packet max_retries retry_delay d Hd)
    as Heffect.
  destruct (distribute py_sum env packet max_retries retry_delay
              {| dist := d; wire := [] |}) as [[e|[|]] w'].
  - destruct Heffect as (_ & _ & Hbig & _). lia.
  - destruct Heffect as [Han Hst]. split; [done|]. left. by split.
  - destruct Heffect as [Han Hst]. split; [done|]. right. by split.
Qed.

End retry_policy.

(* ================================================================== *)
(** ** The ledger of packets: where it starts and how it moves *)
(* ================================================================== *)

(** The success section on a ledger that has its keys: the total and
    the counter of the analyzer go up by one, together. *)
Lemma record_success_packets a p d :
  ledger_inv d → name a ∈ name <$> analyzers d →
  ∃ c,
    packets_per_analyzer (stats d) !! name a = Some c
    ∧ fst (record_success a p d) = None
    ∧ total_packets_received (stats (snd (record_success a p d)))
      = total_packets_received (stats d) + 1
    ∧ packets_per_analyzer (stats (snd (record_success a p d)))
      = <[name a := c + 1]> (packets_per_analyzer (stats d)).
Proof.
  intros (_ & Hp & Hm) Ha.
  assert (name a ∈ (list_to_set (name <$> analyzers d) : gset string)) as Hin
    by by apply elem_of_list_to_set.
  assert (is_Some (packets_per_analyzer (stats d) !! name a)) as [c Hc]
    by (apply elem_of_dom; by rewrite Hp).
  assert (is_Some (messages_per_analyzer (stats d) !! name a)) as [m Hmsg]
    by (apply elem_of_dom; by rewrite Hm).
  exists c. split; [done|]. unfold record_success. by rewrite Hc, Hmsg.
Qed.

(** C6.  In every reachable state of the ledger,
    [total_packets_received] is the sum of [packets_per_analyzer] over the
    configured analyzers: the dict has exactly the configured names as
    keys, its values add up to the total, and with distinct names the
    total is the sum of the counts read analyzer by analyzer.  The
    ledger gets there as follows.  [__init__] leaves the total at 0 and a
    0 under the name of every analyzer.  The success section raises the
    total by 1 and, in the same section, the counter of one analyzer by
    1, every other counter staying as it was.  The failure section
    changes neither the total nor any counter.  So does a whole call of
    [distribute]: returning True it has raised the total and the counter
    of one configured analyzer by 1; ending in any other way it has left
    the total and all counters as they were. *)
Theorem total_packets_is_per_analyzer_sum (py_sum : list float → float)
    (d : LogDistributor) :
  reachable d →
  total_packets_received (stats d) = dict_sum (packets_per_analyzer (stats d))
  ∧ dom (packets_per_analyzer (stats d)) = list_to_set (name <$> analyzers d)
  ∧ (NoDup (name <$> analyzers d) →
     total_packets_received (stats d)
     = per_analyzer_total (packets_per_analyzer (stats d)) (analyzers d))
  ∧ (∀ l t,
       total_packets_received (stats (__init__ l t)) = 0
       ∧ ∀ a, a ∈ l →
           packets_per_analyzer (stats (__init__ l t)) !! name a = Some 0)
  ∧ (∀ a p,
       name a ∈ name <$> analyzers d →
       ∃ c,
         packets_per_analyzer (stats d) !! name a = Some c
         ∧ fst (record_success a p d) = None
         ∧ total_packets_received (stats (snd (record_success a p d)))
           = total_packets_received (stats d) + 1
         ∧ packets_per_analyzer (stats (snd (record_success a p d)))
           = <[name a := c + 1]> (packets_per_analyzer (stats d)))
  ∧ (total_packets_received (stats (record_failure d))
     = total_packets_received (stats d)
     ∧ packets_per_analyzer (stats (record_failure d))
       = packets_per_analyzer (stats d))
  ∧ (∀ env packet max_retries retry_delay,
       let '(ok, w') :=
         distribute py_sum env packet max_retries retry_delay
           {| dist := d; wire := [] |} in
       match ok with
       | inr true =>
           ∃ a c,
             a ∈ analyzers d
             ∧ packets_per_analyzer (stats d) !! name a = Some c
             ∧ total_packets_received (stats (dist w'))
               = total_packets_received (stats d) + 1
             ∧ packets_per_analyzer (stats (dist w'))
               = <[name a := c + 1]> (packets_per_analyzer (stats d))
       | _ =>
           total_packets_received (stats (dist w'))
           = total_packets_received (stats d)
           ∧ packets_per_analyzer (stats (dist w'))
             = packets_per_analyzer (stats d)
       end).
Proof.
  intros Hd. pose proof (reachable_ledger_inv d Hd) as Hinv.
  destruct Hinv as (Htot & Hp & Hm).
  split; [done|]. split; [done|]. split.
  { intros Hnd. rewrite Htot. by apply dict_sum_per_key. }
  split.
  { intros l t. split; [|intros a Ha; by apply init_packets_zero].
    destruct (init_stats_packets l DistributorStats_default)
      as (_ & _ & _ & _ & Hzero & _); [apply dict_sum_empty|by intros ??|].
    exact Hzero. }
  split.
  { intros a p Ha. by apply record_success_packets. }
  split; [done|].
  intros env packet max_retries retry_delay.
  pose proof (distribute_ledger_effect py_sum env packet max_retries
                retry_delay d Hd) as Heff.
  destruct (distribute py_sum env packet max_retries retry_delay
              {| dist := d; wire := [] |}) as [[e|[|]] w'].
  - destruct Heff as (_ & _ & _ & ->). done.
  - destruct Heff as (_ & a & c & m & Ha & Hc & _ & ->).
    exists a, c. done.
  - destruct Heff as (_ & ->). done.
Qed.

(* ================================================================== *)
(** ** The health probe *)
(* ================================================================== *)

Import health_monitor.

Lemma split_last_slash_segment (s : string) :
  has_slash s = false → split_last_slash s = None.
Proof.
  induction s as [|c s IH]; [done|]. cbn.
  intros [Hc Hs]%orb_false_elim. by rewrite (IH Hs), Hc.
Qed.

(** Splitting [base/segment] at its last ['/'] gives back [base] and
    [segment]. *)
Lemma split_last_slash_app (base segment : string) :
  has_slash segment = false →
  split_last_slash (base +:+ String "/" segment) = Some (base, segment).
Proof.
  intros Hseg. induction base as [|c base IH].
  - change (EmptyString +:+ String "/" segment) with (String "/" segment).
    cbn [split_last_slash]. by rewrite (split_last_slash_segment _ Hseg).
  - change (String c base +:+ String "/" segment)
      with (String c (base +:+ String "/" segment)).
    cbn [split_last_slash]. by rewrite IH.
Qed.

Lemma health_url_total (u : string) : is_Some (health_url u).
Proof. unfold health_url, rsplit1. by destruct (split_last_slash u) as [[]|]. Qed.

(** C8.  One probe requests one URL and reports the analyzer healthy
    exactly when the answer is a response with status 200: any other
    status, a timeout, a connect error or any other exception gives
    False.  For a packet URL [base/segment] the URL requested is
    [base/health]: the final path segment is stripped and [/health]
    appended. *)
Theorem probe_healthy_iff_status_200 (client : string → GetResult)
    (analyzer : Analyzer) :
  ∃ target,
    health_url (url analyzer) = Some target
    ∧ (_check_analyzer_health client analyzer = true
       ↔ client target = Response 200)
    ∧ (∀ base segment,
         has_slash segment = false →
         url analyzer = base +:+ String "/" segment →
         target = base +:+ "/health").
Proof.
  destruct (health_url_total (url analyzer)) as [target Ht].
  exists target. split; [done|]. split.
  - unfold _check_analyzer_health. rewrite Ht.
    destruct (client target) as [status| | |]; try done.
    split.
    + intros ->%Z.eqb_eq. done.
    + intros [= ->]. done.
  - intros base segment Hseg Hurl. revert Ht.
    unfold health_url, rsplit1. rewrite Hurl, split_last_slash_app by done.
    by intros [= <-].
Qed.

(** A round of the prober is a sequence of [update_analyzer_health]
    calls: it keeps the distributor among the reachable states. *)
Lemma check_all_analyzers_reachable (client : string → GetResult)
    (d : LogDistributor) :
  reachable d → reachable (_check_all_analyzers client d).
Proof.
  unfold _check_all_analyzers.
  generalize (zip (analyzers d) (map (_check_analyzer_health client) (analyzers d))).
  intros l. revert d. induction l as [|[a b] l IH]; intros d Hd; [done|].
  cbn [fold_left]. apply IH. by apply reachable_health.
Qed.

(* ================================================================== *)
(** ** The ingress handler *)
(* ================================================================== *)

Import main.

Lemma full_iff (q : Queue) : full q = true ↔ 0 < maxsize q ≤ qsize q.
Proof. unfold full. destruct (maxsize q <=? 0) eqn:E; lia. Qed.

(** C7.  The handler is one non-waiting offer to the queue.  Run as a
    coroutine it always comes to its result, without waiting, after
    exactly one call on the queue, which is [put_nowait] of the packet:
    no call that waits is made, and nothing is offered a second time.
    When the queue is full, that is when its bound is positive and its
    size has reached it, the queue is left as it was, so the packet is
    not enqueued, and the answer is 503.  Otherwise, the queue having
    no bound or a free slot, the packet is appended behind the packets
    already queued, the size grows by one, and the answer is 202 with a
    body of [status], [packet_id] and [message].  The function
    [ingest_log_packet] gives this result and this queue. *)
Theorem ingest_offers_once (packet : LogPacket) (q : Queue) :
  let r := run_coroutine (ingest_log_packet_coroutine packet) q in
  run_calls r = [called_put_nowait packet]
  ∧ is_Some (run_result r)
  ∧ run_result r = Some (fst (ingest_log_packet packet q))
  ∧ run_queue r = snd (ingest_log_packet packet q)
  ∧ (0 < maxsize q ≤ qsize q →
     run_queue r = q
     ∧ run_result r = Some (HTTPException 503 "Queue is full, please retry later"))
  ∧ (maxsize q ≤ 0 ∨ qsize q < maxsize q →
     run_queue r = {| maxsize := maxsize q; _queue := _queue q ++ [packet] |}
     ∧ qsize (run_queue r) = qsize q + 1
     ∧ run_result r =
         Some (Returned 202
                 [("status", "accepted");
                  ("packet_id", packet_id packet);
                  ("message",
                   "Packet queued for distribution ("
                     +:+ pretty (len (messages packet)) +:+ " messages)")])).
Proof.
  cbn zeta. unfold ingest_log_packet_coroutine, ingest_log_packet.
  cbn [run_coroutine]. unfold put_nowait.
  destruct (full q) eqn:Hfull; cbn [run_coroutine run_calls run_result run_queue fst snd].
  - apply full_iff in Hfull.
    split; [done|]. split; [by eexists|]. split; [done|]. split; [done|].
    split; [done|]. intros Hroom. lia.
  - assert (¬ (0 < maxsize q ≤ qsize q)) as Hroom
      by (rewrite <- full_iff; congruence).
    split; [done|]. split; [by eexists|]. split; [done|]. split; [done|].
    split; [intros Hq; lia|]. intros _.
    split; [done|]. split; [|done].
    unfold qsize, len. cbn [_queue]. rewrite length_app. cbn [length]. lia.
Qed.

(** The bound of the queue survives every offer. *)
Lemma ingest_keeps_bound (packet : LogPacket) (q : Queue) :
  0 < maxsize q → qsize q ≤ maxsize q →
  qsize (snd (ingest_log_packet packet q)) ≤ maxsize q.
Proof.
  intros Hpos Hle. unfold ingest_log_packet, put_nowait.
  destruct (full q) eqn:Hfull; [done|]. cbn.
  assert (¬ (0 < maxsize q ≤ qsize q)) by (rewrite <- full_iff; congruence).
  unfold qsize, len in *. cbn. rewrite length_app. cbn. lia.
Qed.

(* ================================================================== *)
(** ** Building the configured analyzers *)
(* ================================================================== *)

Import config.

Lemma Analyzer_init_in_bounds n u w h :
  weight_in_bounds w = true →
  Analyzer_init n u w h
  = inr {| name := n; url := u; weight := w; is_healthy := h |}.
Proof.
  unfold weight_in_bounds, Analyzer_init.
  intros [-> ->]%andb_true_iff. reflexivity.
Qed.

Lemma Analyzer_init_out_of_bounds n u w h :
  weight_in_bounds w = false → ∃ e, Analyzer_init n u w h = inl e.
Proof.
  unfold weight_in_bounds, Analyzer_init.
  destruct (PrimFloat.leb w 1); cbn; [|eauto].
  rewrite andb_true_r. intros ->. cbn. eauto.
Qed.

(** C9, as amended.  An analyzer entry is built for every weight
    between 0.0 and 1.0, bounds included; and when the four configured
    weights are within these bounds [get_analyzers] returns the four
    entries whatever their sum: a sum outside [0.99, 1.01] adds one
    warning to the log and nothing else. *)
Theorem analyzers_built_for_weights_in_bounds (py_sum : list float → float) :
  (∀ n u w h,
     weight_in_bounds w = true →
     Analyzer_init n u w h
     = inr {| name := n; url := u; weight := w; is_healthy := h |})
  ∧ (∀ environ,
       let w1 := configured_weight environ "ANALYZER_1_WEIGHT" 0.4 in
       let w2 := configured_weight environ "ANALYZER_2_WEIGHT" 0.3 in
       let w3 := configured_weight environ "ANALYZER_3_WEIGHT" 0.2 in
       let w4 := configured_weight environ "ANALYZER_4_WEIGHT" 0.1 in
       weight_in_bounds w1 = true → weight_in_bounds w2 = true →
       weight_in_bounds w3 = true → weight_in_bounds w4 = true →
       let total_weight := py_sum [w1; w2; w3; w4] in
       ∃ analyzers,
         map name analyzers
         = ["analyzer-1"; "analyzer-2"; "analyzer-3"; "analyzer-4"]
         ∧ map weight analyzers = [w1; w2; w3; w4]
         ∧ Forall (λ a, is_healthy a = true) analyzers
         ∧ get_analyzers py_sum environ
           = inr (analyzers,
                  if PrimFloat.leb 0.99 total_weight
                     && PrimFloat.leb total_weight 1.01
                  then []
                  else [weights_sum_warning total_weight])).
Proof.
  split; [apply Analyzer_init_in_bounds|].
  intros environ w1 w2 w3 w4 H1 H2 H3 H4 total_weight.
  unfold get_analyzers.
  fold (configured_weight environ "ANALYZER_1_WEIGHT" 0.4).
  fold (configured_weight environ "ANALYZER_2_WEIGHT" 0.3).
  fold (configured_weight environ "ANALYZER_3_WEIGHT" 0.2).
  fold (configured_weight environ "ANALYZER_4_WEIGHT" 0.1).
  fold w1 w2 w3 w4.
  rewrite !Analyzer_init_in_bounds by done. cbn [map weight].
  fold total_weight.
  eexists. split; [|split; [|split]]; cycle 3.
  - destruct (_ && _); cbn [negb]; reflexivity.
  - reflexivity.
  - reflexivity.
  - repeat constructor.
Qed.

(* ================================================================== *)
(** ** Further properties: the registry and the selector *)
(* ================================================================== *)

Lemma init_stats_lookup (l : list Analyzer) (st : DistributorStats) (k : string) :
  let st' := fold_left init_analyzer_stats l st in
  packets_per_analyzer st' !! k
  = (if decide (k ∈ name <$> l) then Some 0 else packets_per_analyzer st !! k)
  ∧ messages_per_analyzer st' !! k
    = (if decide (k ∈ name <$> l) then Some 0 else messages_per_analyzer st !! k)
  ∧ total_packets_received st' = total_packets_received st
  ∧ total_messages_received st' = total_messages_received st
  ∧ failed_sends st' = failed_sends st.
Proof.
  revert st. induction l as [|a l IH]; intros st; cbn zeta.
  - cbn. rewrite decide_False by apply not_elem_of_nil. done.
  - cbn [fold_left]. destruct (IH (init_analyzer_stats st a)) as (Hp & Hm & Ht).
    rewrite Hp, Hm. cbn [init_analyzer_stats packets_per_analyzer
      messages_per_analyzer total_packets_received total_messages_received
      failed_sends] in *.
    split; [|split; [|exact Ht]].
    + rewrite fmap_cons. destruct (decide (k ∈ name <$> l)) as [Hin|Hnin].
      * rewrite decide_True by (by right). done.
      * rewrite lookup_insert. destruct (decide (name a = k)) as [<-|Hne].
        -- rewrite decide_True by left. done.
        -- rewrite decide_False; [done|].
           intros [->|?]%elem_of_cons; done.
    + rewrite fmap_cons. destruct (decide (k ∈ name <$> l)) as [Hin|Hnin].
      * rewrite decide_True by (by right). done.
      * rewrite lookup_insert. destruct (decide (name a = k)) as [<-|Hne].
        -- rewrite decide_True by left. done.
        -- rewrite decide_False; [done|].
           intros [->|?]%elem_of_cons; done.
Qed.

(** X1.  A distributor starts with an empty ledger that knows every
    configured analyzer: the totals and [failed_sends] are 0, and each of
    the two per-analyzer dicts holds a 0 under every configured name and
    no other key, also when a name is configured twice. *)
Theorem init_ledger_is_zero_for_configured_names (l : list Analyzer) (t : float) :
  let st := stats (__init__ l t) in
  analyzers (__init__ l t) = l
  ∧ total_packets_received st = 0
  ∧ total_messages_received st = 0
  ∧ failed_sends st = 0
  ∧ (∀ k, packets_per_analyzer st !! k
          = if decide (k ∈ name <$> l) then Some 0 else None)
  ∧ (∀ k, messages_per_analyzer st !! k
          = if decide (k ∈ name <$> l) then Some 0 else None).
Proof.
  cbn zeta. cbn [__init__ stats analyzers].
  split; [done|].
  destruct (init_stats_lookup l DistributorStats_default EmptyString)
    as (_ & _ & Htp & Htm & Hf).
  rewrite Htp, Htm, Hf. repeat split; try done.
  - intros k. destruct (init_stats_lookup l DistributorStats_default k) as (-> & _).
    cbn. by rewrite lookup_empty.
  - intros k. destruct (init_stats_lookup l DistributorStats_default k)
      as (_ & -> & _).
    cbn. by rewrite lookup_empty.
Qed.

Lemma set_health_not_found n b l : n ∉ name <$> l → set_health n b l = l.
Proof.
  induction l as [|a l IH]; [done|]. cbn.
  intros [Hne Hnin]%not_elem_of_cons.
  rewrite decide_False by done. by rewrite IH.
Qed.

Lemma set_health_first n b pre a suf :
  name a = n → n ∉ name <$> pre →
  set_health n b (pre ++ a :: suf) = pre ++ with_health b a :: suf.
Proof.
  intros Ha. induction pre as [|p pre IH]; cbn.
  - intros _. by rewrite decide_True.
  - intros [Hne Hnin]%not_elem_of_cons.
    rewrite decide_False by done. by rewrite IH.
Qed.

(** X2.  [update_analyzer_health] never touches the ledger.  A name
    that is not configured changes nothing at all; otherwise the first
    entry with that name, and only this entry, gets the flag, its name,
    URL and weight staying as they were. *)
Theorem update_analyzer_health_writes_first_match (n : string) (b : bool)
    (d : LogDistributor) :
  stats (update_analyzer_health n b d) = stats d
  ∧ timeout (update_analyzer_health n b d) = timeout d
  ∧ (n ∉ name <$> analyzers d → update_analyzer_health n b d = d)
  ∧ (∀ pre a suf,
       analyzers d = pre ++ a :: suf → name a = n → n ∉ name <$> pre →
       analyzers (update_analyzer_health n b d) = pre ++ with_health b a :: suf).
Proof.
  split; [done|]. split; [done|]. split.
  - intros Hnin. unfold update_analyzer_health.
    rewrite set_health_not_found by done. by destruct d.
  - intros pre a suf Hd Ha Hpre. cbn. rewrite Hd. by apply set_health_first.
Qed.

Lemma set_health_twice n b1 b2 l :
  set_health n b2 (set_health n b1 l) = set_health n b2 l.
Proof.
  induction l as [|a l IH]; [done|]. cbn.
  destruct (decide (name a = n)) as [Heq|Hne]; cbn.
  - by rewrite decide_True.
  - rewrite decide_False by done. by rewrite IH.
Qed.

Lemma set_health_comm n1 b1 n2 b2 l :
  n1 ≠ n2 →
  set_health n2 b2 (set_health n1 b1 l) = set_health n1 b1 (set_health n2 b2 l).
Proof.
  intros Hne. induction l as [|a l IH]; [done|]. cbn.
  destruct (decide (name a = n1)) as [H1|H1];
    destruct (decide (name a = n2)) as [H2|H2]; cbn.
  - congruence.
  - rewrite decide_False by done. by rewrite decide_True.
  - rewrite decide_True by done. by rewrite decide_False.
  - rewrite !decide_False by done. by rewrite IH.
Qed.

(** X3.  Health updates compose as writes to a register per name: of
    two updates of the same name the later one alone counts, and updates
    of different names can be swapped. *)
Theorem update_analyzer_health_last_write_wins (n1 n2 : string) (b1 b2 : bool)
    (d : LogDistributor) :
  (n1 = n2 →
   update_analyzer_health n2 b2 (update_analyzer_health n1 b1 d)
   = update_analyzer_health n2 b2 d)
  ∧ (n1 ≠ n2 →
     update_analyzer_health n2 b2 (update_analyzer_health n1 b1 d)
     = update_analyzer_health n1 b1 (update_analyzer_health n2 b2 d)).
Proof.
  unfold update_analyzer_health. cbn. split.
  - intros ->. by rewrite set_health_twice.
  - intros Hne. by rewrite set_health_comm.
Qed.

Lemma filter_set_health_other n b l :
  List.filter (λ a, negb (bool_decide (name a = n))) (set_health n b l)
  = List.filter (λ a, negb (bool_decide (name a = n))) l.
Proof.
  induction l as [|a l IH]; [done|]. cbn [set_health].
  destruct (decide (name a = n)) as [Heq|Hne].
  - cbn. by rewrite !bool_decide_eq_true_2.
  - cbn. rewrite bool_decide_eq_false_2 by done. cbn. by rewrite IH.
Qed.

Lemma healthy_set_health_false n l :
  NoDup (name <$> l) →
  List.filter is_healthy (set_health n false l)
  = List.filter (λ a, negb (bool_decide (name a = n))) (List.filter is_healthy l).
Proof.
  induction l as [|a l IH]; [done|]. cbn.
  intros [Hfresh Hnd]%NoDup_cons.
  destruct (decide (name a = n)) as [Heq|Hne].
  - cbn. subst n.
    assert (List.filter (λ a0, negb (bool_decide (name a0 = name a)))
              (List.filter is_healthy l) = List.filter is_healthy l) as Hrest.
    { apply forallb_filter_id, forallb_forall. intros x [Hx _]%filter_In.
      apply negb_true_iff, bool_decide_eq_false. intros Hname.
      apply Hfresh. rewrite <- Hname. apply list_elem_of_fmap.
      exists x. split; [done|]. by apply list_elem_of_In. }
    destruct (is_healthy a); cbn.
    + by rewrite bool_decide_eq_true_2.
    + done.
  - cbn. destruct (is_healthy a); cbn.
    + rewrite bool_decide_eq_false_2 by done. cbn. by rewrite IH.
    + by apply IH.
Qed.

(** X4.  With distinct names, marking [n] unhealthy removes the entry
    named [n] from the list of [get_healthy_analyzers] and leaves the
    rest of that list, order included; and whatever flag is written for
    [n], the healthy entries with another name stay the same. *)
Theorem get_healthy_analyzers_after_update (n : string) (d : LogDistributor) :
  NoDup (name <$> analyzers d) →
  get_healthy_analyzers (update_analyzer_health n false d)
  = List.filter (λ a, negb (bool_decide (name a = n))) (get_healthy_analyzers d)
  ∧ ∀ b,
      List.filter (λ a, negb (bool_decide (name a = n)))
        (get_healthy_analyzers (update_analyzer_health n b d))
      = List.filter (λ a, negb (bool_decide (name a = n)))
          (get_healthy_analyzers d).
Proof.
  intros Hnd. unfold get_healthy_analyzers. cbn. split.
  - by apply healthy_set_health_false.
  - intros b.
    assert (∀ l, List.filter (λ a, negb (bool_decide (name a = n)))
                   (List.filter is_healthy l)
                 = List.filter is_healthy
                     (List.filter (λ a, negb (bool_decide (name a = n))) l))
      as Hswap.
    { intros l. induction l as [|a l IH]; [done|]. cbn.
      destruct (is_healthy a) eqn:Hh; cbn;
        destruct (bool_decide (name a = n)); cbn; rewrite ?Hh, ?IH; done. }
    by rewrite !Hswap, filter_set_health_other.
Qed.

(** X5.  When a single analyzer is healthy and its weight does not sum
    to zero, every draw selects it: the comparison with the draw cannot
    send the packet anywhere else. *)
Theorem sole_healthy_analyzer_is_always_selected
    (py_sum : list float → float) (d : LogDistributor) (a : Analyzer)
    (r : float) :
  healthy d = [a] →
  PrimFloat.eqb (py_sum [weight a]) 0 = false →
  _select_analyzer py_sum d r = Some a.
Proof.
  unfold healthy, _select_analyzer. intros -> Hw. cbn [map]. rewrite Hw.
  cbn. by destruct (PrimFloat.ltb r _).
Qed.

(* ================================================================== *)
(** ** Further properties: [distribute] *)
(* ================================================================== *)

Lemma range_nonpos (n : Z) : n ≤ 0 → range n = [].
Proof. intros Hn. unfold range. by replace (Z.to_nat n) with 0%nat by lia. Qed.

Section distribute_extras.
Variable py_sum : list float → float.
Variable env : Env.
Variable packet : LogPacket.
Variable max_retries : Z.
Variable retry_delay : float.

Local Abbreviation loop := (distribute_loop py_sum env packet max_retries retry_delay).
Local Abbreviation call := (distribute py_sum env packet max_retries retry_delay).
Local Abbreviation verdict_at := (verdict py_sum env packet).
Local Abbreviation events_at := (retry_events py_sum env packet max_retries retry_delay).

(** X6.  Without an analyzer to select (none healthy, or a total weight
    of zero) a call gives up at once, whatever [max_retries] allows: no
    POST, no wait, one more failed send, False.  A negative
    [max_retries] has the same effect even with healthy analyzers. *)
Theorem distribute_gives_up_without_analyzer (w : World) :
  max_retries < 0 ∨ (∃ r, _select_analyzer py_sum (dist w) r = None) →
  call w = (inr false, {| dist := record_failure (dist w); wire := wire w |}).
Proof.
  intros Hcase. unfold distribute.
  destruct (decide (max_retries < 0)) as [Hneg|Hpos].
  - by rewrite range_nonpos by lia.
  - destruct Hcase as [?|[r Hr]]; [lia|].
    destruct (range_split (max_retries + 1) 0) as [rest ->]; [lia|].
    rewrite (range_nonpos 0) by lia. cbn [app].
    apply loop_no_analyzer, verdict_no_analyzer.
    by eapply select_analyzer_None_draw.
Qed.

Lemma posts_cons_post u p es : posts (EvPost u p :: es) = EvPost u p :: posts es.
Proof. reflexivity. Qed.

(** What one run of the loop adds to the wire. *)
Lemma loop_wire attempts w :
  ∃ es,
    wire (snd (loop attempts w)) = wire w ++ es
    ∧ (length (posts es) ≤ length attempts)%nat
    ∧ Forall (sent_to_healthy (dist w) packet) es.
Proof.
  revert w. induction attempts as [|k rest IH]; intros w.
  { exists []. cbn. by rewrite app_nil_r. }
  assert (∀ a w2,
            a ∈ analyzers (dist w) → is_healthy a = true →
            analyzers (dist w2) = analyzers (dist w) →
            wire w2 = wire w ++ [EvPost (url a) (packet_id packet)] →
            ∃ es,
              wire (snd match backoff k max_retries retry_delay w2 with
                        | inl e => (inl e, w2)
                        | inr w3 => loop rest w3
                        end) = wire w ++ es
              ∧ (length (posts es) ≤ S (length rest))%nat
              ∧ Forall (sent_to_healthy (dist w) packet) es) as Hretry.
  { intros a w2 Ha Hh Han Hwire.
    assert (sent_to_healthy (dist w) packet
              (EvPost (url a) (packet_id packet))) as Hpost
      by (split; [done|by exists a]).
    assert (∀ pre w3,
              analyzers (dist w3) = analyzers (dist w) →
              wire w3 = wire w ++ EvPost (url a) (packet_id packet) :: pre →
              posts pre = [] → Forall (sent_to_healthy (dist w) packet) pre →
              ∃ es, wire (snd (loop rest w3)) = wire w ++ es
                    ∧ (length (posts es) ≤ S (length rest))%nat
                    ∧ Forall (sent_to_healthy (dist w) packet) es) as Hnext.
    { intros pre w3 Han3 Hw3 Hpre Hgood.
      destruct (IH w3) as (es & Hes & Hlen & Hall).
      exists (EvPost (url a) (packet_id packet) :: pre ++ es).
      rewrite Hes, Hw3, <- app_assoc. split; [done|]. split.
      - rewrite posts_cons_post. cbn [length].
        unfold posts in *. rewrite List.filter_app, length_app, Hpre. cbn. lia.
      - constructor; [done|]. apply Forall_app. split; [done|].
        eapply Forall_impl; [exact Hall|].
        intros [u p|??]; cbn; [|done]. by rewrite Han3. }
    unfold backoff. destruct (k <? max_retries); [destruct (1024 <=? k)|].
    - exists [EvPost (url a) (packet_id packet)]. cbn [snd].
      split; [done|]. split; [cbn; lia|]. by constructor.
    - apply (Hnext [EvSleep retry_delay k]); cbn; [done| |done|by constructor].
      by rewrite Hwire, <- app_assoc.
    - apply (Hnext []); cbn; [done|done|done|constructor]. }
  cbn [distribute_loop]. cbv zeta. unfold _send_to_analyzer.
  destruct (_select_analyzer py_sum (dist w) (uniform env k)) as [a|] eqn:Hsel.
  2:{ exists []. cbn. rewrite app_nil_r. split; [done|]. split; [lia|constructor]. }
  apply select_analyzer_healthy in Hsel as [Ha Hh].
  assert (∃ es,
            wire w ++ [EvPost (url a) (packet_id packet)] = wire w ++ es
            ∧ (length (posts es) ≤ S (length rest))%nat
            ∧ Forall (sent_to_healthy (dist w) packet) es) as Hstop.
  { exists [EvPost (url a) (packet_id packet)]. split; [done|].
    split; [cbn; lia|]. constructor; [|constructor]. split; [done|by exists a]. }
  destruct (post env k a packet) as [[]|];
    try (by apply (Hretry a _ Ha Hh)).
  - destruct (_ && _); [exact Hstop|]. by apply (Hretry a _ Ha Hh).
  - cbn [emit dist].
    pose proof (analyzers_record_success a packet (dist w)) as Hrs.
    destruct (record_success a packet (dist w)) as [[e|] d'] eqn:E; cbn in Hrs.
    + by apply (Hretry a _ Ha Hh).
    + exact Hstop.
Qed.

(** X7.  Whatever the downstream answers, a call issues at most
    [max_retries + 1] POSTs, and every one of them carries the id of the
    packet of the call and goes to the URL of an analyzer that is
    configured and healthy in the registry the call started from. *)
Theorem distribute_posts_are_bounded_and_healthy (w : World) :
  ∃ es,
    wire (snd (call w)) = wire w ++ es
    ∧ len (posts es) ≤ Z.max 0 (max_retries + 1)
    ∧ Forall (sent_to_healthy (dist w) packet) es.
Proof.
  unfold distribute.
  destruct (loop_wire (range (max_retries + 1)) w) as (es & Hes & Hlen & Hall).
  exists es. split; [done|]. split; [|done].
  rewrite length_range in Hlen. unfold len. lia.
Qed.

Lemma sleeps_app es1 es2 : sleeps (es1 ++ es2) = sleeps es1 ++ sleeps es2.
Proof. apply List.filter_app. Qed.

Lemma sleeps_retry_events d pre :
  Forall (λ j, is_retry (verdict_at d j) = true) pre →
  Forall (λ j, j < max_retries) pre →
  sleeps (flat_map (events_at d) pre) = EvSleep retry_delay <$> pre.
Proof.
  induction 1 as [|k pre Hk _ IH]; [done|].
  intros [Hlt Hrest]%Forall_cons. cbn [flat_map]. rewrite sleeps_app, IH by done.
  rewrite fmap_cons. unfold retry_events.
  destruct (verdict_at d k); try discriminate.
  replace (k <? max_retries) with true by lia. done.
Qed.









Lemma verdict_accepted d k a :
  verdict_at d k = accepted a
  ↔ _select_analyzer py_sum d (uniform env k) = Some a
    ∧ post env k a packet = None.
Proof.
  unfold verdict.
  destruct (_select_analyzer py_sum d (uniform env k)) as [a'|];
    [|split; [done|by intros [? _]]].
  destruct (post env k a' packet) as [[]|] eqn:Hpost;
    try (split; [done|intros [[= ->] ?]; congruence]).
  - destruct (is_4xx _); (split; [done|intros [[= ->] ?]; congruence]).
  - split; [by intros [= ->]|by intros [[= ->] _]].
Qed.

(** X9.  A delivery is credited to the analyzer that accepted it.  When
    a call returns True, its last event is the POST to an analyzer that
    the selection of some attempt returned and whose answer raised
    nothing, and the counters raised are those of this analyzer.
    Conversely the call returns True as soon as an attempt that is
    reached is answered that way. *)
Theorem delivery_is_credited_to_the_accepting_analyzer (d : LogDistributor) :
  reachable d →
  let '(ok, w') := call {| dist := d; wire := [] |} in
  (ok = inr true →
   ∃ k a c m,
     0 ≤ k ≤ max_retries
     ∧ _select_analyzer py_sum d (uniform env k) = Some a
     ∧ post env k a packet = None
     ∧ last (wire w') = Some (EvPost (url a) (packet_id packet))
     ∧ packets_per_analyzer (stats d) !! name a = Some c
     ∧ messages_per_analyzer (stats d) !! name a = Some m
     ∧ stats (dist w')
       = stats_after_success (name a) c m (len (messages packet)) (stats d))
  ∧ (∀ k a,
       0 ≤ k ≤ max_retries → k ≤ 1024 →
       (∀ j, 0 ≤ j < k → is_retry (verdict_at d j) = true) →
       _select_analyzer py_sum d (uniform env k) = Some a →
       post env k a packet = None →
       ok = inr true).
Proof.
  intros Hd%reachable_keys_ok.
  destruct (call {| dist := d; wire := [] |}) as [ok w'] eqn:Heqp. split.
  - destruct (distribute_cases py_sum env packet max_retries retry_delay
                {| dist := d; wire := [] |} Hd)
      as [(_ & _ & Hcall)|[(_ & _ & es & Hcall)|(k & Hk & Hpre &
            [[Hv Hcall]|[(a & c & Hv & Hcall)|
               (a & c & m & Hv & Hin & Hc & Hm & Hcall)]])]];
      rewrite Hcall in Heqp; injection Heqp as <- <-; try discriminate.
    intros _. exists k, a, c, m. cbn [dist wire app] in *.
    apply verdict_accepted in Hv as [Hsel Hpost].
    repeat (split; [done || lia|]). split; [apply last_snoc|]. done.
  - intros k a Hk Hk' Hpre Hsel Hpost.
    assert (verdict_at d k = accepted a) as Hv by by apply verdict_accepted.
    assert (is_retry (verdict_at d k) = false) as Hnr by by rewrite Hv.
    destruct (distribute_decided_at py_sum env packet max_retries retry_delay
                {| dist := d; wire := [] |} k Hd Hk Hk' Hpre Hnr)
      as [[Hv' _]|[(a' & c & Hv' & _)|(a' & c & m & _ & _ & _ & _ & Hcall)]];
      cbn [dist] in *; congruence.
Qed.

End distribute_extras.

Lemma run_all_reachable (py_sum : list float → float) (cs : list Call)
    (d : LogDistributor) :
  reachable d → reachable (run_all py_sum cs d).
Proof.
  unfold run_all. revert d. induction cs as [|c cs IH]; intros d Hd; [done|].
  cbn [fold_left]. by apply IH, run_reachable.
Qed.

(** X10.  Every call of [distribute] with at most 1024 retries accounts
    for its packet exactly once: over any sequence of calls, health
    updates included, [total_packets_received + failed_sends] grows by
    the number of [distribute] calls. *)
Theorem every_packet_is_accounted_once (py_sum : list float → float)
    (cs : list Call) (d : LogDistributor) :
  reachable d →
  Forall (λ c, retries_of c ≤ 1024) cs →
  accounted (run_all py_sum cs d)
  = accounted d + len (List.filter is_distribute cs).
Proof.
  intros Hd Hcs. revert d Hd. unfold run_all.
  induction Hcs as [|c cs Hc _ IH]; intros d Hd; [unfold len; cbn; lia|].
  cbn [fold_left]. rewrite IH by by apply run_reachable.
  assert (accounted (run py_sum c d)
          = accounted d + (if is_distribute c then 1 else 0)) as ->.
  { destruct c as [env packet R delay| | |]; cbn in *;
      try (unfold accounted; cbn; lia).
    pose proof (distribute_ledger_effect py_sum env packet R delay d Hd) as Heff.
    destruct (distribute py_sum env packet R delay {| dist := d; wire := [] |})
      as [[e|[|]] w'].
    - destruct Heff as (_ & _ & Hbig & _). lia.
    - destruct Heff as (_ & a & c & m & _ & _ & _ & Hst).
      unfold accounted. cbn. rewrite Hst. cbn. lia.
    - destruct Heff as (_ & Hst). unfold accounted. cbn. rewrite Hst. cbn. lia. }
  cbn [List.filter]. destruct (is_distribute c); unfold len; cbn [length]; lia.
Qed.

(** X11.  Validated packets carry at least one message each, so over
    any sequence of calls the messages delivered are at least as many as
    the packets delivered, whatever fails or is retried in between. *)
Theorem messages_outnumber_packets (py_sum : list float → float)
    (cs : list Call) (d : LogDistributor) :
  reachable d →
  Forall (λ c, min_items_ok c = true) cs →
  let d' := run_all py_sum cs d in
  total_packets_received (stats d') - total_packets_received (stats d)
  ≤ total_messages_received (stats d') - total_messages_received (stats d).
Proof.
  intros Hd Hcs. cbn zeta. revert d Hd. unfold run_all.
  induction Hcs as [|c cs Hc _ IH]; intros d Hd; [cbn; lia|].
  cbn [fold_left]. specialize (IH _ (run_reachable py_sum c d Hd)).
  assert (total_packets_received (stats (run py_sum c d))
            - total_packets_received (stats d)
          ≤ total_messages_received (stats (run py_sum c d))
            - total_messages_received (stats d)); [|lia].
  clear IH. destruct c as [env packet R delay| | |]; cbn in *; try lia.
  pose proof (distribute_ledger_effect py_sum env packet R delay d Hd) as Heff.
  destruct (distribute py_sum env packet R delay {| dist := d; wire := [] |})
    as [[e|[|]] w'].
  - destruct Heff as (_ & _ & _ & Hst). cbn [snd]. rewrite Hst. lia.
  - destruct Heff as (_ & a & c & m & _ & _ & _ & Hst).
    cbn [snd]. rewrite Hst. cbn. lia.
  - destruct Heff as (_ & Hst). cbn [snd]. rewrite Hst. cbn. lia.
Qed.

(* ================================================================== *)
(** ** Further properties: the ledger of messages *)
(* ================================================================== *)

Lemma dict_sum_all_zero (m : gmap string Z) :
  (∀ k v, m !! k = Some v → v = 0) → dict_sum m = 0.
Proof.
  induction m as [|k v m Hk IH] using map_ind; intros Hz.
  - apply dict_sum_empty.
  - rewrite dict_sum_insert_fresh by done.
    rewrite (Hz k v) by apply lookup_insert_eq.
    rewrite IH; [lia|]. intros k' v' Hk'. apply (Hz k' v').
    rewrite lookup_insert_ne; [done|]. intros ->. congruence.
Qed.

Lemma messages_inv_init l t :
  total_messages_received (stats (__init__ l t))
  = dict_sum (messages_per_analyzer (stats (__init__ l t)))
  ∧ counters_nonneg (stats (__init__ l t)).
Proof.
  cbn [__init__ stats].
  set (st := fold_left init_analyzer_stats l DistributorStats_default).
  assert (∀ k v, packets_per_analyzer st !! k = Some v → v = 0) as Hpz.
  { intros k v. destruct (init_stats_lookup l DistributorStats_default k)
      as (Hpk & _). fold st in Hpk. rewrite Hpk. cbn.
    rewrite lookup_empty. case_decide; congruence. }
  assert (∀ k v, messages_per_analyzer st !! k = Some v → v = 0) as Hmz.
  { intros k v. destruct (init_stats_lookup l DistributorStats_default k)
      as (_ & Hmk & _). fold st in Hmk. rewrite Hmk. cbn.
    rewrite lookup_empty. case_decide; congruence. }
  destruct (init_stats_lookup l DistributorStats_default EmptyString)
    as (_ & _ & Hp & Hm & Hf). fold st in Hp, Hm, Hf. cbn in Hp, Hm, Hf.
  split; [by rewrite Hm, dict_sum_all_zero|].
  unfold counters_nonneg. rewrite Hp, Hm, Hf.
  repeat split; try done.
  - intros k v Hv. by rewrite (Hpz k v Hv).
  - intros k v Hv. by rewrite (Hmz k v Hv).
Qed.

Lemma messages_inv_success a p d :
  ledger_inv d → name a ∈ name <$> analyzers d →
  total_messages_received (stats d) = dict_sum (messages_per_analyzer (stats d))
  ∧ counters_nonneg (stats d) →
  let d' := snd (record_success a p d) in
  total_messages_received (stats d') = dict_sum (messages_per_analyzer (stats d'))
  ∧ counters_nonneg (stats d').
Proof.
  intros (_ & Hp & Hm) Ha (Hsum & H1 & H2 & H3 & H4 & H5).
  assert (name a ∈ (list_to_set (name <$> analyzers d) : gset string)) as Hin
    by by apply elem_of_list_to_set.
  assert (is_Some (packets_per_analyzer (stats d) !! name a)) as [c Hc]
    by (apply elem_of_dom; by rewrite Hp).
  assert (is_Some (messages_per_analyzer (stats d) !! name a)) as [m Hmsg]
    by (apply elem_of_dom; by rewrite Hm).
  pose proof (H4 _ _ Hc) as Hc0. pose proof (H5 _ _ Hmsg) as Hm0. cbn in Hc0, Hm0.
  assert (0 ≤ len (messages p)) as Hlen by (unfold len; lia).
  cbn zeta. unfold record_success. rewrite Hc, Hmsg. cbn.
  rewrite (dict_sum_insert _ _ m) by done.
  split; [lia|]. unfold counters_nonneg. cbn.
  repeat split; try lia.
  - apply map_Forall_insert_2; [lia|done].
  - apply map_Forall_insert_2; [lia|done].
Qed.

Lemma reachable_messages_inv d :
  reachable d →
  total_messages_received (stats d) = dict_sum (messages_per_analyzer (stats d))
  ∧ counters_nonneg (stats d).
Proof.
  induction 1 as [l t|d a p Hd IH Ha|d _ IH|d n b _ IH].
  - apply messages_inv_init.
  - apply messages_inv_success; [by apply reachable_ledger_inv|done|done].
  - destruct IH as (Hsum & H1 & H2 & H3 & H4 & H5).
    split; [done|]. unfold counters_nonneg. cbn. repeat split; (done || lia).
  - exact IH.
Qed.

(** X12.  The ledger of messages balances like the ledger of packets:
    in every reachable state [total_messages_received] is the sum of
    [messages_per_analyzer], read key by key when names are distinct, and
    no counter of the ledger is ever negative. *)
Theorem messages_ledger_balances (d : LogDistributor) :
  reachable d →
  total_messages_received (stats d) = dict_sum (messages_per_analyzer (stats d))
  ∧ dom (messages_per_analyzer (stats d)) = list_to_set (name <$> analyzers d)
  ∧ counters_nonneg (stats d)
  ∧ (NoDup (name <$> analyzers d) →
     total_messages_received (stats d)
     = per_analyzer_total (messages_per_analyzer (stats d)) (analyzers d)).
Proof.
  intros Hd. destruct (reachable_messages_inv d Hd) as [Hsum Hnn].
  destruct (reachable_ledger_inv d Hd) as (_ & _ & Hdom).
  split; [done|]. split; [done|]. split; [done|].
  intros Hnd. rewrite Hsum. by apply dict_sum_per_key.
Qed.

(* ================================================================== *)
(** ** Further properties: the prober and the monitoring loop *)
(* ================================================================== *)

Section prober.
Variable client : string → GetResult.

Lemma probed_names (l : list Analyzer) :
  name <$> (probed client <$> l) = name <$> l.
Proof. rewrite <- list_fmap_compose. by apply list_fmap_ext. Qed.

(** The updates of a round, applied to the entries not yet visited. *)
Lemma check_all_fold pre l d :
  NoDup (name <$> pre ++ l) →
  analyzers d = (probed client <$> pre) ++ l →
  fold_left
    (λ d '(analyzer, is_healthy),
       update_analyzer_health (name analyzer) is_healthy d)
    (zip l (map (_check_analyzer_health client) l)) d
  = {| analyzers := probed client <$> (pre ++ l);
       timeout := timeout d; stats := stats d |}.
Proof.
  revert pre d. induction l as [|a l IH]; intros pre d Hnd Hd.
  - cbn. rewrite app_nil_r in *. destruct d; cbn in *; by subst.
  - cbn [map zip_with fold_left].
    rewrite (IH (pre ++ [a])).
    + by rewrite <- app_assoc.
    + by rewrite <- app_assoc.
    + cbn [update_analyzer_health analyzers]. rewrite Hd.
      rewrite set_health_first; [|done|].
      * rewrite fmap_app, <- app_assoc. done.
      * rewrite probed_names. rewrite fmap_app in Hnd.
        apply NoDup_app in Hnd as (_ & Hdisj & _).
        intros Hin. apply (Hdisj _ Hin). rewrite fmap_cons. left.
Qed.

Lemma check_all_analyzers_eq d :
  NoDup (name <$> analyzers d) →
  _check_all_analyzers client d
  = {| analyzers := probed client <$> analyzers d;
       timeout := timeout d; stats := stats d |}.
Proof.
  intros Hnd. unfold _check_all_analyzers. by apply (check_all_fold []).
Qed.

Lemma check_all_analyzers_stats d :
  stats (_check_all_analyzers client d) = stats d
  ∧ name <$> analyzers (_check_all_analyzers client d) = name <$> analyzers d.
Proof.
  unfold _check_all_analyzers.
  generalize (zip (analyzers d) (map (_check_analyzer_health client) (analyzers d))).
  intros l. revert d. induction l as [|[a b] l IH]; intros d; [done|].
  cbn [fold_left]. destruct (IH (update_analyzer_health (name a) b d)) as [-> ->].
  cbn. by rewrite set_health_names.
Qed.

(** X13.  A round of the prober never touches the ledger or the names,
    and with distinct names it writes to every entry the result of that
    entry's own probe: the name-by-name search of the updates finds each
    entry once. *)
Theorem check_all_analyzers_sets_every_flag (d : LogDistributor) :
  NoDup (name <$> analyzers d) →
  stats (_check_all_analyzers client d) = stats d
  ∧ analyzers (_check_all_analyzers client d) = probed client <$> analyzers d
  ∧ get_healthy_analyzers (_check_all_analyzers client d)
    = probed client
        <$> List.filter (_check_analyzer_health client) (analyzers d).
Proof.
  intros Hnd. rewrite check_all_analyzers_eq by done.
  split; [done|]. split; [done|].
  unfold get_healthy_analyzers. cbn [analyzers].
  induction (analyzers d) as [|a l IH]; [done|].
  apply NoDup_cons in Hnd as [_ Hnd]. rewrite fmap_cons. cbn.
  destruct (_check_analyzer_health client a); cbn; by rewrite IH.
Qed.

End prober.

Lemma check_all_analyzers_twice client1 client2 d :
  NoDup (name <$> analyzers d) →
  _check_all_analyzers client2 (_check_all_analyzers client1 d)
  = _check_all_analyzers client2 d.
Proof.
  intros Hnd. rewrite (check_all_analyzers_eq client1 d) by done.
  rewrite check_all_analyzers_eq by (cbn; by rewrite probed_names).
  rewrite (check_all_analyzers_eq client2 d) by done.
  cbn. f_equal. rewrite <- list_fmap_compose. by apply list_fmap_ext.
Qed.

(** X14.  The monitoring loop has no memory.  With distinct names the
    registry after any number of rounds is the one that the last round
    alone would have left: every flag is the result of the latest probe
    of its analyzer, and the ledger is as it was. *)
Theorem monitor_loop_keeps_last_round (rounds : list (string → GetResult))
    (client : string → GetResult) (d : LogDistributor) :
  NoDup (name <$> analyzers d) →
  monitor_loop._monitor_loop (rounds ++ [client]) d
  = _check_all_analyzers client d.
Proof.
  unfold monitor_loop._monitor_loop. revert d.
  induction rounds as [|c rounds IH]; intros d Hnd; [done|].
  cbn [app fold_left]. rewrite IH.
  - by apply check_all_analyzers_twice.
  - destruct (check_all_analyzers_stats c d) as [_ ->]. done.
Qed.

(** A call without a healthy analyzer. *)
Lemma distribute_no_healthy py_sum env packet max_retries retry_delay w :
  healthy (dist w) = [] →
  distribute py_sum env packet max_retries retry_delay w
  = (inr false, {| dist := record_failure (dist w); wire := wire w |}).
Proof.
  intros Hh. unfold distribute.
  destruct (decide (max_retries < 0)) as [Hneg|Hpos].
  - by rewrite range_nonpos by lia.
  - destruct (range_split (max_retries + 1) 0) as [rest ->]; [lia|].
    rewrite (range_nonpos 0) by lia. cbn [app].
    apply loop_no_analyzer, verdict_no_analyzer.
    unfold _select_analyzer. fold (healthy (dist w)). by rewrite Hh.
Qed.

(** X15.  A total outage reaches the workers through the registry.
    After a round in which every probe fails, with distinct names, no
    analyzer is healthy, and every call of [distribute] fails at once:
    it issues no request, waits for nothing and counts one failed send. *)
Theorem outage_round_fails_every_packet (py_sum : list float → float)
    (client : string → GetResult) (d : LogDistributor) (env : Env)
    (packet : LogPacket) (max_retries : Z) (retry_delay : float)
    (es : list Event) :
  NoDup (name <$> analyzers d) →
  Forall (λ a, _check_analyzer_health client a = false) (analyzers d) →
  let d' := _check_all_analyzers client d in
  get_healthy_analyzers d' = []
  ∧ distribute py_sum env packet max_retries retry_delay
      {| dist := d'; wire := es |}
    = (inr false, {| dist := record_failure d'; wire := es |}).
Proof.
  intros Hnd Hdown. cbn zeta.
  assert (healthy (_check_all_analyzers client d) = []) as Hh.
  { rewrite check_all_analyzers_eq by done. unfold healthy. cbn [analyzers].
    clear Hnd. induction Hdown as [|a l Ha _ IH]; [done|].
    rewrite fmap_cons. cbn. by rewrite Ha. }
  split; [exact Hh|]. by apply distribute_no_healthy.
Qed.

(* ================================================================== *)
(** ** Further properties: the URL of a probe *)
(* ================================================================== *)

Lemma split_last_slash_None (s : string) :
  split_last_slash s = None → has_slash s = false.
Proof.
  induction s as [|c s IH]; [done|]. cbn.
  destruct (split_last_slash s) as [[b a]|]; [done|].
  destruct (Ascii.eqb c "/"); [done|]. intros _. by rewrite IH.
Qed.

Lemma split_last_slash_Some (s before after : string) :
  split_last_slash s = Some (before, after) →
  s = before +:+ String "/" after ∧ has_slash after = false.
Proof.
  revert before. induction s as [|c s IH]; intros before; [done|].
  cbn [split_last_slash].
  destruct (split_last_slash s) as [[b a]|] eqn:E.
  - intros [= <- <-]. destruct (IH b eq_refl) as [-> Ha]. done.
  - destruct (Ascii.eqb c "/") eqn:Hc; [|done].
    intros [= <- <-]. apply Ascii.eqb_eq in Hc as ->.
    split; [done|]. by apply split_last_slash_None.
Qed.

(** X16.  [rsplit('/', 1)] loses nothing: joining its parts with ['/']
    gives the URL back, there are two parts exactly when the URL has a
    ['/'], and the last part has none.  So the probe of a URL without
    any ['/'] goes to the whole URL followed by [/health]. *)
Theorem rsplit1_joins_back (u : string) :
  join_slash (rsplit1 u) = u
  ∧ (len (rsplit1 u) = if has_slash u then 2 else 1)
  ∧ (∀ part, last (rsplit1 u) = Some part → has_slash part = false)
  ∧ (has_slash u = false → health_url u = Some (u +:+ "/health")).
Proof.
  unfold health_url, rsplit1.
  destruct (split_last_slash u) as [[b a]|] eqn:E.
  - apply split_last_slash_Some in E as [-> Ha].
    assert (has_slash (b +:+ String "/" a) = true) as Hs.
    { clear. induction b as [|c b IH]; [done|].
      change (String c b +:+ String "/" a) with (String c (b +:+ String "/" a)).
      cbn. rewrite IH. apply orb_true_r. }
    rewrite Hs. repeat split; try done.
    by intros part [= <-].
  - apply split_last_slash_None in E. rewrite E. repeat split; try done.
    intros part [= <-]. done.
Qed.

(* ================================================================== *)
(** ** Further properties: the queue, /health and the configuration *)
(* ================================================================== *)

Import service.

(** X17.  Backpressure on a burst.  When packets are offered one after
    the other and no worker takes any, the first [n] are accepted with
    202, in order, and all the others are refused with 503, [n] being
    the free slots of the queue; a queue whose [maxsize] is zero or
    negative accepts them all. *)
Theorem burst_fills_the_free_slots (ps : list LogPacket) (q : Queue) :
  let n := default (length ps) (free_slots q) in
  offer_all ps q
  = (replicate (n `min` length ps) 202 ++ replicate (length ps - n) 503,
     {| maxsize := maxsize q; _queue := _queue q ++ take n ps |}).
Proof.
  revert q. induction ps as [|p ps IH]; intros q; cbn zeta.
  { cbn. rewrite Nat.min_0_r, take_nil, !app_nil_r. by destruct q. }
  cbn [offer_all]. unfold ingest_log_packet, put_nowait.
  destruct (full q) eqn:Hfull.
  - apply full_iff in Hfull. rewrite IH. cbn zeta. unfold free_slots.
    replace (maxsize q <=? 0) with false by lia.
    replace (Z.to_nat (maxsize q - qsize q)) with 0%nat by lia.
    cbn. by rewrite Nat.sub_0_r.
  - assert (¬ (0 < maxsize q ≤ qsize q)) as Hroom
      by (rewrite <- full_iff; congruence).
    rewrite IH. cbn zeta. unfold free_slots. cbn [maxsize _queue status_code_of].
    destruct (maxsize q <=? 0) eqn:Hbound; cbn [default].
    + rewrite !Nat.min_id, !Nat.sub_diag. cbn. by rewrite <- app_assoc.
    + assert (qsize {| maxsize := maxsize q; _queue := _queue q ++ [p] |}
              = qsize q + 1) as ->.
      { unfold qsize, len. cbn. rewrite length_app. cbn. lia. }
      assert (∃ m, Z.to_nat (maxsize q - qsize q) = S m
                   ∧ Z.to_nat (maxsize q - (qsize q + 1)) = m) as (m & -> & ->).
      { exists (Z.to_nat (maxsize q - (qsize q + 1))). lia. }
      cbn. by rewrite <- app_assoc.
Qed.

Lemma sum_detail_counts (m : gmap string Z) (l : list Analyzer) :
  sum_Z ((λ a, default 0 (m !! name a)) <$> l) = per_analyzer_total m l.
Proof. induction l as [|a l IH]; [done|]. cbn. f_equal. exact IH. Qed.

(** X18.  The report of /health adds up.  For a bound of the queue other
    than 0 the handler returns a report with one detail per configured
    analyzer, in order; healthy and unhealthy add up to the total; and in
    every reachable state, names being distinct, the packets and the
    messages of the details add up to the two totals of the report. *)
Theorem health_report_adds_up (format_percent : Z → Z → string)
    (settings : Settings) (app : App) :
  reachable (the_distributor app) →
  NoDup (name <$> analyzers (the_distributor app)) →
  MAX_QUEUE_SIZE settings ≠ 0 →
  ∃ r,
    health_check format_percent settings app = inr r
    ∧ report_analyzers_healthy r + report_analyzers_unhealthy r
      = report_analyzers_total r
    ∧ 0 ≤ report_analyzers_unhealthy r
    ∧ detail_name <$> report_analyzer_details r
      = name <$> analyzers (the_distributor app)
    ∧ report_analyzers_healthy r
      = len (List.filter detail_is_healthy (report_analyzer_details r))
    ∧ sum_Z (detail_packets_received <$> report_analyzer_details r)
      = report_total_packets_received r
    ∧ sum_Z (detail_messages_received <$> report_analyzer_details r)
      = report_total_messages_received r.
Proof.
  intros Hd Hnd Hbound. unfold health_check.
  replace (MAX_QUEUE_SIZE settings =? 0) with false by lia.
  eexists. split; [reflexivity|]. cbn.
  unfold get_healthy_analyzers, get_stats.
  set (d := the_distributor app) in *.
  assert (length (List.filter is_healthy (analyzers d)) ≤ length (analyzers d))%nat
    as Hle by apply List.filter_length_le.
  split; [lia|]. split; [unfold len; lia|]. split.
  { rewrite <- list_fmap_compose. by apply list_fmap_ext. }
  split.
  { unfold len. f_equal. clear. induction (analyzers d) as [|a l IH]; [done|].
    cbn. destruct (is_healthy a); cbn; by rewrite IH. }
  destruct (reachable_ledger_inv d Hd) as (Hp & Hpd & Hmd).
  destruct (reachable_messages_inv d Hd) as [Hm _].
  split.
  - change (map ?f ?l) with (f <$> l). rewrite <- list_fmap_compose.
    rewrite Hp, (dict_sum_per_key (analyzers d)) by done.
    apply sum_detail_counts.
  - change (map ?f ?l) with (f <$> l). rewrite <- list_fmap_compose.
    rewrite Hm, (dict_sum_per_key (analyzers d)) by done.
    apply sum_detail_counts.
Qed.

Import config.

Section config_text.
Variable py_sum : list float → float.
Variable py_float : string → option float.
Variable getenv : string → option string.

(** One entry: the error its weight text raises, or the entry built. *)
Lemma entry_cases (n uk ud wk wd : string) :
  let text := default wd (getenv wk) in
  match config_text.entry py_float getenv n uk ud wk wd with
  | inl e => weight_text_raises py_float text e
  | inr a =>
      ∃ w, py_float text = Some w ∧ weight_in_bounds w = true
           ∧ a = {| name := n; url := default ud (getenv uk); weight := w;
                    is_healthy := true |}
  end.
Proof.
  cbn zeta. unfold config_text.entry, weight_text_raises, Analyzer_init,
    weight_in_bounds.
  destruct (py_float (default wd (getenv wk))) as [w|]; [|by left].
  destruct (PrimFloat.leb w 1) eqn:Hle; cbn [negb].
  - destruct (PrimFloat.leb 0 w) eqn:Hge; cbn [negb].
    + exists w. by rewrite Hle, Hge.
    + right; right. by exists w.
  - right; left. by exists w.
Qed.

(** The number [config.get_analyzers] reads for a weight whose text
    gives [w]. *)
Lemma parsed_weight (key fallback_text : string) (fallback w : float) :
  py_float fallback_text = Some fallback →
  py_float (default fallback_text (getenv key)) = Some w →
  default fallback (getenv_float (config_text.parsed py_float getenv) key) = w.
Proof.
  intros Hdefault. cbn. destruct (getenv key) as [text|]; cbn.
  - by intros ->.
  - rewrite Hdefault. by intros [= ->].
Qed.

(** X19.  [get_analyzers] raises exactly when one of the four weight
    texts it reads is not the text of a number between 0.0 and 1.0, and
    the first such text, in the order of the list, decides what is
    raised: the ValueError of [float()] for a text that is no number, the
    [le] error for a number that is not at most 1 (a NaN among them), the
    [ge] error for a number at most 1 that is not at least 0.  When it
    returns, the four texts are numbers within the bounds, the entries
    carry these numbers under the four configured names, and the result
    is the one computed from the parsed environment. *)
Theorem get_analyzers_fails_on_first_bad_weight :
  match config_text.get_analyzers py_sum py_float getenv with
  | inl e =>
      ∃ pre text post,
        weight_texts getenv = pre ++ text :: post
        ∧ Forall (weight_text_ok py_float) pre
        ∧ weight_text_raises py_float text e
  | inr (l, log) =>
      Forall (weight_text_ok py_float) (weight_texts getenv)
      ∧ Some <$> (weight <$> l) = py_float <$> weight_texts getenv
      ∧ name <$> l = ["analyzer-1"; "analyzer-2"; "analyzer-3"; "analyzer-4"]
      ∧ NoDup (name <$> l)
      ∧ (py_float "0.4" = Some 0.4%float → py_float "0.3" = Some 0.3%float →
         py_float "0.2" = Some 0.2%float → py_float "0.1" = Some 0.1%float →
         get_analyzers py_sum (config_text.parsed py_float getenv)
         = inr (l, log))
  end.
Proof.
  unfold config_text.get_analyzers, weight_texts.
  pose proof (entry_cases "analyzer-1" "ANALYZER_1_URL"
                "http://analyzer-1:8001/analyze" "ANALYZER_1_WEIGHT" "0.4") as H1.
  pose proof (entry_cases "analyzer-2" "ANALYZER_2_URL"
                "http://analyzer-2:8002/analyze" "ANALYZER_2_WEIGHT" "0.3") as H2.
  pose proof (entry_cases "analyzer-3" "ANALYZER_3_URL"
                "http://analyzer-3:8003/analyze" "ANALYZER_3_WEIGHT" "0.2") as H3.
  pose proof (entry_cases "analyzer-4" "ANALYZER_4_URL"
                "http://analyzer-4:8004/analyze" "ANALYZER_4_WEIGHT" "0.1") as H4.
  cbn zeta in H1, H2, H3, H4.
  set (t1 := default "0.4" (getenv "ANALYZER_1_WEIGHT")) in *.
  set (t2 := default "0.3" (getenv "ANALYZER_2_WEIGHT")) in *.
  set (t3 := default "0.2" (getenv "ANALYZER_3_WEIGHT")) in *.
  set (t4 := default "0.1" (getenv "ANALYZER_4_WEIGHT")) in *.
  destruct (config_text.entry _ _ "analyzer-1" _ _ _ _) as [e1|a1];
    [by exists [], t1, [t2; t3; t4]|].
  destruct H1 as (w1 & Hp1 & Hb1 & ->).
  assert (weight_text_ok py_float t1) as Hok1 by by exists w1.
  destruct (config_text.entry _ _ "analyzer-2" _ _ _ _) as [e2|a2];
    [exists [t1], t2, [t3; t4]; split; [done|]; split; [|done];
     repeat (constructor; [assumption|]); constructor|].
  destruct H2 as (w2 & Hp2 & Hb2 & ->).
  assert (weight_text_ok py_float t2) as Hok2 by by exists w2.
  destruct (config_text.entry _ _ "analyzer-3" _ _ _ _) as [e3|a3];
    [exists [t1; t2], t3, [t4]; split; [done|]; split; [|done];
     repeat (constructor; [assumption|]); constructor|].
  destruct H3 as (w3 & Hp3 & Hb3 & ->).
  assert (weight_text_ok py_float t3) as Hok3 by by exists w3.
  destruct (config_text.entry _ _ "analyzer-4" _ _ _ _) as [e4|a4];
    [exists [t1; t2; t3], t4, []; split; [done|]; split; [|done];
     repeat (constructor; [assumption|]); constructor|].
  destruct H4 as (w4 & Hp4 & Hb4 & ->).
  assert (weight_text_ok py_float t4) as Hok4 by by exists w4.
  assert (NoDup ["analyzer-1"; "analyzer-2"; "analyzer-3"; "analyzer-4"]) as Hnd.
  { repeat (apply NoDup_cons; split;
            [rewrite ?elem_of_cons, elem_of_nil; intros H;
             intuition discriminate|]).
    apply NoDup_nil_2. }
  assert (py_float "0.4" = Some 0.4%float → py_float "0.3" = Some 0.3%float →
          py_float "0.2" = Some 0.2%float → py_float "0.1" = Some 0.1%float →
          ∀ log,
            (if negb (PrimFloat.leb 0.99 (py_sum [w1; w2; w3; w4])
                      && PrimFloat.leb (py_sum [w1; w2; w3; w4]) 1.01)
             then [weights_sum_warning (py_sum [w1; w2; w3; w4])] else []) = log →
            get_analyzers py_sum (config_text.parsed py_float getenv)
            = inr ([ {| name := "analyzer-1";
                        url := default "http://analyzer-1:8001/analyze"
                                 (getenv "ANALYZER_1_URL");
                        weight := w1; is_healthy := true |};
                     {| name := "analyzer-2";
                        url := default "http://analyzer-2:8002/analyze"
                                 (getenv "ANALYZER_2_URL");
                        weight := w2; is_healthy := true |};
                     {| name := "analyzer-3";
                        url := default "http://analyzer-3:8003/analyze"
                                 (getenv "ANALYZER_3_URL");
                        weight := w3; is_healthy := true |};
                     {| name := "analyzer-4";
                        url := default "http://analyzer-4:8004/analyze"
                                 (getenv "ANALYZER_4_URL");
                        weight := w4; is_healthy := true |} ], log)) as Hlink.
  { intros D1 D2 D3 D4 log <-. unfold get_analyzers.
    rewrite (parsed_weight "ANALYZER_1_WEIGHT" "0.4" _ w1 D1 Hp1).
    rewrite (parsed_weight "ANALYZER_2_WEIGHT" "0.3" _ w2 D2 Hp2).
    rewrite (parsed_weight "ANALYZER_3_WEIGHT" "0.2" _ w3 D3 Hp3).
    rewrite (parsed_weight "ANALYZER_4_WEIGHT" "0.1" _ w4 D4 Hp4).
    rewrite !Analyzer_init_in_bounds by done. cbn [map weight].
    cbn [config.getenv config_text.parsed].
    by destruct (negb _). }
  cbn [map weight].
  destruct (negb _) eqn:Hsum;
    (split; [repeat (constructor; [assumption|]); constructor|]);
    (split; [cbn; by rewrite Hp1, Hp2, Hp3, Hp4|]);
    (split; [done|]); (split; [exact Hnd|]);
    intros D1 D2 D3 D4; apply Hlink; try done; by rewrite Hsum.
Qed.

End config_text.

(* ================================================================== *)
(** ** Further properties: the service under any schedule *)
(* ================================================================== *)

Lemma in_flight_insert (ws : list Worker) (i : nat) (w w' : Worker) :
  ws !! i = Some w →
  len (List.filter busy (<[i := w']> ws))
  = len (List.filter busy ws)
    - (if busy w then 1 else 0) + (if busy w' then 1 else 0).
Proof.
  revert i. induction ws as [|x ws IH]; intros [|i] Hi; try done; cbn in Hi.
  - injection Hi as ->. clear IH. cbn.
    destruct (busy w), (busy w'); unfold len; cbn [length]; lia.
  - change (<[S i := w']> (x :: ws)) with (x :: <[i := w']> ws).
    cbn [List.filter]. specialize (IH i Hi).
    destruct (busy x), (busy w), (busy w'); unfold len in *; cbn [length]; lia.
Qed.

Lemma in_flight_busy (ws : list Worker) (i : nat) (w : Worker) :
  ws !! i = Some w → busy w = true → 1 ≤ len (List.filter busy ws).
Proof.
  revert i. induction ws as [|x ws IH]; intros [|i] Hi Hw; try done; cbn in Hi.
  - injection Hi as ->. clear IH. cbn. rewrite Hw. unfold len. cbn [length]. lia.
  - cbn. specialize (IH i Hi Hw).
    destruct (busy x); unfold len in *; cbn [length]; lia.
Qed.

Lemma holds_configured_names d d' w :
  name <$> analyzers d' = name <$> analyzers d →
  holds_configured d w → holds_configured d' w.
Proof. intros Hn. destruct w; cbn; [done..|]. by rewrite Hn. Qed.

Lemma record_success_configured a p d :
  ledger_inv d → name a ∈ name <$> analyzers d →
  ∃ d', record_success a p d = (None, d')
        ∧ accounted d' = accounted d + 1
        ∧ analyzers d' = analyzers d.
Proof.
  intros (_ & Hp & Hm) Ha.
  assert (name a ∈ (list_to_set (name <$> analyzers d) : gset string)) as Hin
    by by apply elem_of_list_to_set.
  assert (is_Some (packets_per_analyzer (stats d) !! name a)) as [c Hc]
    by (apply elem_of_dom; by rewrite Hp).
  assert (is_Some (messages_per_analyzer (stats d) !! name a)) as [m Hmsg]
    by (apply elem_of_dom; by rewrite Hm).
  unfold record_success. rewrite Hc, Hmsg. eexists. split; [done|].
  unfold accounted. cbn. split; [lia|done].
Qed.

Lemma accepted_packets_cons o os :
  accepted_packets (o :: os) = accepted_packets [o] ++ accepted_packets os.
Proof. unfold accepted_packets. cbn. by rewrite app_nil_r. Qed.

Lemma taken_packets_cons o os :
  taken_packets (o :: os) = taken_packets [o] ++ taken_packets os.
Proof. unfold taken_packets. cbn. by rewrite app_nil_r. Qed.

Lemma raised_packets_cons o os :
  raised_packets (o :: os) = raised_packets [o] ++ raised_packets os.
Proof. unfold raised_packets. cbn. by rewrite app_nil_r. Qed.

Section schedule.
Variable py_sum : list float → float.
Variable settings : Settings.

Local Abbreviation step := (service.step py_sum settings).
Local Abbreviation steps := (service.steps py_sum settings).
Local Abbreviation the_queue := (λ s : System, packet_queue (app_state s)).
Local Abbreviation the_dist := (λ s : System, the_distributor (app_state s)).

Local Abbreviation effect := (schedule_effect settings).

Lemma effect_nil s : consistent s → effect s [] s.
Proof.
  intros Hs. unfold schedule_effect. cbn. rewrite app_nil_r. split; [exact Hs|].
  repeat split; try done; unfold len; cbn; lia.
Qed.

Lemma effect_trans s o s1 os s2 :
  effect s [o] s1 → effect s1 os s2 → effect s (o :: os) s2.
Proof.
  intros (_ & A2 & A3 & A4 & A5 & A6 & A7 & A8 & A9 & A10 & A11)
         (B1 & B2 & B3 & B4 & B5 & B6 & B7 & B8 & B9 & B10 & B11).
  unfold schedule_effect.
  rewrite accepted_packets_cons, taken_packets_cons, raised_packets_cons.
  unfold len in *. rewrite !length_app.
  split; [done|]. split.
  { apply Forall_cons. split; [by apply Forall_cons in A2 as [? _]|done]. }
  split; [lia|]. split; [lia|]. split.
  { intros Hne. destruct (raised_packets [o]) eqn:E1; [|by apply A5].
    apply B5. by rewrite app_nil_l in Hne. }
  split; [by rewrite app_assoc, A6, <- !app_assoc, B6|].
  split; [congruence|]. split.
  { intros Hpos Hle. rewrite <- A7. apply B8; rewrite A7; [done|by apply A8]. }
  split.
  { intros Hb. pose proof (A9 Hb) as H9. apply Forall_cons in H9 as [H9 _].
    apply Forall_cons. split; [done|]. apply B9. by rewrite A7. }
  split; congruence.
Qed.

Ltac effect_simpl :=
  unfold schedule_effect, consistent, queued, in_flight in *;
  cbn [app_state packet_queue unfinished_tasks the_distributor outbox dist
       wire workers maxsize _queue after_distribute emit] in *.

Ltac effect_solve :=
  cbn [accepted_packets taken_packets raised_packets flat_map app busy
       is_task_done_failed is_503];
  rewrite ?app_nil_r;
  repeat split;
  try done;
  try (by repeat constructor);
  try (by rewrite length_insert);
  try (by apply Forall_insert);
  try (unfold qsize, len in *; cbn [length _queue] in *; lia).

(** [distribute] returns in a worker that holds a packet. *)
Lemma effect_returns i p success d' s w :
  consistent s →
  workers s !! i = Some w → busy w = true →
  reachable d' →
  name <$> analyzers d' = name <$> analyzers (the_dist s) →
  accounted d' = accounted (the_dist s) + 1 →
  let '(o, s') := returns i p success d' s in effect s [o] s'.
Proof.
  intros (Hr & Hc & Hu) Hi Hw Hd' Hn Hacc.
  pose proof (in_flight_busy _ _ _ Hi Hw) as Hpos.
  assert (task_done (unfinished_tasks (app_state s))
          = Some (unfinished_tasks (app_state s) - 1)) as Htd.
  { unfold task_done.
    replace (unfinished_tasks (app_state s) <=? 0) with false; [done|].
    unfold in_flight, qsize, len in *. lia. }
  unfold returns. cbn [after_distribute]. rewrite Htd.
  effect_simpl. rewrite (in_flight_insert _ _ w) by done. rewrite Hw.
  effect_solve.
  apply Forall_insert; [|done].
  eapply Forall_impl; [exact Hc|]. intros x. by apply holds_configured_names.
Qed.

(** The tail of a retrying handler in a worker whose POST has ended. *)
Lemma effect_retries i p k rest a s :
  consistent s →
  workers s !! i = Some (awaiting_post p k rest a) →
  let '(o, s') := retries settings i p k rest (the_dist s) s in
  effect s [o] s'.
Proof.
  intros (Hr & Hc & Hu) Hi.
  unfold retries, backoff.
  destruct (k <? MAX_RETRIES settings) eqn:Hk;
    [destruct (1024 <=? k) eqn:Hbig|];
    effect_simpl;
    rewrite (in_flight_insert _ _ (awaiting_post p k rest a)) by done;
    effect_solve.
Qed.

Lemma effect_idle s : consistent s → effect s [silent] s.
Proof.
  intros Hs. unfold schedule_effect. cbn. rewrite app_nil_r. split; [exact Hs|].
  repeat split; try done; try (by repeat constructor); unfold len; cbn; lia.
Qed.

Lemma effect_failure i p s w :
  consistent s → workers s !! i = Some w → busy w = true →
  let '(o, s') := returns i p false (record_failure (the_dist s)) s in
  effect s [o] s'.
Proof.
  intros Hs Hi Hw. apply (effect_returns i p false _ s w); try done.
  - apply reachable_failure, Hs.
  - unfold accounted. cbn. lia.
Qed.

(** One step from a consistent state. *)
Lemma step_effect act s :
  consistent s → let '(o, s') := step act s in effect s [o] s'.
Proof.
  intros Hs. pose proof Hs as (Hr & Hc & Hu).
  destruct act as [packet|i|i rand|i outcome|n b]; cbn [service.step]; cbv zeta.
  - (* /ingest *)
    unfold ingest, ingest_log_packet, put_nowait.
    destruct (full (the_queue s)) eqn:Hfull.
    + apply full_iff in Hfull. effect_simpl. effect_solve.
    + assert (¬ (0 < maxsize (the_queue s) ≤ qsize (the_queue s))) as Hroom
        by (rewrite <- full_iff; congruence).
      effect_simpl. effect_solve;
        unfold qsize, len in *; cbn [_queue] in *; rewrite length_app;
        cbn [length]; lia.
  - (* a worker takes the oldest packet *)
    destruct (workers s !! i) as [[| |]|] eqn:Hi; try by apply effect_idle.
    destruct (_queue (the_queue s)) as [|packet rest] eqn:Hqueue;
      [by apply effect_idle|].
    effect_simpl.
    rewrite (in_flight_insert _ _ waiting_for_packet) by done.
    unfold qsize in *. cbn [_queue] in *. rewrite Hqueue in *.
    effect_solve.
  - (* a worker resumes at the head of its loop *)
    destruct (workers s !! i) as [[|packet [|k rest]|]|] eqn:Hi;
      try by apply effect_idle.
    + by apply (effect_failure i packet s (at_loop_head packet [])).
    + destruct (_select_analyzer py_sum (the_dist s) rand) as [a|] eqn:Hsel;
        [|by apply (effect_failure i packet s (at_loop_head packet (k :: rest)))].
      apply select_analyzer_healthy in Hsel as [Ha _].
      effect_simpl.
      rewrite (in_flight_insert _ _ (at_loop_head packet (k :: rest))) by done.
      effect_solve.
      apply Forall_insert; [done|]. cbn. apply list_elem_of_fmap. eauto.
  - (* the POST of a worker ends *)
    destruct (workers s !! i) as [[| |packet k rest a]|] eqn:Hi;
      try by apply effect_idle.
    assert (name a ∈ name <$> analyzers (the_dist s)) as Ha.
    { apply (Forall_lookup_1 _ _ _ _ Hc) in Hi. exact Hi. }
    destruct outcome as [[| |c| | |]|];
      try by apply (effect_retries i packet k rest a s).
    + destruct (_ && _); [|by apply (effect_retries i packet k rest a s)].
      by apply (effect_failure i packet s (awaiting_post packet k rest a)).
    + destruct (record_success_configured a packet (the_dist s))
        as (d' & Hrs & Hacc & Han); [by apply reachable_ledger_inv|done|].
      rewrite Hrs.
      apply (effect_returns i packet true d' s (awaiting_post packet k rest a));
        try done.
      * replace d' with (snd (record_success a packet (the_dist s)))
          by by rewrite Hrs.
        by apply reachable_success.
      * by rewrite Han.
  - (* the monitor writes a flag *)
    effect_simpl. cbn [update_analyzer_health analyzers].
    rewrite set_health_names. effect_solve.
    eapply Forall_impl; [exact Hc|]. intros x.
    apply holds_configured_names. cbn. by rewrite set_health_names.
Qed.

Lemma steps_effect acts s :
  consistent s → let '(os, s') := steps acts s in effect s os s'.
Proof.
  revert s. induction acts as [|act acts IH]; intros s Hs.
  - cbn. by apply effect_nil.
  - cbn [service.steps]. pose proof (step_effect act s Hs) as H1.
    destruct (step act s) as [o s1].
    pose proof (IH s1 ltac:(apply H1)) as H2.
    destruct (steps acts s1) as [os s2]. by eapply effect_trans.
Qed.

Lemma boot_consistent ANALYZERS : consistent (boot settings ANALYZERS).
Proof.
  unfold consistent, boot, lifespan_startup, in_flight. cbn.
  split; [apply reachable_init|]. split.
  - apply Forall_forall. intros w [-> _]%elem_of_replicate. done.
  - induction (Z.to_nat (NUM_WORKERS settings)) as [|n IH]; cbn; [done|].
    exact IH.
Qed.

Lemma boot_in_flight ANALYZERS : in_flight (boot settings ANALYZERS) = 0.
Proof.
  unfold in_flight, boot. cbn.
  induction (Z.to_nat (NUM_WORKERS settings)) as [|n IH]; cbn; [done|].
  exact IH.
Qed.

(** X20.  No accepted packet is lost or counted twice, however the
    requests, the workers and the monitor are interleaved.  At every
    point of every schedule the packets accepted by /ingest are those
    delivered, those failed, those queued, those in the hands of a worker
    and those whose call ended in an exception; the unfinished tasks of
    the queue are the queued, the held and the excepted ones, so that
    [task_done] never raises; no call ends in an exception when
    [MAX_RETRIES] is at most 1024; and the distributor is in a state
    that the invariants of the ledger cover. *)
Theorem accepted_packets_are_conserved (ANALYZERS : list Analyzer)
    (acts : list Action) :
  let '(os, s) := steps acts (boot settings ANALYZERS) in
  len (accepted_packets os)
  = total_packets_received (ledger s) + failed_sends (ledger s)
    + qsize (the_queue s) + in_flight s + len (raised_packets os)
  ∧ unfinished_tasks (app_state s)
    = qsize (the_queue s) + in_flight s + len (raised_packets os)
  ∧ Forall (λ o, is_task_done_failed o = false) os
  ∧ (MAX_RETRIES settings ≤ 1024 → raised_packets os = [])
  ∧ reachable (the_dist s).
Proof.
  pose proof (steps_effect acts _ (boot_consistent ANALYZERS)) as H.
  destruct (steps acts (boot settings ANALYZERS)) as [os s].
  destruct H as ((Hr & _) & Htd & Hacc & Hun & Hra & _).
  rewrite boot_in_flight in *.
  destruct (init_stats_lookup ANALYZERS DistributorStats_default EmptyString)
    as (_ & _ & Htp & _ & Hf).
  unfold accounted, ledger, boot, lifespan_startup, qsize, len in *.
  cbn in Hacc, Hun, Htp, Hf. rewrite Htp, Hf in Hacc. cbn in Hacc.
  split; [lia|]. split; [lia|]. split; [done|]. split; [|done].
  intros Hsmall. destruct (raised_packets os) eqn:E; [done|].
  assert (1024 < MAX_RETRIES settings) by by apply Hra. lia.
Qed.

(** X21.  The queue is first in, first out across the whole service:
    at every point of every schedule the packets accepted so far, in the
    order of their acceptance, are the packets the workers have taken, in
    the order they took them, followed by the queue.  And a positive
    [MAX_QUEUE_SIZE] bounds the queue at every point. *)
Theorem packets_are_taken_in_the_order_accepted (ANALYZERS : list Analyzer)
    (acts : list Action) :
  let '(os, s) := steps acts (boot settings ANALYZERS) in
  accepted_packets os = taken_packets os ++ queued s
  ∧ (0 < MAX_QUEUE_SIZE settings → qsize (the_queue s) ≤ MAX_QUEUE_SIZE settings).
Proof.
  pose proof (steps_effect acts _ (boot_consistent ANALYZERS)) as H.
  destruct (steps acts (boot settings ANALYZERS)) as [os s].
  destruct H as (_ & _ & _ & _ & _ & Hfifo & _ & Hbound & _).
  split; [exact Hfifo|].
  intros Hpos. apply Hbound; cbn; [done|]. unfold qsize, len. cbn. lia.
Qed.

(** X22.  A [MAX_QUEUE_SIZE] of zero or less removes the backpressure:
    along every schedule no request to /ingest is answered 503, whatever
    the workers do; and with a bound of exactly 0 the division in /health
    raises ZeroDivisionError in every state. *)
Theorem queue_without_bound_never_rejects (ANALYZERS : list Analyzer)
    (acts : list Action) (format_percent : Z → Z → string) :
  MAX_QUEUE_SIZE settings ≤ 0 →
  let '(os, s) := steps acts (boot settings ANALYZERS) in
  Forall (λ o, is_503 o = false) os
  ∧ len (accepted_packets os)
    = len (List.filter (λ a, match a with request_ingest _ => true | _ => false end)
             acts)
  ∧ (MAX_QUEUE_SIZE settings = 0 →
     health_check format_percent settings (app_state s) = inl division_by_zero).
Proof.
  intros Hb.
  pose proof (steps_effect acts _ (boot_consistent ANALYZERS)) as H.
  assert (∀ s, maxsize (the_queue s) ≤ 0 →
            len (accepted_packets (fst (steps acts s)))
            = len (List.filter
                     (λ a, match a with request_ingest _ => true | _ => false end)
                     acts)) as Hcount.
  { clear H. induction acts as [|act acts IH]; intros s Hs; [done|].
    cbn [service.steps].
    assert (maxsize (the_queue (snd (step act s))) = maxsize (the_queue s)
            ∧ len (accepted_packets [fst (step act s)])
              = if match act with request_ingest _ => true | _ => false end
                then 1 else 0) as [Hm Hone].
    { destruct act as [packet|i|i rand|i outcome|n b]; cbn [service.step]; cbv zeta.
      - unfold ingest, ingest_log_packet, put_nowait, full.
        replace (maxsize (the_queue s) <=? 0) with true by lia. done.
      - destruct (workers s !! i) as [[| |]|]; try done.
        by destruct (_queue (the_queue s)).
      - destruct (workers s !! i) as [[|packet [|k rest]|]|]; try done.
        + unfold returns. by destruct (task_done _).
        + destruct (_select_analyzer _ _ _); [done|].
          unfold returns. by destruct (task_done _).
      - assert (∀ i p k rest d,
                  maxsize (the_queue (snd (retries settings i p k rest d s)))
                  = maxsize (the_queue s)
                  ∧ len (accepted_packets
                           [fst (retries settings i p k rest d s)]) = 0)
          as Hretry.
        { intros. unfold retries. by destruct (backoff _ _ _ _). }
        assert (∀ i p b d,
                  maxsize (the_queue (snd (returns i p b d s)))
                  = maxsize (the_queue s)
                  ∧ len (accepted_packets [fst (returns i p b d s)]) = 0)
          as Hreturn.
        { intros. unfold returns. by destruct (task_done _). }
        destruct (workers s !! i) as [[| |packet k rest a]|]; try done.
        destruct outcome as [[| |c| | |]|]; try apply Hretry.
        + destruct (_ && _); [apply Hreturn|apply Hretry].
        + destruct (record_success _ _ _) as [[e|] d'];
            [apply Hretry|apply Hreturn].
      - done. }
    destruct (step act s) as [o s1]. cbn [fst snd] in *.
    specialize (IH s1 ltac:(lia)).
    destruct (steps acts s1) as [os s2]. cbn [fst] in *.
    rewrite accepted_packets_cons. unfold len in *. rewrite length_app.
    cbn [List.filter].
    destruct (match act with request_ingest _ => true | _ => false end);
      cbn [length]; lia. }
  specialize (Hcount (boot settings ANALYZERS) Hb).
  destruct (steps acts (boot settings ANALYZERS)) as [os s].
  destruct H as (_ & _ & _ & _ & _ & _ & _ & _ & Hnever & _).
  split; [by apply Hnever|]. split; [exact Hcount|].
  intros Hzero. unfold health_check. by rewrite Hzero.
Qed.

(** *** A worker that runs alone *)

Section alone.
Variable env : Env.
Variable i : nat.

Local Abbreviation run_alone := (service.run_alone py_sum settings).
Local Abbreviation loop p :=
  (distribute_loop py_sum env p (MAX_RETRIES settings) (RETRY_DELAY settings)).

Lemma run_alone_waiting fuel s :
  workers s !! i = Some waiting_for_packet → run_alone fuel env i s = s.
Proof.
  intros Hi. destruct fuel; [done|]. cbn. unfold next_action. by rewrite Hi.
Qed.

Lemma run_alone_S fuel s act :
  next_action env i s = Some act →
  run_alone (S fuel) env i s = run_alone fuel env i (snd (step act s)).
Proof. intros Hact. cbn. by rewrite Hact. Qed.

Lemma run_alone_returns fuel p b d s w :
  workers s !! i = Some w →
  run_alone fuel env i (snd (returns i p b d s))
  = {| app_state :=
         after_distribute (the_queue s) (unfinished_tasks (app_state s))
           (inr b, {| dist := d; wire := outbox (app_state s) |});
       workers := <[i := waiting_for_packet]> (workers s) |}.
Proof.
  intros Hi. unfold returns. cbn [snd]. apply run_alone_waiting.
  cbn [workers]. apply list_lookup_insert_eq. by eapply lookup_lt_Some.
Qed.

(** From the head of the loop to the end of the call. *)
Lemma run_alone_loop p attempts fuel s :
  workers s !! i = Some (at_loop_head p attempts) →
  (2 * length attempts + 1 ≤ fuel)%nat →
  run_alone fuel env i s
  = {| app_state :=
         after_distribute (the_queue s) (unfinished_tasks (app_state s))
           (loop p attempts
              {| dist := the_dist s; wire := outbox (app_state s) |});
       workers := <[i := waiting_for_packet]> (workers s) |}.
Proof.
  revert fuel s. induction attempts as [|k rest IH]; intros fuel s Hi Hfuel.
  - destruct fuel as [|fuel]; [cbn in Hfuel; lia|].
    rewrite (run_alone_S _ _ (worker_resumes i 0))
      by (unfold next_action; by rewrite Hi).
    unfold service.step. rewrite Hi.
    by rewrite (run_alone_returns _ _ _ _ _ _ Hi).
  - destruct fuel as [|fuel]; [cbn in Hfuel; lia|].
    cbn [length] in Hfuel.
    rewrite (run_alone_S _ _ (worker_resumes i (uniform env k)))
      by (unfold next_action; by rewrite Hi).
    unfold service.step. rewrite Hi. cbn [distribute_loop dist wire]. cbv zeta.
    destruct (_select_analyzer py_sum (the_dist s) (uniform env k))
      as [a|] eqn:Hsel.
    2:{ by rewrite (run_alone_returns _ _ _ _ _ _ Hi). }
    destruct fuel as [|fuel]; [lia|].
    cbn [snd].
    set (s1 := {| app_state := _; workers := _ |}).
    assert (workers s1 !! i = Some (awaiting_post p k rest a)) as Hi1.
    { cbn. apply list_lookup_insert_eq. by eapply lookup_lt_Some. }
    assert (<[i := waiting_for_packet]> (workers s1)
            = <[i := waiting_for_packet]> (workers s)) as Hws
      by apply list_insert_insert_eq.
    assert (∀ d',
              run_alone fuel env i (snd (retries settings i p k rest d' s1))
              = {| app_state :=
                     after_distribute (the_queue s)
                       (unfinished_tasks (app_state s))
                       match backoff k (MAX_RETRIES settings)
                               (RETRY_DELAY settings)
                               {| dist := d'; wire := outbox (app_state s1) |}
                       with
                       | inl e =>
                           (inl e, {| dist := d'; wire := outbox (app_state s1) |})
                       | inr w => loop p rest w
                       end;
                   workers := <[i := waiting_for_packet]> (workers s) |})
      as Hretry.
    { intros d'. unfold retries.
      destruct (backoff k _ _ _) as [e|w]; cbn [snd].
      - rewrite run_alone_waiting; [by rewrite Hws|].
        cbn. apply list_lookup_insert_eq. rewrite length_insert.
        by eapply lookup_lt_Some.
      - rewrite IH; [| |lia].
        + cbn [app_state packet_queue unfinished_tasks the_distributor outbox
            workers]. rewrite list_insert_insert_eq, Hws. by destruct w.
        + cbn. apply list_lookup_insert_eq. rewrite length_insert.
          by eapply lookup_lt_Some. }
    rewrite (run_alone_S _ _ (post_returns i (post env k a p)))
      by (unfold next_action; by rewrite Hi1).
    unfold service.step. rewrite Hi1.
    unfold _send_to_analyzer, emit. cbn [dist wire].
    assert (∀ b d,
              run_alone fuel env i (snd (returns i p b d s1))
              = {| app_state :=
                     after_distribute (the_queue s)
                       (unfinished_tasks (app_state s))
                       (inr b, {| dist := d; wire := outbox (app_state s1) |});
                   workers := <[i := waiting_for_packet]> (workers s) |})
      as Hreturn.
    { intros b d. by rewrite (run_alone_returns _ _ _ _ _ _ Hi1), Hws. }
    destruct (post env k a p) as [[| |c| | |]|]; try apply Hretry.
    + destruct (_ && _); [apply Hreturn|apply Hretry].
    + change (the_distributor (app_state s1))
        with (the_distributor (app_state s)).
      cbn [dist].
      destruct (record_success a p (the_distributor (app_state s)))
        as [[e|] d'];
        [exact (Hretry d')|exact (Hreturn true d')].
Qed.

(** X23.  A worker that nobody interrupts does what a call of
    [distribute] does.  Taking the oldest packet and then running the
    steps of this worker alone, the POSTs answered and the draws made as
    the world of the call has them, leaves the application in the state
    of one whole turn of [queue_worker], and the worker waiting again,
    within [2 * (MAX_RETRIES + 1) + 1] steps. *)
Theorem worker_alone_is_a_call_of_distribute (s : System) :
  workers s !! i = Some waiting_for_packet →
  let s1 := snd (step (worker_takes i) s) in
  let s2 :=
    run_alone (2 * Z.to_nat (MAX_RETRIES settings + 1) + 1) env i s1 in
  app_state s2 = queue_worker_turn py_sum settings env (app_state s)
  ∧ workers s2 = workers s.
Proof.
  intros Hi. cbn zeta. unfold service.step, queue_worker_turn. rewrite Hi.
  destruct (_queue (the_queue s)) as [|p rest] eqn:Hq; cbn [snd].
  - by rewrite run_alone_waiting.
  - rewrite (run_alone_loop p (range (MAX_RETRIES settings + 1))).
    + cbn [app_state packet_queue unfinished_tasks the_distributor outbox
        workers]. split; [done|].
      rewrite list_insert_insert_eq. by apply list_insert_id.
    + cbn. apply list_lookup_insert_eq. by eapply lookup_lt_Some.
    + rewrite length_range. lia.
Qed.

End alone.

End schedule.

(* ================================================================== *)
(** ** Further properties: the traffic of the service *)
(* ================================================================== *)

Lemma attempts_left_insert (ws : list Worker) (i : nat) (w w' : Worker) :
  ws !! i = Some w →
  sum_Z (attempts_left <$> <[i := w']> ws)
  = sum_Z (attempts_left <$> ws) - attempts_left w + attempts_left w'.
Proof.
  revert i. induction ws as [|x ws IH]; intros [|i] Hi; try done; cbn in Hi.
  - injection Hi as ->. cbn. lia.
  - change (<[S i := w']> (x :: ws)) with (x :: <[i := w']> ws).
    rewrite !fmap_cons. cbn [sum_Z foldr]. fold (sum_Z (attempts_left <$> ws)).
    fold (sum_Z (attempts_left <$> <[i := w']> ws)).
    rewrite (IH i Hi). lia.
Qed.

Lemma attempts_left_nonneg (w : Worker) : 0 ≤ attempts_left w.
Proof. destruct w; cbn [attempts_left]; unfold len; lia. Qed.

Lemma set_health_urls n b l : url <$> set_health n b l = url <$> l.
Proof.
  induction l as [|a l IH]; [done|]. cbn [set_health].
  destruct (decide (name a = n)); cbn; [done|]. by rewrite IH.
Qed.

Lemma to_configured_urls d d' e :
  url <$> analyzers d' = url <$> analyzers d →
  to_configured d e → to_configured d' e.
Proof. intros Hu. destruct e; cbn; [|done]. by rewrite Hu. Qed.

Lemma to_configured_same d d' out :
  analyzers d' = analyzers d →
  Forall (to_configured d) out → Forall (to_configured d') out.
Proof.
  intros Han Hall. eapply Forall_impl; [exact Hall|]. intros e.
  apply to_configured_urls. by rewrite Han.
Qed.

Section traffic.
Variable py_sum : list float → float.
Variable settings : Settings.

Local Abbreviation step := (service.step py_sum settings).
Local Abbreviation steps := (service.steps py_sum settings).
Local Abbreviation budget := (Z.max 0 (MAX_RETRIES settings + 1)).
Local Abbreviation traffic := (traffic_effect budget).

Ltac traffic_simpl :=
  unfold traffic_effect, attempts_left_total;
  cbn [app_state packet_queue unfinished_tasks the_distributor outbox dist
       wire workers after_distribute emit].

Ltac traffic_solve :=
  cbn [attempts_left taken_packets flat_map app];
  unfold len in *; cbn [length];
  split; [lia|]; split; [done|];
  first [done
        |let H := fresh in
         intros H; eapply to_configured_same; [|exact H]; done].

Lemma traffic_idle s : traffic s [silent] s.
Proof. traffic_simpl. traffic_solve. Qed.

Lemma traffic_returns i p b d' s w :
  workers s !! i = Some w →
  analyzers d' = analyzers (the_distributor (app_state s)) →
  let '(o, s') := returns i p b d' s in traffic s [o] s'.
Proof.
  intros Hi Han. unfold returns. traffic_simpl.
  rewrite (attempts_left_insert _ _ w) by done. rewrite Han.
  pose proof (attempts_left_nonneg w).
  destruct (task_done _); traffic_solve.
Qed.

Lemma traffic_retries i p k rest a d' s :
  workers s !! i = Some (awaiting_post p k rest a) →
  analyzers d' = analyzers (the_distributor (app_state s)) →
  let '(o, s') := retries settings i p k rest d' s in traffic s [o] s'.
Proof.
  intros Hi Han. unfold retries, backoff.
  assert (0 ≤ len rest) by (unfold len; lia).
  destruct (k <? MAX_RETRIES settings); [destruct (1024 <=? k)|];
    traffic_simpl;
    rewrite (attempts_left_insert _ _ (awaiting_post p k rest a)) by done;
    rewrite Han; cbn [attempts_left taken_packets flat_map app].
  - traffic_solve.
  - unfold posts. rewrite List.filter_app. cbn [List.filter is_post].
    rewrite app_nil_r. split; [unfold len in *; cbn [length]; lia|].
    split; [done|]. intros Hall. apply Forall_app.
    split; [eapply to_configured_same; [|exact Hall]; done|].
    by repeat constructor.
  - traffic_solve.
Qed.

Lemma step_traffic act s : let '(o, s') := step act s in traffic s [o] s'.
Proof.
  destruct act as [packet|i|i rand|i outcome|n b]; cbn [service.step]; cbv zeta.
  - (* /ingest *)
    unfold ingest. destruct (ingest_log_packet packet _) as [[c body|c detail] q];
      traffic_simpl; traffic_solve.
  - (* a worker takes the oldest packet *)
    destruct (workers s !! i) as [[| |]|] eqn:Hi; try apply traffic_idle.
    destruct (_queue (packet_queue (app_state s))) as [|packet rest];
      [apply traffic_idle|].
    traffic_simpl.
    rewrite (attempts_left_insert _ _ waiting_for_packet) by done.
    cbn [attempts_left taken_packets flat_map app]. unfold len.
    rewrite length_range. cbn [length]. split; [lia|done].
  - (* a worker resumes at the head of its loop *)
    destruct (workers s !! i) as [[|packet [|k rest]|]|] eqn:Hi;
      try apply traffic_idle.
    + by apply (traffic_returns i packet false _ s (at_loop_head packet [])).
    + destruct (_select_analyzer py_sum _ rand) as [a|] eqn:Hsel;
        [|by apply (traffic_returns i packet false _ s
                      (at_loop_head packet (k :: rest)))].
      apply select_analyzer_healthy in Hsel as [Ha _].
      traffic_simpl.
      rewrite (attempts_left_insert _ _ (at_loop_head packet (k :: rest)))
        by done.
      cbn [attempts_left taken_packets flat_map app].
      unfold posts. rewrite List.filter_app. cbn [List.filter is_post].
      unfold len. rewrite length_app. cbn [length].
      split; [lia|]. split; [done|]. intros Hall.
      apply Forall_app. split; [done|]. constructor; [|constructor].
      cbn. apply list_elem_of_fmap. eauto.
  - (* the POST of a worker ends *)
    destruct (workers s !! i) as [[| |packet k rest a]|] eqn:Hi;
      try apply traffic_idle.
    destruct outcome as [[| |c| | |]|];
      try by apply (traffic_retries i packet k rest a _ s).
    + destruct (_ && _); [|by apply (traffic_retries i packet k rest a _ s)].
      by apply (traffic_returns i packet false _ s
                  (awaiting_post packet k rest a)).
    + pose proof (analyzers_record_success a packet
                    (the_distributor (app_state s))) as Han.
      destruct (record_success a packet _) as [[e|] d']; cbn [snd] in Han.
      * by apply (traffic_retries i packet k rest a d' s).
      * by apply (traffic_returns i packet true d' s
                    (awaiting_post packet k rest a)).
  - (* the monitor writes a flag *)
    traffic_simpl. cbn [update_analyzer_health analyzers].
    rewrite set_health_urls. cbn [taken_packets flat_map app]. unfold len.
    cbn [length]. split; [lia|]. split; [done|].
    intros Hall. eapply Forall_impl; [exact Hall|]. intros e.
    apply to_configured_urls. cbn. by rewrite set_health_urls.
Qed.

Lemma steps_traffic acts s : let '(os, s') := steps acts s in traffic s os s'.
Proof.
  revert s. induction acts as [|act acts IH]; intros s.
  - cbn [service.steps]. unfold traffic_effect.
    cbn [taken_packets flat_map]. unfold len. cbn [length]. split; [lia|done].
  - cbn [service.steps]. pose proof (step_traffic act s) as H1.
    destruct (step act s) as [o s1]. specialize (IH s1).
    destruct (steps acts s1) as [os s2].
    destruct H1 as (A1 & A2 & A3), IH as (B1 & B2 & B3).
    unfold traffic_effect. rewrite taken_packets_cons.
    unfold len in *. rewrite length_app.
    split; [lia|]. split; [congruence|]. auto.
Qed.

(** X24.  The retry policy bounds the traffic of the whole service.
    Under every interleaving of requests, workers and monitor, the POSTs
    sent so far are at most [MAX_RETRIES + 1] for each packet that a
    worker has taken, and every one of them went to the URL of a
    configured analyzer. *)
Theorem service_posts_are_bounded_per_packet (ANALYZERS : list Analyzer)
    (acts : list Action) :
  let '(os, s) := steps acts (boot settings ANALYZERS) in
  len (posts (outbox (app_state s))) ≤ budget * len (taken_packets os)
  ∧ Forall (λ e, match e with
                 | EvPost u _ => u ∈ url <$> ANALYZERS
                 | EvSleep _ _ => True
                 end) (outbox (app_state s)).
Proof.
  pose proof (steps_traffic acts (boot settings ANALYZERS)) as H.
  destruct (steps acts (boot settings ANALYZERS)) as [os s].
  destruct H as (Hcount & Hurls & Hall).
  assert (attempts_left_total (boot settings ANALYZERS) = 0) as Hzero.
  { unfold attempts_left_total, boot. cbn [workers].
    induction (Z.to_nat (NUM_WORKERS settings)) as [|n IH]; [done|exact IH]. }
  assert (0 ≤ attempts_left_total s) as Hleft.
  { unfold attempts_left_total.
    induction (workers s) as [|w ws IH]; [done|]. rewrite fmap_cons.
    cbn [sum_Z foldr]. fold (sum_Z (attempts_left <$> ws)).
    pose proof (attempts_left_nonneg w). lia. }
  rewrite Hzero in Hcount. cbn [boot lifespan_startup app_state outbox posts
    List.filter] in Hcount. unfold len in *. cbn [length] in Hcount.
  split; [lia|].
  specialize (Hall ltac:(constructor)).
  eapply Forall_impl; [exact Hall|]. intros [u p|]; [|done].
  unfold to_configured. by rewrite Hurls.
Qed.

End traffic.

(* ================================================================== *)
(** ** Concrete runs *)
(* ================================================================== *)

(** The example of the docstring of [_select_analyzer]: weights
    0.4, 0.3, 0.3 and a draw of 0.55 select the second analyzer. *)
Example select_docstring_example :
  _select_analyzer sum_left_to_right
    (__init__
       [analyzer_1; analyzer_2;
        {| name := "analyzer-3"; url := "http://analyzer-3:8003/analyze";
           weight := 0.3; is_healthy := true |}] 5)
    0.55
  = Some analyzer_2.
Proof. vm_compute. reflexivity. Qed.

(** With analyzer-2 out, the same draw falls to analyzer-3. *)
Example select_skips_unhealthy :
  _select_analyzer sum_left_to_right
    (update_analyzer_health "analyzer-2" false sample_distributor) 0.55
  = Some analyzer_3.
Proof. vm_compute. reflexivity. Qed.

(** A draw at or above every cumulative weight takes the fallback. *)
Example select_fallback :
  _select_analyzer sum_left_to_right sample_distributor 7 = Some analyzer_4.
Proof. vm_compute. reflexivity. Qed.

Example health_url_example :
  health_url "http://host:8001/analyze" = Some "http://host:8001/health".
Proof. reflexivity. Qed.

Example ingest_backpressure_example :
  ingest_log_packet sample_packet (sample_queue 1 [sample_packet])
  = (HTTPException 503 "Queue is full, please retry later",
     sample_queue 1 [sample_packet]).
Proof. reflexivity. Qed.

Example ingest_accept_example :
  fst (ingest_log_packet sample_packet (sample_queue 5000 []))
  = Returned 202
      [("status", "accepted"); ("packet_id", "packet-001");
       ("message", "Packet queued for distribution (2 messages)")].
Proof. reflexivity. Qed.

(** What waiting is: a coroutine that awaits [put] on a full queue is
    left without a result, the packet not enqueued; the handler on the
    same queue answers 503 after its one call of [put_nowait]. *)
Example await_put_waits_on_full_queue :
  let q := sample_queue 1 [sample_packet] in
  run_result (run_coroutine (Await_put sample_packet (Done (Returned 202 []))) q)
  = None
  ∧ run_result (run_coroutine (ingest_log_packet_coroutine sample_packet) q)
    = Some (HTTPException 503 "Queue is full, please retry later")
  ∧ run_calls (run_coroutine (ingest_log_packet_coroutine sample_packet) q)
    = [called_put_nowait sample_packet].
Proof. repeat split; reflexivity. Qed.

Lemma sample_names_distinct : NoDup (name <$> analyzers sample_distributor).
Proof.
  cbn. repeat (apply NoDup_cons; split;
    [rewrite ?elem_of_cons, elem_of_nil; intros H; intuition discriminate|]).
  apply NoDup_nil_2.
Defined.

(** C2 at work: analyzer-2 is marked unhealthy, then a packet is
    distributed, analyzer-1 is marked healthy and the statistics are
    read; no selection after these calls returns analyzer-2. *)
Lemma unhealthy_analyzer_never_selected_witness :
  NoDup (name <$> analyzers sample_distributor)
  ∧ Forall (λ c, marks_healthy "analyzer-2" c = false)
      [call_distribute (constant_env 0.55 None) sample_packet 2 0.5;
       call_update_analyzer_health "analyzer-1" true;
       call_get_stats]
  ∧ ∀ r a,
      _select_analyzer sum_left_to_right
        (run_all sum_left_to_right
           [call_distribute (constant_env 0.55 None) sample_packet 2 0.5;
            call_update_analyzer_health "analyzer-1" true;
            call_get_stats]
           (update_analyzer_health "analyzer-2" false sample_distributor)) r
      = Some a →
      name a ≠ "analyzer-2".
Proof.
  assert (Forall (λ c, marks_healthy "analyzer-2" c = false)
            [call_distribute (constant_env 0.55 None) sample_packet 2 0.5;
             call_update_analyzer_health "analyzer-1" true;
             call_get_stats]) as Hcalls by (repeat constructor).
  split; [exact sample_names_distinct|]. split; [exact Hcalls|].
  intros r a.
  exact (proj2 (proj2 (unhealthy_analyzer_never_selected sum_left_to_right
                         sample_distributor))
           "analyzer-2" _ r a sample_names_distinct Hcalls).
Defined.

(** The run on which C3 fails as first stated: the first POST is
    answered 400 while two retries remain and all four analyzers are
    healthy, and [failed_sends] goes from 0 to 1. *)
Lemma failed_sends_incremented_by_client_error :
  let '(ok, w') :=
    distribute sum_left_to_right
      (constant_env 0.55 (Some (HTTPStatusError 400))) sample_packet 2 0.5
      {| dist := sample_distributor; wire := [] |} in
  ok = inr false
  ∧ failed_sends (stats sample_distributor) = 0
  ∧ failed_sends (stats (dist w')) = 1
  ∧ wire w' = [EvPost "http://analyzer-2:8002/analyze" "packet-001"]
  ∧ len (wire w') < 2 + 1
  ∧ healthy sample_distributor
    = [analyzer_1; analyzer_2; analyzer_3; analyzer_4].
Proof. vm_compute. repeat split; reflexivity. Qed.

Lemma failed_sends_incremented_only_on_failure_witness :
  reachable sample_distributor
  ∧ let '(ok, w') :=
    distribute sum_left_to_right
      (constant_env 0.55 (Some (HTTPStatusError 400))) sample_packet 2 0.5
      {| dist := sample_distributor; wire := [] |} in
  failed_sends (stats (dist w')) ≠ failed_sends (stats sample_distributor) →
  ok = inr false
  ∧ failed_sends (stats (dist w')) = failed_sends (stats sample_distributor) + 1
  ∧ ((∀ j, 0 ≤ j ≤ 2 →
        is_retry (verdict sum_left_to_right
                    (constant_env 0.55 (Some (HTTPStatusError 400)))
                    sample_packet sample_distributor j) = true)
     ∨ ∃ k, 0 ≤ k ≤ 2
         ∧ (∀ j, 0 ≤ j < k →
              is_retry (verdict sum_left_to_right
                          (constant_env 0.55 (Some (HTTPStatusError 400)))
                          sample_packet sample_distributor j) = true)
         ∧ (_select_analyzer sum_left_to_right sample_distributor
              (uniform (constant_env 0.55 (Some (HTTPStatusError 400))) k) = None
            ∨ ∃ a c,
                _select_analyzer sum_left_to_right sample_distributor
                  (uniform (constant_env 0.55 (Some (HTTPStatusError 400))) k)
                = Some a
                ∧ post (constant_env 0.55 (Some (HTTPStatusError 400))) k a
                    sample_packet = Some (HTTPStatusError c)
                ∧ 400 ≤ c < 500)).
Proof.
  split; [apply reachable_init|].
  apply (failed_sends_incremented_only_on_failure sum_left_to_right
           (constant_env 0.55 (Some (HTTPStatusError 400))) sample_packet 2 0.5
           sample_distributor).
  apply reachable_init.
Defined.

(** C4 at work: a 400 on the first attempt, with two retries left. *)
Lemma client_error_is_not_retried_witness :
  let '(ok, w') :=
    distribute sum_left_to_right
      (constant_env 0.55 (Some (HTTPStatusError 400))) sample_packet 2 0.5
      {| dist := sample_distributor; wire := [] |} in
  ok = inr false
  ∧ last (wire w') = Some (EvPost (url analyzer_2) (packet_id sample_packet))
  ∧ posts (wire w')
    = selected_posts sum_left_to_right
        (constant_env 0.55 (Some (HTTPStatusError 400))) sample_packet
        sample_distributor (range (0 + 1))
  ∧ len (posts (wire w')) = 0 + 1
  ∧ stats (dist w') = stats_after_failure (stats sample_distributor)
  ∧ analyzers (dist w') = analyzers sample_distributor.
Proof.
  apply (client_error_is_not_retried sum_left_to_right
           (constant_env 0.55 (Some (HTTPStatusError 400))) sample_packet 2 0.5
           sample_distributor 0 analyzer_2 400).
  - lia.
  - lia.
  - intros j Hj. lia.
  - vm_compute. reflexivity.
  - reflexivity.
  - lia.
Defined.

(** [max_retries = 2] and a downstream that always answers 500: three
    POSTs, then one failed send. *)
Lemma retries_exhausted_after_all_attempts_witness :
  let '(ok, w') :=
    distribute sum_left_to_right
      (constant_env 0.55 (Some (HTTPStatusError 500))) sample_packet 2 0.5
      {| dist := sample_distributor; wire := [] |} in
  ok = inr false
  ∧ len (posts (wire w')) = 2 + 1
  ∧ posts (wire w')
    = selected_posts sum_left_to_right
        (constant_env 0.55 (Some (HTTPStatusError 500))) sample_packet
        sample_distributor (range (2 + 1))
  ∧ stats (dist w') = stats_after_failure (stats sample_distributor)
  ∧ analyzers (dist w') = analyzers sample_distributor.
Proof.
  apply (retries_exhausted_after_all_attempts sum_left_to_right
           (constant_env 0.55 (Some (HTTPStatusError 500))) sample_packet 2 0.5
           sample_distributor).
  - lia.
  - lia.
  - intros j _. vm_compute. discriminate.
  - intros j a _ _. exists (HTTPStatusError 500). split; reflexivity.
Defined.

(** The same run, evaluated: the three POSTs and the two waits. *)
Example always_500_three_requests :
  distribute sum_left_to_right
    (constant_env 0.55 (Some (HTTPStatusError 500))) sample_packet 2 0.5
    {| dist := sample_distributor; wire := [] |}
  = (inr false,
     {| dist := record_failure sample_distributor;
        wire := [EvPost "http://analyzer-2:8002/analyze" "packet-001";
                 EvSleep 0.5 0;
                 EvPost "http://analyzer-2:8002/analyze" "packet-001";
                 EvSleep 0.5 1;
                 EvPost "http://analyzer-2:8002/analyze" "packet-001"] |}).
Proof. vm_compute. reflexivity. Qed.

(** C6 at work: the ledger after one delivery to analyzer-2, and the
    delivery itself. *)
Lemma total_packets_is_per_analyzer_sum_witness :
  let d := snd (record_success analyzer_2 sample_packet sample_distributor) in
  reachable d
  ∧ total_packets_received (stats d) = dict_sum (packets_per_analyzer (stats d))
  ∧ dom (packets_per_analyzer (stats d)) = list_to_set (name <$> analyzers d)
  ∧ (NoDup (name <$> analyzers d) →
     total_packets_received (stats d)
     = per_analyzer_total (packets_per_analyzer (stats d)) (analyzers d))
  ∧ total_packets_received (stats d) = 1
  ∧ packets_per_analyzer (stats d) !! "analyzer-2" = Some 1
  ∧ (∃ c,
       packets_per_analyzer (stats d) !! name analyzer_1 = Some c
       ∧ fst (record_success analyzer_1 sample_packet d) = None
       ∧ total_packets_received
           (stats (snd (record_success analyzer_1 sample_packet d)))
         = total_packets_received (stats d) + 1
       ∧ packets_per_analyzer
           (stats (snd (record_success analyzer_1 sample_packet d)))
         = <[name analyzer_1 := c + 1]> (packets_per_analyzer (stats d))).
Proof.
  intros d.
  assert (reachable d) as Hd.
  { apply reachable_success; [apply reachable_init|].
    cbn. apply list_elem_of_In. cbn. tauto. }
  split; [exact Hd|].
  destruct (total_packets_is_per_analyzer_sum sum_left_to_right d Hd)
    as (Hsum & Hdom & Hread & _ & Hsuccess & _).
  split; [exact Hsum|]. split; [exact Hdom|]. split; [exact Hread|].
  split; [reflexivity|]. split; [reflexivity|].
  apply Hsuccess. apply list_elem_of_In. vm_compute. tauto.
Defined.

(** C8 at work, on the URL of the interface description. *)
Lemma probe_healthy_iff_status_200_witness :
  let analyzer :=
    {| name := "analyzer-1"; url := "http://host:8001/analyze";
       weight := 0.4; is_healthy := true |} in
  let client := λ _ : string, Response 200 in
  ∃ target,
    health_url (url analyzer) = Some target
    ∧ (_check_analyzer_health client analyzer = true
       ↔ client target = Response 200)
    ∧ target = "http://host:8001/health".
Proof.
  intros analyzer client.
  destruct (probe_healthy_iff_status_200 client analyzer)
    as (target & Htarget & Hiff & Hurl).
  exists target. split; [exact Htarget|]. split; [exact Hiff|].
  apply (Hurl "http://host:8001" "analyze"); reflexivity.
Defined.

(** The weight on which C9 fails as first stated: 1.5 is not negative,
    yet no entry is built for it, and a start with
    [ANALYZER_1_WEIGHT=1.5] ends in the validation error. *)
Lemma weight_above_one_is_rejected :
  PrimFloat.leb 0 1.5 = true
  ∧ Analyzer_init "analyzer-1" "http://analyzer-1:8001/analyze" 1.5 true
    = inl (less_than_equal "weight")
  ∧ get_analyzers sum_left_to_right
      (environ_with_weight "ANALYZER_1_WEIGHT" 1.5)
    = inl (less_than_equal "weight").
Proof. repeat split; vm_compute; reflexivity. Qed.

(** C9 as amended, at work: four weights of 1.0 sum to 4.0; the
    entries are built and the log holds the warning. *)
Lemma analyzers_built_for_weights_in_bounds_witness :
  let environ :=
    {| getenv := λ _, None; getenv_float := λ _, Some 1%float |} in
  ∃ analyzers,
    map weight analyzers = [1; 1; 1; 1]%float
    ∧ get_analyzers sum_left_to_right environ
      = inr (analyzers, [weights_sum_warning 4]).
Proof.
  intros environ.
  destruct (proj2 (analyzers_built_for_weights_in_bounds sum_left_to_right)
              environ) as (l & _ & Hw & _ & Hget); try reflexivity.
  exists l. split; [exact Hw|exact Hget].
Defined.

(** A delivery to analyzer-2 changes the ledger the first way. *)
Lemma distribute_changes_ledger_one_of_two_ways_witness :
  let '(ok, w') :=
    distribute sum_left_to_right (constant_env 0.55 None) sample_packet 2 0.5
      {| dist := sample_distributor; wire := [] |} in
  analyzers (dist w') = analyzers sample_distributor
  ∧ ((ok = inr true
      ∧ ∃ a c m,
          a ∈ analyzers sample_distributor
          ∧ packets_per_analyzer (stats sample_distributor) !! name a = Some c
          ∧ messages_per_analyzer (stats sample_distributor) !! name a = Some m
          ∧ stats (dist w')
            = stats_after_success (name a) c m (len (messages sample_packet))
                (stats sample_distributor))
     ∨ (ok = inr false
        ∧ stats (dist w') = stats_after_failure (stats sample_distributor))).
Proof.
  apply (distribute_changes_ledger_one_of_two_ways sum_left_to_right
           (constant_env 0.55 None) sample_packet 2 0.5 sample_distributor).
  - apply reachable_init.
  - lia.
Defined.

Example delivery_updates_ledger :
  let '(ok, w') :=
    distribute sum_left_to_right (constant_env 0.55 None) sample_packet 2 0.5
      {| dist := sample_distributor; wire := [] |} in
  ok = inr true
  ∧ total_packets_received (stats (dist w')) = 1
  ∧ total_messages_received (stats (dist w')) = 2
  ∧ packets_per_analyzer (stats (dist w')) !! "analyzer-2" = Some 1
  ∧ messages_per_analyzer (stats (dist w')) !! "analyzer-2" = Some 2
  ∧ packets_per_analyzer (stats (dist w')) !! "analyzer-1" = Some 0
  ∧ failed_sends (stats (dist w')) = 0.
Proof. vm_compute. repeat split; reflexivity. Qed.

(** C5, where the code departs from it.  With [max_retries = 1025],
    no delay between attempts and a downstream that always times out,
    every attempted send fails with a retry-eligible outcome, yet the
    call issues 1025 POSTs and not 1026, adds nothing to [failed_sends]
    and does not return False: computing the backoff of attempt 1024
    raises OverflowError, which leaves the call. *)
Lemma retries_not_exhausted_beyond_1024 :
  let '(ok, w') :=
    distribute sum_left_to_right (constant_env 0.55 (Some TimeoutException))
      sample_packet 1025 0
      {| dist := sample_distributor; wire := [] |} in
  ok = inl OverflowError
  ∧ len (posts (wire w')) = 1025
  ∧ failed_sends (stats (dist w')) = failed_sends (stats sample_distributor).
Proof. vm_compute. repeat split; reflexivity. Qed.

(** C10, where the code departs from it.  With [max_retries = 1025],
    no delay between attempts and a downstream that always answers 503,
    the call neither returns True nor returns False, and no counter of
    the ledger moves: a third way, by the same OverflowError. *)
Lemma call_ends_a_third_way_beyond_1024 :
  let '(ok, w') :=
    distribute sum_left_to_right
      (constant_env 0.55 (Some (HTTPStatusError 503))) sample_packet 1025 0
      {| dist := sample_distributor; wire := [] |} in
  ok ≠ inr true ∧ ok ≠ inr false
  ∧ stats (dist w') = stats sample_distributor
  ∧ analyzers (dist w') = analyzers sample_distributor.
Proof. vm_compute. repeat split; (discriminate || reflexivity). Qed.

(* ================================================================== *)
(** ** The further properties at work on the sample deployment *)
(* ================================================================== *)

(** Marking analyzer-2 unhealthy leaves the three others, in order. *)
Lemma get_healthy_analyzers_after_update_witness :
  NoDup (name <$> analyzers sample_distributor)
  ∧ get_healthy_analyzers
      (update_analyzer_health "analyzer-2" false sample_distributor)
    = [analyzer_1; analyzer_3; analyzer_4].
Proof.
  split; [exact sample_names_distinct|].
  destruct (get_healthy_analyzers_after_update "analyzer-2" sample_distributor
              sample_names_distinct) as [H _].
  rewrite H. reflexivity.
Defined.

(** With analyzer-3 alone up, a draw far above its weight selects it. *)
Lemma sole_healthy_analyzer_is_always_selected_witness :
  healthy lone_survivor = [analyzer_3]
  ∧ PrimFloat.eqb (sum_left_to_right [weight analyzer_3]) 0 = false
  ∧ _select_analyzer sum_left_to_right lone_survivor 7 = Some analyzer_3.
Proof.
  split; [reflexivity|]. split; [reflexivity|].
  apply sole_healthy_analyzer_is_always_selected; reflexivity.
Defined.

(** After a round that finds every analyzer down, a call with two
    retries gives up at once. *)
Lemma distribute_gives_up_without_analyzer_witness :
  let w := {| dist := _check_all_analyzers all_down sample_distributor;
              wire := [] |} in
  (2 < 0 ∨ ∃ r, _select_analyzer sum_left_to_right (dist w) r = None)
  ∧ distribute sum_left_to_right (constant_env 0.55 None) sample_packet 2 0.5 w
    = (inr false, {| dist := record_failure (dist w); wire := wire w |}).
Proof.
  intros w.
  assert (2 < 0 ∨ ∃ r, _select_analyzer sum_left_to_right (dist w) r = None)
    as H by (right; exists 0%float; reflexivity).
  split; [exact H|].
  exact (distribute_gives_up_without_analyzer sum_left_to_right
           (constant_env 0.55 None) sample_packet 2 0.5 w H).
Defined.


(** A downstream that accepts: the call returns True at attempt 0. *)
Lemma delivery_is_credited_to_the_accepting_analyzer_witness :
  reachable sample_distributor
  ∧ fst (distribute sum_left_to_right (constant_env 0.55 None) sample_packet
           2 0.5 {| dist := sample_distributor; wire := [] |})
    = inr true.
Proof.
  split; [apply reachable_init|].
  pose proof (delivery_is_credited_to_the_accepting_analyzer sum_left_to_right
                (constant_env 0.55 None) sample_packet 2 0.5
                sample_distributor (reachable_init _ _)) as H.
  destruct (distribute sum_left_to_right (constant_env 0.55 None) sample_packet
              2 0.5 {| dist := sample_distributor; wire := [] |}) as [ok w'].
  destruct H as [_ H]. cbn [fst].
  apply (H 0 analyzer_2); try reflexivity; lia.
Defined.

(** A delivery, a health update and a rejected packet: two packets
    accounted for. *)
Lemma every_packet_is_accounted_once_witness :
  let cs :=
    [call_distribute (constant_env 0.55 None) sample_packet 2 0.5;
     call_update_analyzer_health "analyzer-2" false;
     call_distribute (constant_env 0.55 (Some (HTTPStatusError 404)))
       sample_packet 2 0.5] in
  reachable sample_distributor
  ∧ Forall (λ c, retries_of c ≤ 1024) cs
  ∧ accounted (run_all sum_left_to_right cs sample_distributor)
    = accounted sample_distributor + 2.
Proof.
  intros cs.
  assert (Forall (λ c, retries_of c ≤ 1024) cs) as Hcs
    by (repeat constructor; cbn; lia).
  split; [apply reachable_init|]. split; [exact Hcs|].
  exact (every_packet_is_accounted_once sum_left_to_right cs sample_distributor
           (reachable_init _ _) Hcs).
Defined.

(** The same calls deliver at least as many messages as packets. *)
Lemma messages_outnumber_packets_witness :
  let cs :=
    [call_distribute (constant_env 0.55 None) sample_packet 2 0.5;
     call_update_analyzer_health "analyzer-2" false;
     call_distribute (constant_env 0.55 (Some (HTTPStatusError 404)))
       sample_packet 2 0.5] in
  reachable sample_distributor
  ∧ Forall (λ c, min_items_ok c = true) cs
  ∧ total_packets_received
        (stats (run_all sum_left_to_right cs sample_distributor))
      - total_packets_received (stats sample_distributor)
    ≤ total_messages_received
        (stats (run_all sum_left_to_right cs sample_distributor))
      - total_messages_received (stats sample_distributor).
Proof.
  intros cs.
  assert (Forall (λ c, min_items_ok c = true) cs) as Hcs
    by (repeat constructor).
  split; [apply reachable_init|]. split; [exact Hcs|].
  exact (messages_outnumber_packets sum_left_to_right cs sample_distributor
           (reachable_init _ _) Hcs).
Defined.

(** The ledger of messages after one delivery to analyzer-2. *)
Lemma messages_ledger_balances_witness :
  let d := snd (record_success analyzer_2 sample_packet sample_distributor) in
  reachable d
  ∧ total_messages_received (stats d)
    = dict_sum (messages_per_analyzer (stats d))
  ∧ dom (messages_per_analyzer (stats d)) = list_to_set (name <$> analyzers d)
  ∧ counters_nonneg (stats d)
  ∧ (NoDup (name <$> analyzers d) →
     total_messages_received (stats d)
     = per_analyzer_total (messages_per_analyzer (stats d)) (analyzers d)).
Proof.
  intros d.
  assert (reachable d) as Hd.
  { apply reachable_success; [apply reachable_init|].
    cbn. apply list_elem_of_In. cbn. tauto. }
  split; [exact Hd|].
  exact (messages_ledger_balances d Hd).
Defined.

(** A round that finds every analyzer down. *)
Lemma check_all_analyzers_sets_every_flag_witness :
  NoDup (name <$> analyzers sample_distributor)
  ∧ stats (_check_all_analyzers all_down sample_distributor)
    = stats sample_distributor
  ∧ analyzers (_check_all_analyzers all_down sample_distributor)
    = probed all_down <$> analyzers sample_distributor
  ∧ get_healthy_analyzers (_check_all_analyzers all_down sample_distributor)
    = probed all_down
        <$> List.filter (_check_analyzer_health all_down)
              (analyzers sample_distributor).
Proof.
  split; [exact sample_names_distinct|].
  exact (check_all_analyzers_sets_every_flag all_down sample_distributor
           sample_names_distinct).
Defined.

(** Down, up, down again: the registry of the last round. *)
Lemma monitor_loop_keeps_last_round_witness :
  NoDup (name <$> analyzers sample_distributor)
  ∧ monitor_loop._monitor_loop ([all_down; all_up] ++ [all_down])
      sample_distributor
    = _check_all_analyzers all_down sample_distributor.
Proof.
  split; [exact sample_names_distinct|].
  exact (monitor_loop_keeps_last_round [all_down; all_up] all_down
           sample_distributor sample_names_distinct).
Defined.

(** A total outage, seen by a call that would have been delivered. *)
Lemma outage_round_fails_every_packet_witness :
  let d' := _check_all_analyzers all_down sample_distributor in
  NoDup (name <$> analyzers sample_distributor)
  ∧ Forall (λ a, _check_analyzer_health all_down a = false)
      (analyzers sample_distributor)
  ∧ get_healthy_analyzers d' = []
  ∧ distribute sum_left_to_right (constant_env 0.55 None) sample_packet 2 0.5
      {| dist := d'; wire := [] |}
    = (inr false, {| dist := record_failure d'; wire := [] |}).
Proof.
  intros d'.
  assert (Forall (λ a, _check_analyzer_health all_down a = false)
            (analyzers sample_distributor)) as Hdown
    by (repeat constructor).
  split; [exact sample_names_distinct|]. split; [exact Hdown|].
  exact (outage_round_fails_every_packet sum_left_to_right all_down
           sample_distributor (constant_env 0.55 None) sample_packet 2 0.5 []
           sample_names_distinct Hdown).
Defined.

(** The report of /health after three deliveries, the loss of
    analyzer-3 and one rejected packet: three healthy analyzers and one
    unhealthy, and details of 1 + 2 + 0 + 0 packets and 2 + 4 + 0 + 0
    messages under totals of 3 and 6. *)
Lemma health_report_adds_up_witness :
  reachable (service.the_distributor busy_app)
  ∧ NoDup (name <$> analyzers (service.the_distributor busy_app))
  ∧ service.MAX_QUEUE_SIZE sample_settings ≠ 0
  ∧ ∃ r,
      service.health_check ratio_text sample_settings busy_app = inr r
      ∧ service.report_analyzers_healthy r + service.report_analyzers_unhealthy r
        = service.report_analyzers_total r
      ∧ sum_Z (service.detail_packets_received
                 <$> service.report_analyzer_details r)
        = service.report_total_packets_received r
      ∧ sum_Z (service.detail_messages_received
                 <$> service.report_analyzer_details r)
        = service.report_total_messages_received r
      ∧ service.detail_packets_received <$> service.report_analyzer_details r
        = [1; 2; 0; 0]
      ∧ service.detail_messages_received <$> service.report_analyzer_details r
        = [2; 4; 0; 0]
      ∧ service.report_total_packets_received r = 3
      ∧ service.report_total_messages_received r = 6
      ∧ service.report_failed_sends r = 1
      ∧ service.report_analyzers_healthy r = 3
      ∧ service.report_analyzers_unhealthy r = 1.
Proof.
  assert (reachable (service.the_distributor busy_app)) as Hd
    by apply run_all_reachable, reachable_init.
  assert (NoDup (name <$> analyzers (service.the_distributor busy_app))) as Hnd
    by exact sample_names_distinct.
  assert (service.MAX_QUEUE_SIZE sample_settings ≠ 0) as Hbound by (cbn; lia).
  split; [exact Hd|]. split; [exact Hnd|]. split; [exact Hbound|].
  destruct (health_report_adds_up ratio_text sample_settings busy_app
              Hd Hnd Hbound)
    as (r & Hr & Hsum & _ & _ & _ & Hp & Hm).
  exists r. split; [exact Hr|]. split; [exact Hsum|].
  split; [exact Hp|]. split; [exact Hm|].
  vm_compute in Hr. injection Hr as <-. vm_compute. repeat split; reflexivity.
Defined.

(** Worker 0 alone, after one accepted request. *)
Lemma worker_alone_is_a_call_of_distribute_witness :
  let env := constant_env 0.55 None in
  let s1 :=
    snd (service.step sum_left_to_right sample_settings
           (service.worker_takes 0) sample_system) in
  let s2 :=
    service.run_alone sum_left_to_right sample_settings
      (2 * Z.to_nat (service.MAX_RETRIES sample_settings + 1) + 1) env 0 s1 in
  service.workers sample_system !! 0%nat = Some service.waiting_for_packet
  ∧ service.app_state s2
    = service.queue_worker_turn sum_left_to_right sample_settings env
        (service.app_state sample_system)
  ∧ service.workers s2 = service.workers sample_system.
Proof.
  intros env s1 s2.
  assert (service.workers sample_system !! 0%nat
          = Some service.waiting_for_packet) as Hi by reflexivity.
  split; [exact Hi|].
  exact (worker_alone_is_a_call_of_distribute sum_left_to_right sample_settings
           env 0 sample_system Hi).
Defined.

(** Three requests and a worker on a queue without bound. *)
Lemma queue_without_bound_never_rejects_witness :
  let acts :=
    [service.request_ingest sample_packet;
     service.request_ingest sample_packet;
     service.worker_takes 0;
     service.request_ingest sample_packet] in
  service.MAX_QUEUE_SIZE unbounded_settings ≤ 0
  ∧ let '(os, s) :=
      service.steps sum_left_to_right unbounded_settings acts
        (service.boot unbounded_settings (analyzers sample_distributor)) in
    Forall (λ o, is_503 o = false) os
    ∧ len (accepted_packets os)
      = len (List.filter
               (λ a, match a with service.request_ingest _ => true | _ => false end)
               acts)
    ∧ (service.MAX_QUEUE_SIZE unbounded_settings = 0 →
       service.health_check ratio_text unbounded_settings (service.app_state s)
       = inl service.division_by_zero).
Proof.
  intros acts.
  assert (service.MAX_QUEUE_SIZE unbounded_settings ≤ 0) as Hb by (cbn; lia).
  split; [exact Hb|].
  exact (queue_without_bound_never_rejects sum_left_to_right unbounded_settings
           (analyzers sample_distributor) acts ratio_text Hb).
Defined.

(** Further runs of the service, evaluated. *)

(** Two free slots, four packets: 202, 202, 503, 503. *)
Example burst_example :
  fst (offer_all [sample_packet; sample_packet; sample_packet; sample_packet]
         (sample_queue 2 []))
  = [202; 202; 503; 503].
Proof. reflexivity. Qed.

(** A packet in flight when the monitor marks its analyzer unhealthy is
    still credited to that analyzer when its POST is accepted. *)
Example credited_after_marked_unhealthy :
  let '(os, s) :=
    service.steps sum_left_to_right sample_settings
      [service.request_ingest sample_packet;
       service.worker_takes 0;
       service.worker_resumes 0 0.55;
       service.monitor_updates "analyzer-2" false;
       service.post_returns 0 None]
      (service.boot sample_settings (analyzers sample_distributor)) in
  get_healthy_analyzers (service.the_distributor (service.app_state s))
  = [analyzer_1; analyzer_3; analyzer_4]
  ∧ packets_per_analyzer (ledger s) !! "analyzer-2" = Some 1
  ∧ service.outbox (service.app_state s)
    = [EvPost "http://analyzer-2:8002/analyze" "packet-001"].
Proof. vm_compute. repeat split; reflexivity. Qed.

(** [get_analyzers] on weights given as text: a NaN fails the upper
    bound first, a negative weight the lower bound, a text that is no
    number fails in [float()], and the first bad weight in list order
    decides. *)
Example get_analyzers_text_examples :
  config_text.get_analyzers sum_left_to_right sample_float
    (environ_with_text "ANALYZER_2_WEIGHT" "nan")
  = inl (config_text.Validation (less_than_equal "weight"))
  ∧ config_text.get_analyzers sum_left_to_right sample_float
      (environ_with_text "ANALYZER_2_WEIGHT" "-0.5")
    = inl (config_text.Validation (greater_than_equal "weight"))
  ∧ config_text.get_analyzers sum_left_to_right sample_float
      (environ_with_text "ANALYZER_2_WEIGHT" "1.5")
    = inl (config_text.Validation (less_than_equal "weight"))
  ∧ config_text.get_analyzers sum_left_to_right sample_float
      (environ_with_text "ANALYZER_3_WEIGHT" "heavy")
    = inl (config_text.ValueError "heavy")
  ∧ config_text.get_analyzers sum_left_to_right sample_float
      (λ k, if decide (k = "ANALYZER_4_WEIGHT") then Some "heavy"
            else if decide (k = "ANALYZER_1_WEIGHT") then Some "-0.5"
            else None)
    = inl (config_text.Validation (greater_than_equal "weight"))
  ∧ (name <$> default [] (fst <$> (match config_text.get_analyzers
                                       sum_left_to_right sample_float (λ _, None)
                                   with inr x => Some x | inl _ => None end)))
    = ["analyzer-1"; "analyzer-2"; "analyzer-3"; "analyzer-4"].
Proof. vm_compute. repeat split; reflexivity. Qed.

(** The delays of the first waits for base delays of 0.5 and 0.1
    seconds, and the last delay that can be computed at all. *)
Example delay_examples :
  backoff_delay.delay 0.5 <$> range 4 = [0.5; 1; 2; 4]%float
  ∧ backoff_delay.delay 0.1 <$> range 4 = [0.1; 0.2; 0.4; 0.8]%float
  ∧ backoff_delay.delay 1 1023 = 8.9884656743115795e+307%float
  ∧ backoff_delay.delay 0 1023 = 0%float.
Proof. vm_compute. repeat split; reflexivity. Qed.
